(** * Topology discovery creator (pyats.contrib.creators.topology)

    A shallow embedding of [topology.py]: the name normaliser, the OS
    classifier, the CDP/LLDP neighbour-record merger, the graph builder,
    the discovery loop and the final YAML merge, followed by the
    properties of the specification that were checked against them.

    Conventions.
    - A Python [str] is a [string]; its characters are read as code points
      below 256, and the character classes of [re] ([\w], [\s], [\d], [.])
      are the ones Python uses on that range.
    - A Python [dict] is an insertion-ordered association list ([Dict]).
    - A Python [set] is a duplicate-free list; the order of the list stands
      for the (unspecified) order in which Python iterates over the set.
    - Code that can raise returns in the [result] monad. *)

From Stdlib Require Import List Bool Arith Lia ZArith String Ascii.
From Stdlib Require Import ListSet DecimalString.
Import ListNotations.
Local Open Scope string_scope.
Local Open Scope list_scope.

Set Implicit Arguments.

(* ================================================================== *)
(** * Exceptions and the result monad *)

Inductive exn : Type :=
| KeyError
| TypeError
| IndexError
| UnboundLocalError
| AddressValueError
| AttributeError
| DuplicateLinkError.

Inductive result (A : Type) : Type :=
| Ok (a : A)
| Raise (e : exn).
Arguments Ok {A} a.
Arguments Raise {A} e.

Definition bind {A B} (m : result A) (f : A -> result B) : result B :=
  match m with
  | Ok a => f a
  | Raise e => Raise e
  end.

Notation "x <- m ;; k" := (bind m (fun x => k))
  (at level 61, m at next level, right associativity).
Notation "' p <- m ;; k" := (bind m (fun x => match x with p => k end))
  (at level 61, p pattern, m at next level, right associativity).

Definition of_option {A} (e : exn) (o : option A) : result A :=
  match o with
  | Some a => Ok a
  | None => Raise e
  end.

(** [for x in xs: st = body(st, x)], stopping at the first exception. *)
Fixpoint foldM {A S} (body : S -> A -> result S) (xs : list A) (st : S)
  : result S :=
  match xs with
  | [] => Ok st
  | x :: xs' => st' <- body st x ;; foldM body xs' st'
  end.

Definition is_ok {A} (r : result A) : bool :=
  match r with Ok _ => true | Raise _ => false end.

(* ================================================================== *)
(** * Strings *)

Definition str := string.

(** Python [sub in s] on strings. *)
Fixpoint contains (sub s : str) : bool :=
  String.prefix sub s ||
  match s with
  | EmptyString => false
  | String _ s' => contains sub s'
  end.

Definition code (a : ascii) : nat := nat_of_ascii a.

Definition between (lo hi : nat) (a : ascii) : bool :=
  (lo <=? code a)%nat && (code a <=? hi)%nat.

(** [\d]: decimal digits (category Nd); below 256 these are 0-9. *)
Definition is_digit (a : ascii) : bool := between 48 57 a.

(** [\w]: alphanumerics and the underscore. *)
Definition is_word (a : ascii) : bool :=
  is_digit a || between 65 90 a || between 97 122 a || (code a =? 95)%nat
  || (code a =? 170)%nat || (code a =? 178)%nat || (code a =? 179)%nat || (code a =? 181)%nat
  || (code a =? 185)%nat || (code a =? 186)%nat || between 188 190 a
  || between 192 214 a || between 216 246 a || between 248 255 a.

(** [\s]: whitespace. *)
Definition is_space (a : ascii) : bool :=
  between 9 13 a || between 28 32 a || (code a =? 133)%nat || (code a =? 160)%nat.

(** [.]: anything but a newline. *)
Definition is_dot (a : ascii) : bool := negb (code a =? 10)%nat.

(** [[-\w]] *)
Definition is_host_char (a : ascii) : bool := (code a =? 45)%nat || is_word a.

(** [str.lower] on one character. *)
Definition lower_char (a : ascii) : ascii :=
  if between 65 90 a || between 192 214 a || between 216 222 a
  then ascii_of_nat (code a + 32) else a.

Fixpoint lower (s : str) : str :=
  match s with
  | EmptyString => EmptyString
  | String a s' => String (lower_char a) (lower s')
  end.

(* ------------------------------------------------------------------ *)
(** ** A backtracking matcher for the constructs the patterns use

    Each combinator takes the text still to be matched and a continuation
    for the rest of the pattern; the continuation receives the text the
    construct consumed and the text left.  [None] means that the rest of
    the pattern failed, and makes the construct try its next alternative,
    in the order [re] tries them. *)

Section Regex.
Variable R : Type.
Variable c : ascii -> bool.

(** [c*?]: as few characters as possible. *)
Fixpoint lazy_star (s : str) (k : str -> str -> option R) : option R :=
  match k "" s with
  | Some r => Some r
  | None =>
      match s with
      | String a s' =>
          if c a then lazy_star s' (fun m rest => k (String a m) rest)
          else None
      | EmptyString => None
      end
  end.

(** [c+?] *)
Definition lazy_plus (s : str) (k : str -> str -> option R) : option R :=
  match s with
  | String a s' =>
      if c a then lazy_star s' (fun m rest => k (String a m) rest)
      else None
  | EmptyString => None
  end.

(** [c*]: as many characters as possible. *)
Fixpoint greedy_star (s : str) (k : str -> str -> option R) : option R :=
  match s with
  | String a s' =>
      if c a then
        match greedy_star s' (fun m rest => k (String a m) rest) with
        | Some r => Some r
        | None => k "" s
        end
      else k "" s
  | EmptyString => k "" s
  end.

(** [c+] *)
Definition greedy_plus (s : str) (k : str -> str -> option R) : option R :=
  match s with
  | String a s' =>
      if c a then greedy_star s' (fun m rest => k (String a m) rest)
      else None
  | EmptyString => None
  end.

(** [c?] *)
Definition optional (s : str) (k : str -> str -> option R) : option R :=
  match s with
  | String a s' =>
      if c a then
        match k (String a "") s' with
        | Some r => Some r
        | None => k "" s
        end
      else k "" s
  | EmptyString => k "" s
  end.
End Regex.

(** [(?=\d)] *)
Definition lookahead_digit {R} (s : str) (k : option R) : option R :=
  match s with
  | String a _ => if is_digit a then k else None
  | EmptyString => None
  end.

(** [domain_filter = re.compile(r'^.*?(?P<hostname>[-\w]+)\s?')];
    [domain_filter.match(s)], giving the [hostname] group. *)
Definition domain_filter (s : str) : option str :=
  lazy_star is_dot s (fun _ s1 =>
    greedy_plus is_host_char s1 (fun hostname s2 =>
      optional is_space s2 (fun _ _ => Some hostname))).

(** [interface_filter = re.compile(r'.+?(?=\d)')];
    [interface_filter.match(s)], giving group 0. *)
Definition interface_filter (s : str) : option str :=
  lazy_plus is_dot s (fun m rest => lookahead_digit rest (Some m)).

(** The name normaliser, as both protocol paths apply it:
    [filtered_name = domain_filter.match(dest_host)];
    [if filtered_name: dest_host = filtered_name.groupdict()['hostname']]. *)
Definition normalize (dest_host : str) : str :=
  match domain_filter dest_host with
  | Some hostname => hostname
  | None => dest_host
  end.

(** [type_name = interface_filter.match(interface)];
    [type_name[0].lower()]: a [TypeError] when there is no match. *)
Definition interface_type (interface : str) : result str :=
  match interface_filter interface with
  | Some t => Ok (lower t)
  | None => Raise TypeError
  end.

(* ================================================================== *)
(** * OS classifier *)

Definition get_os (system_string platform_name : str) : option str :=
  if contains "IOS" system_string || contains "IOS" platform_name then
    if contains "XE" system_string || contains "XE" platform_name then
      Some "iosxe"
    else if contains "XR" system_string || contains "XR" platform_name then
      Some "iosxr"
    else Some "ios"
  else if contains "NX-OS" system_string || contains "NX-OS" platform_name then
    Some "nxos"
  else None.

(* ================================================================== *)
(** * Python containers *)

(** An insertion-ordered [dict] with [str] keys. *)
Module Dict.
Section Dict.
Variable V : Type.

Definition t := list (str * V).

(** [d.get(k)] *)
Fixpoint get (k : str) (d : t) : option V :=
  match d with
  | [] => None
  | (k', v) :: d' => if String.eqb k k' then Some v else get k d'
  end.

(** [k in d] *)
Definition mem (k : str) (d : t) : bool :=
  match get k d with Some _ => true | None => false end.

(** [d[k]] *)
Definition item (k : str) (d : t) : result V := of_option KeyError (get k d).

(** [d[k] = v]: an existing key keeps its place, a new one goes last. *)
Fixpoint set (k : str) (v : V) (d : t) : t :=
  match d with
  | [] => [(k, v)]
  | (k', v') :: d' =>
      if String.eqb k k' then (k', v) :: d' else (k', v') :: set k v d'
  end.

Definition keys (d : t) : list str := map fst d.
Definition values (d : t) : list V := map snd d.

(** [d.update(d2)] *)
Definition update (d d2 : t) : t :=
  fold_left (fun acc kv => set (fst kv) (snd kv) acc) d2 d.
End Dict.
End Dict.

(** Sets of strings and of optional strings ([None] can be an element). *)
Definition ostr_dec : forall x y : option str, {x = y} + {x <> y}.
Proof. decide equality; apply string_dec. Defined.

Definition set_add_str := ListSet.set_add string_dec.
Definition set_mem_str := ListSet.set_mem string_dec.
Definition set_add_ostr := ListSet.set_add ostr_dec.
Definition set_mem_ostr := ListSet.set_mem ostr_dec.

(** [{x for x in xs}] *)
Definition set_of_list (xs : list str) : list str :=
  fold_left (fun s x => set_add_str x s) xs [].

(** [s.union(s2)] *)
Definition set_union_ostr (s s2 : list (option str)) : list (option str) :=
  fold_left (fun acc x => set_add_ostr x acc) s2 s.

(* ================================================================== *)
(** * IPv4 addresses and networks ([ipaddress]) *)

Fixpoint split_on (sep : ascii) (s : str) : list str :=
  match s with
  | EmptyString => [""]
  | String a s' =>
      if Ascii.eqb a sep then "" :: split_on sep s'
      else match split_on sep s' with
           | [] => [String a ""]
           | x :: xs => String a x :: xs
           end
  end.

Fixpoint decimal_value (s : str) (acc : nat) : option nat :=
  match s with
  | EmptyString => Some acc
  | String a s' =>
      if is_digit a then decimal_value s' (10 * acc + (code a - 48))
      else None
  end.

(** [_parse_octet]: one to three decimal digits, no leading zero, at most
    255. *)
Definition parse_octet (o : str) : option Z :=
  match o with
  | EmptyString => None
  | String a rest =>
      if (3 <? String.length o)%nat then None
      else if (code a =? 48)%nat && negb (String.eqb rest "") then None
      else match decimal_value o 0 with
           | Some n => if (255 <? n)%nat then None else Some (Z.of_nat n)
           | None => None
           end
  end.

(** [ipaddress.IPv4Address(s)], as the 32-bit integer [_ip]. *)
Definition IPv4Address (s : str) : result Z :=
  match map parse_octet (split_on "." s) with
  | [Some a; Some b; Some c; Some d] =>
      Ok (Z.lor (Z.shiftl a 24) (Z.lor (Z.shiftl b 16) (Z.lor (Z.shiftl c 8) d)))
  | _ => Raise AddressValueError
  end.

(** What [ipaddress.ip_network] returns: the version, the network address
    and the mask. *)
Record network : Type := {
  net_version : nat;
  network_address : Z;
  netmask : Z
}.

(** [address in net], for an [IPv4Address]. *)
Definition in_network (address : Z) (net : network) : bool :=
  (net_version net =? 4)%nat
  && Z.eqb (Z.land address (netmask net)) (network_address net).

(* ================================================================== *)
(** * Parsed neighbour data *)

(** One entry of [result['index']] of the CDP parser. *)
Record cdp_entry : Type := {
  system_name : option str;
  device_id : option str;
  port_id : str;
  local_interface : str;
  management_addresses : option (list str);
  interface_addresses : option (list str);
  software_version : str;
  platform : str
}.

(** One neighbour of the LLDP parser. *)
Record lldp_neighbor : Type := {
  management_address : option str;
  management_address_v4 : option str;
  system_description : option str
}.

(** The LLDP parser output: [interfaces] maps a local interface to its
    [port_id] table, which maps a remote port to its [neighbors] table. *)
Record lldp_result : Type := {
  total_entries : Z;
  interfaces : Dict.t (Dict.t (Dict.t lldp_neighbor))
}.

(** What [get_neighbor_info] collects for one device; [None] is an absent
    or empty value. *)
Record neighbor_data : Type := {
  cdp : option (list cdp_entry);
  lldp : option lldp_result
}.

(* ================================================================== *)
(** * The topology objects

    Modelled from the spec: the classes [Testbed], [Device], [Interface]
    and [Link] of [genie.conf.base] are not part of the repository.  As in
    sections 3 and 9 of the specification, an interface is identified by
    its device and its name and holds a back-reference to its link, and a
    link holds the ordered list of its member interfaces.  The link objects
    are kept in an arena, [links], in the order of their creation, and a
    link is referred to by its position there; an interface that joins
    another link stays in the member list of the link it leaves.  What
    the property [testbed.links] returns is not the arena but the links
    that some interface of some device refers to ([testbed_links] below). *)

Definition iface_id : Type := (str * str)%type.

Definition iface_id_dec : forall x y : iface_id, {x = y} + {x <> y}.
Proof. decide equality; apply string_dec. Defined.

Definition iface_mem (i : iface_id) (l : list iface_id) : bool :=
  if in_dec iface_id_dec i l then true else false.

Record Interface : Type := {
  if_name : str;
  if_type : str;
  if_link : option nat;
  if_ipv4 : option str
}.

(** The text ['ssh {}'.format(..)] and ['ssh {user}@{ip}'.format(..)],
    kept as the format and its arguments; [ip] can be a string or a set. *)
Inductive fmt_arg : Type :=
| FNone
| FStr (s : str)
| FSet (s : list str).

Inductive command : Type :=
| CmdText (s : str)
| CmdSsh (target : fmt_arg)
| CmdSshUser (user : str) (target : fmt_arg).

Record proxy_step : Type := {
  step_device : str;
  step_command : option command
}.

(** A [proxy] value: a device name or a list of steps.  A list is an
    object that several connections can hold and that [write_proxy_chain]
    extends in place; the lists are kept in an arena, [chains] below, and a
    proxy value holds the position of its list there. *)
Inductive proxy : Type :=
| ProxyName (device : str)
| ProxyList (chain : nat).

(** A connection of a device.  [None] is a key that the connection does
    not have: reading it as an attribute raises [AttributeError], [.get]
    gives [None].  The address can also be there with the value [None]
    ([Some None]), as the tool writes it for a neighbour without a
    management address. *)
Record Connection : Type := {
  conn_protocol : option str;
  conn_ip : option (option str);
  conn_proxy : option proxy
}.

Definition Credentials : Type := Dict.t (Dict.t str).

Record Device : Type := {
  dev_name : str;
  dev_os : option str;
  dev_type : str;
  dev_credentials : Credentials;
  dev_connections : Dict.t Connection;
  dev_interfaces : Dict.t Interface
}.

Record Link : Type := {
  link_name : str;
  link_interfaces : list iface_id
}.

(** The testbed, with the two arenas of the objects its devices share:
    the links and the lists of proxy steps. *)
Record Testbed : Type := {
  devices : Dict.t Device;
  links : list Link;
  chains : list (list proxy_step)
}.

Definition with_interfaces (d : Device) (ifs : Dict.t Interface) : Device :=
  {| dev_name := dev_name d; dev_os := dev_os d; dev_type := dev_type d;
     dev_credentials := dev_credentials d;
     dev_connections := dev_connections d; dev_interfaces := ifs |}.

Definition with_connections (d : Device) (cs : Dict.t Connection) : Device :=
  {| dev_name := dev_name d; dev_os := dev_os d; dev_type := dev_type d;
     dev_credentials := dev_credentials d;
     dev_connections := cs; dev_interfaces := dev_interfaces d |}.

Definition with_devices (tb : Testbed) (ds : Dict.t Device) : Testbed :=
  {| devices := ds; links := links tb; chains := chains tb |}.

Definition with_chains (tb : Testbed) (cs : list (list proxy_step))
  : Testbed :=
  {| devices := devices tb; links := links tb; chains := cs |}.

(** The steps of a list of the arena; a position outside the arena reads
    as the empty list. *)
Definition chain_steps (tb : Testbed) (chain : nat) : list proxy_step :=
  nth chain (chains tb) [].

(** [l[n] = x] for a position of the list. *)
Fixpoint set_nth {A} (n : nat) (x : A) (l : list A) : list A :=
  match l, n with
  | [], _ => []
  | _ :: l', O => x :: l'
  | y :: l', S n' => y :: set_nth n' x l'
  end.

(** [Interface(interface, type = ..)]: no link, no address. *)
Definition new_interface (interface type : str) : Interface :=
  {| if_name := interface; if_type := type; if_link := None;
     if_ipv4 := None |}.

(** The snippet the source repeats for an interface a device lacks:
    [type_name = interface_filter.match(interface)];
    [interface_a = Interface(interface, type = type_name[0].lower())];
    [interface_a.device = dev]. *)
Definition attach_interface (dev : Device) (interface : str) : result Device :=
  type <- interface_type interface ;;
  Ok (with_interfaces dev
        (Dict.set interface (new_interface interface type)
                  (dev_interfaces dev))).

(** [if interface not in dev.interfaces:] followed by that snippet. *)
Definition ensure_interface (dev : Device) (interface : str) : result Device :=
  if Dict.mem interface (dev_interfaces dev) then Ok dev
  else attach_interface dev interface.

(** The same on [testbed.devices[name]]. *)
Definition ensure_interface_on (name : str) (tb : Testbed) (interface : str)
  : result Testbed :=
  dev <- Dict.item name (devices tb) ;;
  dev' <- ensure_interface dev interface ;;
  Ok (with_devices tb (Dict.set name dev' (devices tb))).

(* ================================================================== *)
(** * Run configuration and collaborators *)

(** The creator's options that the core reads.  [exclude_interfaces] is
    [self._exclude_interfaces]: the option's text as it was given (the
    source never splits it, unlike [exclude_network]). *)
Record Config : Type := {
  only_links : bool;
  exclude_interfaces : str;
  add_unconnected_interfaces : bool
}.

(** Modelled from the spec: the device manager ([libs/testbed_manager.py])
    is not part of the sources at hand.  Section 6 of the specification
    gives what the core consumes: the neighbour data of a device (a failed
    fetch is an empty result) and the two phrasings of the command that
    lists a device's interfaces. *)
Record Env : Type := {
  get_neighbor_info : str -> neighbor_data;
  show_interfaces_description : str -> result (list str);
  show_interface_description : str -> result (list str)
}.

(* ================================================================== *)
(** * Neighbour record merger *)

(** One value of [device_list]: the keys ['ports'], ['ip'], ['os'] and
    ['finder']. *)
Record discovered : Type := {
  dl_ports : list str;
  dl_ip : list (option str);
  dl_os : option str;
  dl_finder : str * list str
}.

(** One element of [connection_dict[interface]]. *)
Record conn_entry : Type := {
  dest_host : str;
  dest_port : str
}.

Definition device_list_t : Type := Dict.t discovered.
Definition connection_dict_t : Type := Dict.t (list conn_entry).

Definition add_to_device_list (device_list : device_list_t)
    (dest_host dest_port : str) (int_address : list str)
    (mgmt_address : list (option str)) (os : option str)
    (discover_name : str) : device_list_t :=
  (* int_address.difference_update(mgmt_address) *)
  let int_address :=
    filter (fun a => negb (set_mem_ostr (Some a) mgmt_address)) int_address in
  match Dict.get dest_host device_list with
  | None =>
      Dict.set dest_host
        {| dl_ports := [dest_port]; dl_ip := mgmt_address; dl_os := os;
           dl_finder := (discover_name, int_address) |} device_list
  | Some e =>
      Dict.set dest_host
        {| dl_ports := set_add_str dest_port (dl_ports e);
           dl_ip := set_union_ostr (dl_ip e) mgmt_address;
           dl_os := match dl_os e with None => os | Some o => Some o end;
           dl_finder := dl_finder e |} device_list
  end.

Definition same_entry (h p : str) (e : conn_entry) : bool :=
  String.eqb (dest_host e) h && String.eqb (dest_port e) p.

Definition add_to_connection_dict (connection_dict : connection_dict_t)
    (dest_host dest_port interface : str) : connection_dict_t :=
  let new_entry := {| dest_host := dest_host; dest_port := dest_port |} in
  match Dict.get interface connection_dict with
  | None => Dict.set interface [new_entry] connection_dict
  | Some entries =>
      if existsb (same_entry dest_host dest_port) entries then connection_dict
      else Dict.set interface (entries ++ [new_entry]) connection_dict
  end.

(** [for net in exclude_networks: if IPv4Address(ip) in net: stop = True;
    break] *)
Fixpoint address_excluded (ip : str) (exclude_networks : list network)
  : result bool :=
  match exclude_networks with
  | [] => Ok false
  | net :: nets =>
      a <- IPv4Address ip ;;
      if in_network a net then Ok true else address_excluded ip nets
  end.

(** [for ip, net in product(ips, exclude_networks): ...], the same test
    with the addresses in the outer position. *)
Fixpoint product_excluded (ips : list str) (exclude_networks : list network)
  : result bool :=
  match ips with
  | [] => Ok false
  | ip :: ips' =>
      stop <- address_excluded ip exclude_networks ;;
      if stop then Ok true else product_excluded ips' exclude_networks
  end.

Definition merge_state : Type := (device_list_t * connection_dict_t)%type.

(** [dest_host = connection.get('system_name')];
    [if not dest_host: dest_host = connection.get('device_id')]. *)
Definition cdp_raw_host (connection : cdp_entry) : option str :=
  match system_name connection with
  | None | Some EmptyString => device_id connection
  | Some s => Some s
  end.

Section Merger.
Variable cfg : Config.
Variable exclude_networks : list network.
Variable testbed : Testbed.
Variable device_name : str.

(** The body of the loop of [_process_cdp_information]; returning the
    state unchanged is [continue]. *)
Definition process_cdp_entry (st : merge_state) (connection : cdp_entry)
  : result merge_state :=
  raw <- of_option TypeError (cdp_raw_host connection) ;;
  let dest_host := normalize raw in
  if only_links cfg && negb (Dict.mem dest_host (devices testbed)) then Ok st
  else
    let dest_port := port_id connection in
    let interface := local_interface connection in
    if contains interface (exclude_interfaces cfg) then Ok st
    else if contains dest_port (exclude_interfaces cfg) then Ok st
    else
      mgmt_address <- of_option TypeError (management_addresses connection) ;;
      int_address <- of_option TypeError (interface_addresses connection) ;;
      let int_set := set_of_list int_address in
      let mgmt_set := set_of_list mgmt_address in
      stop1 <- product_excluded int_set exclude_networks ;;
      stop2 <- product_excluded mgmt_set exclude_networks ;;
      if stop1 || stop2 then Ok st
      else
        let os := get_os (software_version connection) (platform connection) in
        Ok (add_to_device_list (fst st) dest_host dest_port int_set
              (map Some mgmt_set) os device_name,
            add_to_connection_dict (snd st) dest_host dest_port interface).

Definition _process_cdp_information (parsed : list cdp_entry)
    (st : merge_state) : result merge_state :=
  foldM process_cdp_entry parsed st.

(** [ip_address = neighbor.get('management_address')];
    [if ip_address is None: ip_address = neighbor.get('management_address_v4')]. *)
Definition lldp_ip_address (neighbor : lldp_neighbor) : option str :=
  match management_address neighbor with
  | Some a => Some a
  | None => management_address_v4 neighbor
  end.

(** [if ip_address is not None and exclude_networks: ...] *)
Definition lldp_excluded (ip_address : option str) : result bool :=
  match ip_address, exclude_networks with
  | Some a, _ :: _ => address_excluded a exclude_networks
  | _, _ => Ok false
  end.

(** The body of the inner loop of [_process_lldp_information], for the
    local [interface] and one item of its [port_id] table.  [dest_host]
    is the first key of the [neighbors] table and [neighbor] its value. *)
Definition process_lldp_port (interface : str) (st : merge_state)
    (item : str * Dict.t lldp_neighbor) : result merge_state :=
  let dest_port := fst item in
  match snd item with
  | [] => Raise IndexError
  | (dest_host, neighbor) :: _ =>
      if only_links cfg && negb (Dict.mem dest_host (devices testbed))
      then Ok st
      else if contains interface (exclude_interfaces cfg) then Ok st
      else if contains dest_port (exclude_interfaces cfg) then Ok st
      else
        let ip_address := lldp_ip_address neighbor in
        stop <- lldp_excluded ip_address ;;
        if stop then Ok st
        else
          description <- of_option KeyError (system_description neighbor) ;;
          let os := get_os description "" in
          let dest_host := normalize dest_host in
          Ok (add_to_device_list (fst st) dest_host dest_port []
                [ip_address] os device_name,
              add_to_connection_dict (snd st) dest_host dest_port interface)
  end.

Definition _process_lldp_information (parsed : lldp_result)
    (st : merge_state) : result merge_state :=
  foldM (fun st item => foldM (process_lldp_port (fst item)) (snd item) st)
        (interfaces parsed) st.

(** Returns the connections of the device together with the updated
    [device_list] and testbed, which the source mutates in place. *)
Definition get_device_connections (data : neighbor_data)
    (device_list : device_list_t)
  : result (connection_dict_t * device_list_t * Testbed) :=
  let st : merge_state := (device_list, []) in
  st <- match cdp data with
        | Some parsed => _process_cdp_information parsed st
        | None => Ok st
        end ;;
  st <- match lldp data with
        | Some parsed =>
            if negb (Z.eqb (total_entries parsed) 0)
            then _process_lldp_information parsed st
            else Ok st
        | None => Ok st
        end ;;
  tb <- foldM (ensure_interface_on device_name) (Dict.keys (snd st)) testbed ;;
  Ok (snd st, fst st, tb).
End Merger.

(* ================================================================== *)
(** * Graph builder: new devices *)

(** The [for .. else] of [write_proxy_chain]: the first connection of the
    finder, other than ['defaults'], that is [ssh] and has a proxy, as its
    proxy and its address.  The loop reads [connection_detail.protocol] of
    each connection it passes and [connection_detail.ip] of the one it
    picks: a connection without that key raises [AttributeError]. *)
Fixpoint first_ssh_proxy (connections : Dict.t Connection)
  : result (option (proxy * option str)) :=
  match connections with
  | [] => Ok None
  | (conn, connection_detail) :: rest =>
      if String.eqb conn "defaults" then first_ssh_proxy rest
      else
        protocol <- of_option AttributeError
                      (conn_protocol connection_detail) ;;
        if String.eqb protocol "ssh" then
          match conn_proxy connection_detail with
          | Some new_proxy =>
              conn_ip <- of_option AttributeError
                           (conn_ip connection_detail) ;;
              Ok (Some (new_proxy, conn_ip))
          | None => first_ssh_proxy rest
          end
        else first_ssh_proxy rest
  end.

Definition fmt_of (o : option str) : fmt_arg :=
  match o with Some s => FStr s | None => FNone end.

(** [new_proxy[-1]['command'] = c] *)
Fixpoint set_last_command (c : command) (steps : list proxy_step)
  : result (list proxy_step) :=
  match steps with
  | [] => Raise IndexError
  | [s] => Ok [{| step_device := step_device s; step_command := Some c |}]
  | s :: rest => rest' <- set_last_command c rest ;; Ok (s :: rest')
  end.

(** Returns the proxy and the testbed.  When the finder's proxy is a list,
    the source changes and returns that very list, which the finder's
    connection, and every connection that was given it before, holds: the
    list changes in the arena and keeps its position.  When it is a device
    name, the source builds a new list. *)
Definition write_proxy_chain (finder_name : str) (testbed : Testbed)
    (credentials : Credentials) (ip : list str) : result (proxy * Testbed) :=
  finder_device <- Dict.item finder_name (devices testbed) ;;
  default <- Dict.item "default" credentials ;;
  user <- Dict.item "username" default ;;
  found <- first_ssh_proxy (dev_connections finder_device) ;;
  let finder_step :=
    {| step_device := finder_name;
       step_command := Some (CmdSshUser user (FSet ip)) |} in
  match found with
  | None => Ok (ProxyName finder_name, testbed)
  | Some (ProxyList chain, conn_ip) =>
      steps <- set_last_command (CmdSshUser user (fmt_of conn_ip))
                                (chain_steps testbed chain) ;;
      Ok (ProxyList chain,
          with_chains testbed
            (set_nth chain (steps ++ [finder_step]) (chains testbed)))
  | Some (ProxyName new_proxy, conn_ip) =>
      let proxy_steps :=
        [{| step_device := new_proxy;
            step_command := Some (CmdSsh (fmt_of conn_ip)) |};
         finder_step] in
      Ok (ProxyList (List.length (chains testbed)),
          with_chains testbed (chains testbed ++ [proxy_steps]))
  end.

(** The value of a loop variable after [for x in xs], given its binding
    before the loop ([None]: not bound). *)
Fixpoint after_loop {A} (before : option A) (xs : list A) : option A :=
  match xs with
  | [] => before
  | x :: xs' => after_loop (Some x) xs'
  end.

(** [for ip in ..['ip']: for proxy in proxy_set:
       connections['ssh' + proxy] = {'protocol': 'ssh', 'ip': ip,
                                     'proxy': proxy}] *)
Definition proxy_connections (ips : list (option str)) (proxy_set : list str)
    (connections : Dict.t Connection) : Dict.t Connection :=
  fold_left
    (fun connections ip =>
       fold_left
         (fun connections proxy =>
            Dict.set ("ssh" ++ proxy)%string
              {| conn_protocol := Some "ssh"; conn_ip := Some ip;
                 conn_proxy := Some (ProxyName proxy) |} connections)
         proxy_set connections)
    ips connections.

(** The state of the loop of [_write_devices_into_testbed]: the testbed,
    [new_devices], and the function's local variable [ip], which keeps its
    last binding from one device to the next. *)
Record wd_state : Type := {
  wd_testbed : Testbed;
  wd_new_devices : Dict.t Device;
  wd_ip : option (option str)
}.

Section GraphBuilder.
Variable cfg : Config.
Variable env : Env.
Variable proxy_set : list str.

(** The branch [if new_dev not in testbed.devices]. *)
Definition create_device (st : wd_state) (new_dev : str) (rec : discovered)
  : result wd_state :=
  let testbed := wd_testbed st in
  let finder := dl_finder rec in
  finder_dev <- Dict.item (fst finder) (devices testbed) ;;
  let credentials := dev_credentials finder_dev in
  let connections := proxy_connections (dl_ip rec) proxy_set [] in
  let ip := after_loop (wd_ip st) (dl_ip rec) in
  ' (connections, testbed) <-
      match snd finder with
      | [] => Ok (connections, testbed)
      | _ :: _ =>
          ' (finder_proxy, testbed) <-
              write_proxy_chain (fst finder) testbed credentials
                                (snd finder) ;;
          ip_value <- of_option UnboundLocalError ip ;;
          Ok (Dict.set "finder_proxy"
                {| conn_protocol := Some "ssh"; conn_ip := Some ip_value;
                   conn_proxy := Some finder_proxy |} connections,
              testbed)
      end ;;
  let dev :=
    {| dev_name := new_dev; dev_os := dl_os rec; dev_type := "device";
       dev_credentials := credentials; dev_connections := connections;
       dev_interfaces := [] |} in
  dev <- foldM attach_interface (dl_ports rec) dev ;;
  Ok {| wd_testbed := testbed;
        wd_new_devices := Dict.set new_dev dev (wd_new_devices st);
        wd_ip := ip |}.

(** The branch for a device that is already in the testbed. *)
Definition reconcile_interfaces (testbed : Testbed) (new_dev : str)
    (rec : discovered) : result Testbed :=
  if negb (add_unconnected_interfaces cfg) then
    foldM (ensure_interface_on new_dev) (dl_ports rec) testbed
  else
    interface_list <-
      match show_interfaces_description env new_dev with
      | Ok l => Ok l
      | Raise _ => show_interface_description env new_dev
      end ;;
    foldM (ensure_interface_on new_dev) interface_list testbed.

Definition write_device (st : wd_state) (item : str * discovered)
  : result wd_state :=
  let new_dev := fst item in
  if negb (Dict.mem new_dev (devices (wd_testbed st))) then
    create_device st new_dev (snd item)
  else
    testbed <- reconcile_interfaces (wd_testbed st) new_dev (snd item) ;;
    Ok {| wd_testbed := testbed; wd_new_devices := wd_new_devices st;
          wd_ip := wd_ip st |}.

Definition _write_devices_into_testbed (device_list : device_list_t)
    (testbed : Testbed) : result (Dict.t Device * Testbed) :=
  st <- foldM write_device device_list
          {| wd_testbed := testbed; wd_new_devices := []; wd_ip := None |} ;;
  Ok (wd_new_devices st, wd_testbed st).
End GraphBuilder.

(* ================================================================== *)
(** * Graph builder: links *)

(** [testbed.devices[dev].interfaces[name]] *)
Definition lookup_interface (testbed : Testbed) (i : iface_id)
  : result Interface :=
  dev <- Dict.item (fst i) (devices testbed) ;;
  Dict.item (snd i) (dev_interfaces dev).

(** [link.interfaces] *)
Definition link_members (testbed : Testbed) (link : nat) : list iface_id :=
  match nth_error (links testbed) link with
  | Some l => link_interfaces l
  | None => []
  end.

Definition set_link (f : Interface) (link : nat) : Interface :=
  {| if_name := if_name f; if_type := if_type f; if_link := Some link;
     if_ipv4 := if_ipv4 f |}.

(** [interface.link = link] *)
Definition set_interface_link (i : iface_id) (link : nat)
    (ds : Dict.t Device) : Dict.t Device :=
  match Dict.get (fst i) ds with
  | Some dev =>
      match Dict.get (snd i) (dev_interfaces dev) with
      | Some f =>
          Dict.set (fst i)
            (with_interfaces dev
               (Dict.set (snd i) (set_link f link) (dev_interfaces dev))) ds
      | None => ds
      end
  | None => ds
  end.

(** [link.interfaces.append(i)] *)
Fixpoint add_member (link : nat) (i : iface_id) (ls : list Link) : list Link :=
  match ls, link with
  | [], _ => []
  | l :: ls', O =>
      {| link_name := link_name l;
         link_interfaces := link_interfaces l ++ [i] |} :: ls'
  | l :: ls', S n => l :: add_member n i ls'
  end.

(** [link.connect_interface(i)]: the interface joins the members and its
    back-reference is set. *)
Definition connect_interface (testbed : Testbed) (link : nat) (i : iface_id)
  : Testbed :=
  {| devices := set_interface_link i link (devices testbed);
     links := add_member link i (links testbed);
     chains := chains testbed |}.

(** [Link(name, interfaces = int_list)]: the new link connects each
    interface of the list in turn. *)
Definition new_link (testbed : Testbed) (name : str) (int_list : list iface_id)
  : Testbed :=
  let link := List.length (links testbed) in
  fold_left (fun tb i => connect_interface tb link i) int_list
    {| devices := devices testbed;
       links := links testbed ++ [{| link_name := name;
                                     link_interfaces := [] |}];
       chains := chains testbed |}.

(** [interface.link is link] *)
Definition refers_to (link : nat) (f : Interface) : bool :=
  match if_link f with
  | Some l => Nat.eqb l link
  | None => false
  end.

(** Some interface of some device of the testbed refers to the link. *)
Definition referred (testbed : Testbed) (link : nat) : bool :=
  existsb (fun dev => existsb (refers_to link)
                              (Dict.values (dev_interfaces dev)))
          (Dict.values (devices testbed)).

(** [testbed.links]: the links the interfaces of the devices refer to.  A
    link that no interface refers to any more is not among them. *)
Definition testbed_links (testbed : Testbed) : list nat :=
  filter (referred testbed) (seq 0 (List.length (links testbed))).

(** [link.name] *)
Definition link_name_of (testbed : Testbed) (link : nat) : str :=
  match nth_error (links testbed) link with
  | Some l => link_name l
  | None => ""
  end.

(** ['Link_{num}'.format(num = len(testbed.links))] *)
Definition link_name_for (testbed : Testbed) : str :=
  ("Link_" ++ NilEmpty.string_of_uint
               (Nat.to_uint (List.length (testbed_links testbed))))%string.

(** The testbed has a link of that name: [Link(name, ..)] then raises
    [DuplicateLinkError], the links of a testbed being told apart by
    their names. *)
Definition name_taken (testbed : Testbed) (name : str) : bool :=
  existsb (fun l => String.eqb (link_name_of testbed l) name)
          (testbed_links testbed).

Definition entry_interface (entry : conn_entry) : iface_id :=
  (dest_host entry, dest_port entry).

(** The loop that collects [int_list] for a new link. *)
Definition collect_interface (testbed : Testbed) (int_list : list iface_id)
    (entry : conn_entry) : result (list iface_id) :=
  let i := entry_interface entry in
  _ <- lookup_interface testbed i ;;
  Ok (if iface_mem i int_list then int_list else int_list ++ [i]).

(** The loop that extends the link an interface already has. *)
Definition extend_link (link : nat) (testbed : Testbed) (entry : conn_entry)
  : result Testbed :=
  let i := entry_interface entry in
  _ <- lookup_interface testbed i ;;
  Ok (if iface_mem i (link_members testbed link) then testbed
      else connect_interface testbed link i).

(** The body of the inner loop of [_write_connections_to_testbed], for one
    local interface of [device] and its entries.  (The source also builds
    [name_set], which it never reads.) *)
Definition commit_interface (device : str) (testbed : Testbed)
    (item : str * list conn_entry) : result Testbed :=
  let interface_name := fst item in
  interface <- lookup_interface testbed (device, interface_name) ;;
  match if_link interface with
  | None =>
      int_list <- foldM (collect_interface testbed) (snd item)
                        [(device, interface_name)] ;;
      let name := link_name_for testbed in
      if name_taken testbed name then Raise DuplicateLinkError
      else Ok (new_link testbed name int_list)
  | Some link => foldM (extend_link link) (snd item) testbed
  end.

Definition commit_device (testbed : Testbed)
    (item : str * connection_dict_t) : result Testbed :=
  foldM (commit_interface (fst item)) (snd item) testbed.

Definition _write_connections_to_testbed
    (connection_dict : Dict.t connection_dict_t) (testbed : Testbed)
  : result Testbed :=
  foldM commit_device connection_dict testbed.

(* ================================================================== *)
(** * Discovery loop *)

(** What the loop of [_generate] carries from round to round: the testbed,
    [dev_man.visited_devices] and [device_list]. *)
Record run_state : Type := {
  rs_testbed : Testbed;
  rs_visited : list str;
  rs_device_list : device_list_t
}.

(** The first loop of [process_neigbor_data]:
    [for device in testbed.devices:
       if device not in dev_man.visited_devices:
         dev_man.visited_devices.add(device); dev_to_test.append(..)].
    Returns the visited set and [dev_to_test]. *)
Definition mark_device (acc : list str * list str) (device : str)
  : list str * list str :=
  if set_mem_str device (fst acc) then acc
  else (set_add_str device (fst acc), snd acc ++ [device]).

Definition mark_unvisited (testbed : Testbed) (visited : list str)
  : list str * list str :=
  fold_left mark_device (Dict.keys (devices testbed)) (visited, []).

(** [for device in new_devices.values(): testbed.add_device(device)] *)
Definition add_devices (new_devices : Dict.t Device) (testbed : Testbed)
  : Testbed :=
  with_devices testbed
    (fold_left (fun ds d => Dict.set (dev_name d) d ds)
               (Dict.values new_devices) (devices testbed)).

Section Discovery.
Variable cfg : Config.
Variable env : Env.
Variable exclude_networks : list network.
Variable proxy_set : list str.

(** The second loop of [process_neigbor_data], over the results of
    [pcall(dev_man.get_neighbor_info, device = dev_to_test)]. *)
Definition process_device
    (acc : Dict.t connection_dict_t * device_list_t * Testbed)
    (device : str)
  : result (Dict.t connection_dict_t * device_list_t * Testbed) :=
  let '(conn_dict, device_list, testbed) := acc in
  ' (connections, device_list, testbed) <-
      get_device_connections cfg exclude_networks testbed device
        (get_neighbor_info env device) device_list ;;
  Ok (Dict.set device connections conn_dict, device_list, testbed).

(** [pcall(dev_man.get_neighbor_info, device = dev_to_test)].  [pcall] of
    [pyats.async_] is not part of the repository: it calls the function on
    each device, and with no device to call it on it raises [IndexError].
    The result is kept as the list of the devices called; the loop over it
    reads each device's data from [get_neighbor_info]. *)
Definition pcall (dev_to_test : list str) : result (list str) :=
  match dev_to_test with
  | [] => Raise IndexError
  | _ :: _ => Ok dev_to_test
  end.

Definition process_neigbor_data (st : run_state)
  : result (Dict.t connection_dict_t * run_state) :=
  let (visited, dev_to_test) :=
    mark_unvisited (rs_testbed st) (rs_visited st) in
  called <- pcall dev_to_test ;;
  ' (conn_dict, device_list, testbed) <-
      foldM process_device called
            ([], rs_device_list st, rs_testbed st) ;;
  Ok (conn_dict,
      {| rs_testbed := testbed; rs_visited := visited;
         rs_device_list := device_list |}).

(** The body of the [while] loop of [_generate]. *)
Definition discovery_round (st : run_state) : result run_state :=
  ' (conn_dict, st) <- process_neigbor_data st ;;
  ' (new_devices, testbed) <-
      _write_devices_into_testbed cfg env proxy_set (rs_device_list st)
                                  (rs_testbed st) ;;
  let testbed := add_devices new_devices testbed in
  testbed <- _write_connections_to_testbed conn_dict testbed ;;
  Ok {| rs_testbed := testbed; rs_visited := rs_visited st;
        rs_device_list := rs_device_list st |}.

(** [while len(testbed.devices) > len(dev_man.visited_devices)] *)
Definition unvisited_left (st : run_state) : bool :=
  (List.length (rs_visited st)
     <? List.length (Dict.keys (devices (rs_testbed st))))%nat.

Inductive outcome : Type :=
| Finished (st : run_state) (rounds : nat)
| Failed (e : exn) (rounds : nat)
| OutOfFuel.

(** The loop, with the number of rounds already run.  [fuel] bounds the
    number of rounds the model will run. *)
Fixpoint discovery_loop (fuel rounds : nat) (st : run_state) : outcome :=
  match fuel with
  | O => OutOfFuel
  | S fuel' =>
      if unvisited_left st then
        match discovery_round st with
        | Raise e => Failed e (S rounds)
        | Ok st' =>
            if only_links cfg then Finished st' (S rounds)
            else discovery_loop fuel' (S rounds) st'
        end
      else Finished st rounds
  end.

(** The state the loop starts from. *)
Definition initial_state (testbed : Testbed) : run_state :=
  {| rs_testbed := testbed; rs_visited := []; rs_device_list := [] |}.
End Discovery.

(* ================================================================== *)
(** * The output configuration *)

(** The configuration as [safe_load] gives it: a tree of mappings,
    sequences and scalars.  [YCmd] is a string scalar kept as a format and
    its arguments (see [command]). *)
#[local] Unset Elimination Schemes.
Inductive yaml : Type :=
| YNull
| YStr (s : str)
| YCmd (c : command)
| YSeq (l : list yaml)
| YMap (m : list (str * yaml)).
#[local] Set Elimination Schemes.

Definition as_map (y : yaml) : result (Dict.t yaml) :=
  match y with
  | YMap m => Ok m
  | _ => Raise TypeError
  end.

Definition yaml_of_ostr (o : option str) : yaml :=
  match o with Some s => YStr s | None => YNull end.

Definition yaml_of_command (c : command) : yaml :=
  match c with CmdText s => YStr s | _ => YCmd c end.

Definition yaml_of_step (s : proxy_step) : yaml :=
  YMap (("device", YStr (step_device s)) ::
        match step_command s with
        | Some c => [("command", yaml_of_command c)]
        | None => []
        end).

(** A [proxy] value as it is written: a list with the steps it holds
    when the configuration is written. *)
Definition yaml_of_proxy (testbed : Testbed) (p : option proxy) : yaml :=
  match p with
  | None => YNull
  | Some (ProxyName d) => YStr d
  | Some (ProxyList chain) =>
      YSeq (map yaml_of_step (chain_steps testbed chain))
  end.

(** [connection.get('ip')] *)
Definition get_ip (c : Connection) : option str :=
  match conn_ip c with
  | Some ip => ip
  | None => None
  end.

(** [{'protocol': protocol, 'ip': ip, 'proxy': proxy}] *)
Definition connection_entry (testbed : Testbed) (c : Connection) : yaml :=
  YMap [("protocol", yaml_of_ostr (conn_protocol c));
        ("ip", yaml_of_ostr (get_ip c));
        ("proxy", yaml_of_proxy testbed (conn_proxy c))].

(** The entry written for one interface: its type, its link when it has
    one, its address when it has one. *)
Definition interface_entry (testbed : Testbed) (f : Interface) : yaml :=
  YMap (("type", YStr (if_type f)) ::
        match if_link f with
        | Some l => [("link", YStr (link_name_of testbed l))]
        | None => []
        end ++
        match if_ipv4 f with
        | Some a => [("ipv4", YStr a)]
        | None => []
        end).

(** [interface_dict['interfaces']] for one device. *)
Definition interface_entries (testbed : Testbed) (device : Device)
  : Dict.t yaml :=
  fold_left (fun d f => Dict.set (if_name f) (interface_entry testbed f) d)
            (Dict.values (dev_interfaces device)) [].

(** The state of the first loop of [create_yaml_dict]: [yaml_dict] and the
    local variable [connect], which keeps its last binding.  The topology
    part maps a device to its [interface_dict['interfaces']]. *)
Record yd_state : Type := {
  yd_devices : Dict.t yaml;
  yd_topology : Dict.t (Dict.t yaml);
  yd_connect : option str
}.

(** [testbed_yaml['devices']], read as a mapping. *)
Definition input_devices (testbed_yaml : Dict.t yaml) : result (Dict.t yaml) :=
  ds <- Dict.item "devices" testbed_yaml ;;
  as_map ds.

(** [{'interfaces': ..}] *)
Definition interface_dict (entries : Dict.t yaml) : yaml :=
  YMap [("interfaces", YMap entries)].

Section Output.
Variable testbed : Testbed.
Variable credential_dict : yaml.

(** [yaml_dict['devices'][device.name]] for a device the input lacks;
    also returns the binding of [connect]. *)
Definition device_entry (device : Device) (connect : option str)
  : result (yaml * option str) :=
  let conn_dict :=
    fold_left (fun d kc => Dict.set (fst kc)
                                    (connection_entry testbed (snd kc)) d)
              (dev_connections device) [] in
  let connect := after_loop connect (Dict.keys (dev_connections device)) in
  via <- of_option UnboundLocalError connect ;;
  let conn_dict := Dict.set "defaults" (YMap [("via", YStr via)]) conn_dict in
  Ok (YMap [("type", YStr (dev_type device));
            ("os", yaml_of_ostr (dev_os device));
            ("credentials", credential_dict);
            ("connections", YMap conn_dict)],
      connect).

(** The body of the loop over [testbed.devices.values()]. *)
Definition describe_device (testbed_yaml : Dict.t yaml) (st : yd_state)
    (device : Device) : result yd_state :=
  known <- input_devices testbed_yaml ;;
  ' (ds, connect) <-
      (if negb (Dict.mem (dev_name device) known) then
         ' (entry, connect) <- device_entry device (yd_connect st) ;;
         Ok (Dict.set (dev_name device) entry (yd_devices st), connect)
       else Ok (yd_devices st, yd_connect st)) ;;
  Ok {| yd_devices := ds;
        yd_topology := Dict.set (dev_name device)
                         (interface_entries testbed device)
                         (yd_topology st);
        yd_connect := connect |}.

(** [for device in yaml_dict['devices']:
      if device not in testbed_yaml['devices']:
        testbed_yaml['devices'][device] = yaml_dict['devices'][device]] *)
Definition merge_device (testbed_yaml : Dict.t yaml) (item : str * yaml)
  : result (Dict.t yaml) :=
  known <- input_devices testbed_yaml ;;
  if Dict.mem (fst item) known then Ok testbed_yaml
  else Ok (Dict.set "devices" (YMap (Dict.set (fst item) (snd item) known))
                    testbed_yaml).

(** The body of the loop over [yaml_dict['topology']] when the input has
    a [topology] section:
    [if device not in testbed_yaml['topology']:
       testbed_yaml['topology'][device] = yaml_dict['topology'][device]
     else:
       testbed_yaml['topology'][device]['interfaces'].update(
           yaml_dict['topology'][device]['interfaces'])] *)
Definition merge_topology_device (topology : Dict.t yaml)
    (item : str * Dict.t yaml) : result (Dict.t yaml) :=
  let device := fst item in
  match Dict.get device topology with
  | None => Ok (Dict.set device (interface_dict (snd item)) topology)
  | Some existing =>
      existing <- as_map existing ;;
      old <- Dict.item "interfaces" existing ;;
      old <- as_map old ;;
      Ok (Dict.set device
            (YMap (Dict.set "interfaces" (YMap (Dict.update old (snd item)))
                            existing))
            topology)
  end.

(** The last part of [create_yaml_dict]: the topology section. *)
Definition merge_topology (new_topology : Dict.t (Dict.t yaml))
    (testbed_yaml : Dict.t yaml) : result (Dict.t yaml) :=
  match Dict.get "topology" testbed_yaml with
  | None | Some YNull =>
      Ok (Dict.set "topology"
            (YMap (map (fun kv => (fst kv, interface_dict (snd kv)))
                       new_topology))
            testbed_yaml)
  | Some topology =>
      topology <- as_map topology ;;
      topology <- foldM merge_topology_device new_topology topology ;;
      Ok (Dict.set "topology" (YMap topology) testbed_yaml)
  end.

(** Returns [testbed_yaml] as the function leaves it. *)
Definition create_yaml_dict (testbed_yaml : Dict.t yaml)
  : result (Dict.t yaml) :=
  yaml_dict <- foldM (describe_device testbed_yaml)
                 (Dict.values (devices testbed))
                 {| yd_devices := []; yd_topology := [];
                    yd_connect := None |} ;;
  testbed_yaml <- foldM merge_device (yd_devices yaml_dict) testbed_yaml ;;
  merge_topology (yd_topology yaml_dict) testbed_yaml.
End Output.


(* ================================================================== *)
(** * Vocabulary of the properties *)

(** [sub] occurs in [s]. *)
Definition Substring (sub s : str) : Prop :=
  exists pre post, s = (pre ++ sub ++ post)%string.

(** Every character of [s] is in the class [c]. *)
Fixpoint all_chars (c : ascii -> bool) (s : str) : bool :=
  match s with
  | EmptyString => true
  | String a s' => c a && all_chars c s'
  end.

(** [sub] occurs in one of the two inputs of the classifier. *)
Definition either_contains (sub system_string platform_name : str) : Prop :=
  Substring sub system_string \/ Substring sub platform_name.


(** [s.split()]: the maximal runs of characters that are not whitespace. *)
Fixpoint split_words (word s : str) : list str :=
  match s with
  | EmptyString => if String.eqb word "" then [] else [word]
  | String a s' =>
      if is_space a then
        if String.eqb word "" then split_words "" s'
        else word :: split_words "" s'
      else split_words (word ++ String a "")%string s'
  end.

Definition split (s : str) : list str := split_words "" s.

(** The address the specification names for the LLDP exclusion check: the
    4-family field first, the generic field as the fallback. *)
Definition v4_first_address (neighbor : lldp_neighbor) : option str :=
  match management_address_v4 neighbor with
  | Some a => Some a
  | None => management_address neighbor
  end.

(** What [process_lldp_port] leaves when it keeps an entry. *)
Definition lldp_kept (device_name interface dest_port dest_host : str)
    (ip_address : option str) (description : str) (st : merge_state)
  : merge_state :=
  (add_to_device_list (fst st) (normalize dest_host) dest_port []
     [ip_address] (get_os description "") device_name,
   add_to_connection_dict (snd st) (normalize dest_host) dest_port interface).

(** ** Sample data *)

Definition sample_device (name : str) (connections : Dict.t Connection)
    (ifs : list str) : Device :=
  {| dev_name := name; dev_os := Some "iosxe"; dev_type := "router";
     dev_credentials := [("default", [("username", "admin")])];
     dev_connections := connections;
     dev_interfaces :=
       map (fun i => (i, new_interface i "gi")) ifs |}.

Definition no_exclusions (only : bool) : Config :=
  {| only_links := only; exclude_interfaces := "";
     add_unconnected_interfaces := false |}.

Definition exclude_gi0_10 : Config :=
  {| only_links := false; exclude_interfaces := "Gi0/10";
     add_unconnected_interfaces := false |}.

(** 192.168.0.0/24 *)
Definition net_192_168_0 : network :=
  {| net_version := 4; network_address := 3232235520; netmask := 4294967040 |}.

Definition testbed_A : Testbed :=
  {| devices := [("A", sample_device "A" [] [])]; links := [];
     chains := [] |}.

(** An LLDP neighbour that announces both address fields. *)
Definition neighbor_both : lldp_neighbor :=
  {| management_address := Some "10.0.0.1";
     management_address_v4 := Some "192.168.0.1";
     system_description := Some "Cisco IOS Software" |}.

(** A CDP entry seen on [Gi0/1], towards [Gi0/2] of [edge1]. *)
Definition cdp_edge1 : cdp_entry :=
  {| system_name := Some "edge1.example.com"; device_id := None;
     port_id := "Gi0/2"; local_interface := "Gi0/1";
     management_addresses := Some ["10.0.0.5"];
     interface_addresses := Some ["10.0.0.5"];
     software_version := "Cisco IOS Software"; platform := "cisco C3750" |}.

(** The [ip] of the ['finder_proxy'] connection of a device in
    [new_devices]. *)
Definition finder_proxy_ip (st : wd_state) (new_dev : str)
  : option (option str) :=
  match Dict.get new_dev (wd_new_devices st) with
  | Some dev =>
      match Dict.get "finder_proxy" (dev_connections dev) with
      | Some c => conn_ip c
      | None => None
      end
  | None => None
  end.

(** Collaborators that report nothing. *)
Definition silent_env : Env :=
  {| get_neighbor_info := fun _ => {| cdp := None; lldp := None |};
     show_interfaces_description := fun _ => Raise KeyError;
     show_interface_description := fun _ => Raise KeyError |}.

(** Two records found by [A]: [X] with a management address, and [Y] with
    none but with an interface address noted by its finder. *)
Definition record_X : discovered :=
  {| dl_ports := ["Gi0/1"]; dl_ip := [Some "10.0.0.1"]; dl_os := Some "ios";
     dl_finder := ("A", []) |}.

Definition record_Y : discovered :=
  {| dl_ports := ["Gi0/2"]; dl_ip := []; dl_os := Some "ios";
     dl_finder := ("A", ["10.1.1.1"]) |}.

(** A record with two management addresses. *)
Definition record_Z : discovered :=
  {| dl_ports := ["Gi0/3"]; dl_ip := [Some "10.0.0.8"; Some "10.0.0.9"];
     dl_os := Some "ios"; dl_finder := ("A", ["10.1.1.2"]) |}.

(** ** Links and their members *)

(** [interface.link], for an interface the testbed has. *)
Definition link_of (testbed : Testbed) (i : iface_id) : option nat :=
  match lookup_interface testbed i with
  | Ok f => if_link f
  | Raise _ => None
  end.

Definition has_interface (testbed : Testbed) (i : iface_id) : Prop :=
  exists f, lookup_interface testbed i = Ok f.

(** The back-reference of an interface points to a link that lists it. *)
Definition backrefs_ok (testbed : Testbed) : Prop :=
  forall i l, link_of testbed i = Some l -> In i (link_members testbed l).

(** A member of a link refers back to that link. *)
Definition members_ok (testbed : Testbed) : Prop :=
  forall i l, In i (link_members testbed l) -> link_of testbed i = Some l.

Definition coherent (testbed : Testbed) : Prop :=
  backrefs_ok testbed /\ members_ok testbed.

(** No interface is a member of two links. *)
Definition one_link_each (testbed : Testbed) : Prop :=
  forall i l1 l2,
    In i (link_members testbed l1) -> In i (link_members testbed l2) ->
    l1 = l2.

(** The remote interfaces of the entries of one local interface are in no
    link or in the link of the local interface. *)
Definition entry_safe (testbed : Testbed) (device : str)
    (item : str * list conn_entry) : Prop :=
  forall e, In e (snd item) ->
    link_of testbed (entry_interface e) = None
    \/ link_of testbed (entry_interface e) = link_of testbed (device, fst item).

(** [entry_safe] holds for each local interface at the time it is
    committed. *)
Fixpoint safe_items (device : str) (items : connection_dict_t)
    (testbed : Testbed) : Prop :=
  match items with
  | [] => True
  | item :: rest =>
      entry_safe testbed device item
      /\ forall tb', commit_interface device testbed item = Ok tb' ->
                     safe_items device rest tb'
  end.

Fixpoint safe_commit (connection_dict : Dict.t connection_dict_t)
    (testbed : Testbed) : Prop :=
  match connection_dict with
  | [] => True
  | d :: rest =>
      safe_items (fst d) (snd d) testbed
      /\ forall tb', commit_device testbed d = Ok tb' -> safe_commit rest tb'
  end.

(** A local interface and the remote interfaces of its entries exist and
    share a link. *)
Definition share_link (device : str) (item : str * list conn_entry)
    (testbed : Testbed) : Prop :=
  has_interface testbed (device, fst item)
  /\ exists l,
       In (device, fst item) (link_members testbed l)
       /\ forall e, In e (snd item) ->
            has_interface testbed (entry_interface e)
            /\ In (entry_interface e) (link_members testbed l).

(** Every local interface of the record has a link, and every remote
    interface its entries name exists: the state a first application of
    the record leaves. *)
Definition applied (connection_dict : Dict.t connection_dict_t)
    (testbed : Testbed) : Prop :=
  forall d item, In d connection_dict -> In item (snd d) ->
    (exists l, link_of testbed (fst d, fst item) = Some l)
    /\ forall e, In e (snd item) -> has_interface testbed (entry_interface e).

(** No link lists an interface twice. *)
Definition members_distinct (testbed : Testbed) : Prop :=
  forall l, NoDup (link_members testbed l).

(** From one testbed to a later one: interfaces stay, members stay, and an
    interface that had a link has one. *)
Definition grows (tb tb' : Testbed) : Prop :=
  (forall i, has_interface tb i -> has_interface tb' i)
  /\ (forall l i, In i (link_members tb l) -> In i (link_members tb' l))
  /\ (forall i l, link_of tb i = Some l -> exists l', link_of tb' i = Some l').

(** A testbed without links: no interface refers to one. *)
Definition no_links (testbed : Testbed) : bool :=
  forallb
    (fun d =>
       forallb (fun f => match if_link (snd f) with
                         | None => true
                         | Some _ => false
                         end)
               (dev_interfaces (snd d)))
    (devices testbed)
  && (List.length (links testbed) =? 0)%nat.

Definition entry (host port : str) : conn_entry :=
  {| dest_host := host; dest_port := port |}.

(** Three devices, no links yet. *)
Definition testbed_ABC : Testbed :=
  {| devices := [("A", sample_device "A" [] ["Gi0/1"; "Gi0/2"]);
                 ("B", sample_device "B" [] ["Gi0/1"]);
                 ("C", sample_device "C" [] ["Gi0/1"])];
     links := []; chains := [] |}.

(** [A] sees [Gi0/1] of [B] from two of its interfaces. *)
Definition seen_twice : Dict.t connection_dict_t :=
  [("A", [("Gi0/1", [entry "B" "Gi0/1"]); ("Gi0/2", [entry "B" "Gi0/1"])])].

(** Partial views of a shared segment: [A] sees [B], and [C] sees [A]. *)
Definition partial_views : Dict.t connection_dict_t :=
  [("A", [("Gi0/1", [entry "B" "Gi0/1"])]);
   ("C", [("Gi0/1", [entry "A" "Gi0/1"])])].

(** The two ends of a cable report each other. *)
Definition both_ends : Dict.t connection_dict_t :=
  [("A", [("Gi0/1", [entry "B" "Gi0/1"])]);
   ("B", [("Gi0/1", [entry "A" "Gi0/1"])])].

(** ** The output configuration *)

(** The last element of [xs] whose key is [k]: the one whose value a
    sequence of assignments [d[key x] = ..] over [xs] leaves under [k]. *)
Definition latest {X} (key : X -> str) (k : str) (xs : list X) : option X :=
  find (fun x => String.eqb (key x) k) (rev xs).

(** The device of the graph with a given name, and its interface with a
    given name. *)
Definition graph_device (testbed : Testbed) (name : str) : option Device :=
  latest dev_name name (Dict.values (devices testbed)).

Definition graph_interface (dev : Device) (name : str) : option Interface :=
  latest if_name name (Dict.values (dev_interfaces dev)).

(** The value at a path of keys of a configuration. *)
Fixpoint at_path (path : list str) (y : yaml) : option yaml :=
  match path with
  | [] => Some y
  | k :: rest =>
      match y with
      | YMap m =>
          match Dict.get k m with
          | Some v => at_path rest v
          | None => None
          end
      | _ => None
      end
  end.

(** A testbed with device [A], whose interface [Gi0/1] is of type
    [ethernet], and the configuration it was loaded from, in which that
    interface also has an alias. *)
Definition testbed_eth : Testbed :=
  {| devices :=
       [("A",
         {| dev_name := "A"; dev_os := Some "iosxe"; dev_type := "router";
            dev_credentials := [("default", [("username", "admin")])];
            dev_connections := [];
            dev_interfaces := [("Gi0/1", new_interface "Gi0/1" "ethernet")] |})];
     links := []; chains := [] |}.

Definition yaml_eth : Dict.t yaml :=
  [("devices", YMap [("A", YMap [("os", YStr "iosxe");
                                 ("type", YStr "router")])]);
   ("topology",
    YMap [("A",
           YMap [("interfaces",
                  YMap [("Gi0/1", YMap [("type", YStr "ethernet");
                                        ("alias", YStr "uplink")])])])])].

(** ** The discovery loop *)

(** The device names a neighbour report mentions, normalised as the two
    protocol paths normalise them. *)
Definition cdp_names (entries : list cdp_entry) : list str :=
  flat_map (fun c => match cdp_raw_host c with
                     | Some raw => [normalize raw]
                     | None => []
                     end) entries.

Definition lldp_port_names (ports : Dict.t (Dict.t lldp_neighbor))
  : list str :=
  flat_map (fun port => match snd port with
                        | (dest_host, _) :: _ => [normalize dest_host]
                        | [] => []
                        end) ports.

Definition lldp_names (parsed : lldp_result) : list str :=
  flat_map (fun item => lldp_port_names (snd item)) (interfaces parsed).

Definition reported_names (data : neighbor_data) : list str :=
  match cdp data with Some entries => cdp_names entries | None => [] end
  ++ match lldp data with Some parsed => lldp_names parsed | None => [] end.

(** What holds of the state each time the loop tests its condition: the
    device names are distinct, and the visited set is a set of devices of
    the graph. *)
Definition loop_invariant (st : run_state) : Prop :=
  NoDup (Dict.keys (devices (rs_testbed st)))
  /\ NoDup (rs_visited st)
  /\ incl (rs_visited st) (Dict.keys (devices (rs_testbed st))).

Definition all_visited (st : run_state) : Prop :=
  forall d, In d (Dict.keys (devices (rs_testbed st))) -> In d (rs_visited st).

(** Each device of [new_devices] is filed under its own name. *)
Definition filed_by_name (nd : Dict.t Device) : Prop :=
  forall k d, In (k, d) nd -> dev_name d = k.

(** A report from [A] of its neighbour [edge1]; nothing from the others. *)
Definition env_edge1 : Env :=
  {| get_neighbor_info :=
       fun device =>
         if String.eqb device "A"
         then {| cdp := Some [cdp_edge1]; lldp := None |}
         else {| cdp := None; lldp := None |};
     show_interfaces_description := fun _ => Raise KeyError;
     show_interface_description := fun _ => Raise KeyError |}.

(** A testbed whose second device is named by its full host name and is
    reached through the proxy [jump]; its configuration; and an LLDP
    report of [A] whose neighbour announces that same name. *)
Definition via_jump : Dict.t Connection :=
  [("cli", {| conn_protocol := Some "ssh"; conn_ip := Some (Some "10.0.0.1");
              conn_proxy := Some (ProxyName "jump") |})].

Definition testbed_fqdn : Testbed :=
  {| devices := [("A", sample_device "A" via_jump []);
                 ("sw1.lab", sample_device "sw1.lab" via_jump [])];
     links := []; chains := [] |}.

Definition yaml_fqdn : Dict.t yaml :=
  [("devices", YMap [("A", YMap [("os", YStr "iosxe")]);
                     ("sw1.lab", YMap [("os", YStr "iosxe")])])].

Definition neighbor_sw1 : lldp_neighbor :=
  {| management_address := Some "10.0.0.2"; management_address_v4 := None;
     system_description := Some "Cisco IOS Software [XE]" |}.

Definition env_fqdn : Env :=
  {| get_neighbor_info :=
       fun device =>
         if String.eqb device "A"
         then {| cdp := None;
                 lldp := Some {| total_entries := 1;
                                 interfaces :=
                                   [("Gi0/1",
                                     [("Gi0/2",
                                       [("sw1.lab", neighbor_sw1)])])] |} |}
         else {| cdp := None; lldp := None |};
     show_interfaces_description := fun _ => Raise KeyError;
     show_interface_description := fun _ => Raise KeyError |}.

(* ================================================================== *)
(** * Further vocabulary *)

Definition conn_entry_dec : forall x y : conn_entry, {x = y} + {x <> y}.
Proof. decide equality; apply string_dec. Defined.

(** The loop of [_generate] over [self._alias.split()]:
    [spli = alias_mapping.split(':')];
    [if len(spli) != 2: raise Exception(..)];
    [self.alias_dict[spli[0]] = spli[1]].
    [None] stands for the exception. *)
Definition add_alias (alias_dict : Dict.t str) (alias_mapping : str)
  : option (Dict.t str) :=
  match split_on ":" alias_mapping with
  | [device; alias] => Some (Dict.set device alias alias_dict)
  | _ => None
  end.

Fixpoint add_aliases (alias_dict : Dict.t str) (mappings : list str)
  : option (Dict.t str) :=
  match mappings with
  | [] => Some alias_dict
  | m :: rest =>
      match add_alias alias_dict m with
      | Some d => add_aliases d rest
      | None => None
      end
  end.

Definition parse_aliases (alias : str) : option (Dict.t str) :=
  add_aliases [] (split alias).

(** The number of occurrences of a character. *)
Fixpoint count_char (c : ascii) (s : str) : nat :=
  match s with
  | EmptyString => 0
  | String a s' => (if Ascii.eqb a c then 1 else 0) + count_char c s'
  end.

(** 10.0.0.0/24 *)
Definition net_10_0_0 : network :=
  {| net_version := 4; network_address := 167772160; netmask := 4294967040 |}.

(** The operating systems the creator supports ([SUPPORTED_OS]). *)
Definition SUPPORTED_OS : list str := ["nxos"; "iosxr"; "iosxe"; "ios"].

(** [s[1:]] *)
Definition string_tail (s : str) : str :=
  match s with
  | EmptyString => EmptyString
  | String _ s' => s'
  end.

Definition not_digit (a : ascii) : bool := negb (is_digit a).

(** A character that [.] matches and that cannot start a host name. *)
Definition before_host (a : ascii) : bool := is_dot a && negb (is_host_char a).

(** The text does not start with a host character. *)
Definition ends_run (post : str) : Prop :=
  match post with
  | EmptyString => True
  | String b _ => is_host_char b = false
  end.

(** A port of a new device has its interface: of the type of its name,
    with no link and no address. *)
Definition port_attached (dev : Device) (p : str) : Prop :=
  exists t, interface_type p = Ok t
            /\ Dict.get p (dev_interfaces dev) = Some (new_interface p t).

Definition all_ssh (connections : Dict.t Connection) : Prop :=
  forall k c, In (k, c) connections -> conn_protocol c = Some "ssh".

(** The step a chain ends with: through the finder, as [user], to the
    addresses [ip] (which the source formats as they are, a list). *)
Definition finder_step (finder_name user : str) (ip : list str) : proxy_step :=
  {| step_device := finder_name;
     step_command := Some (CmdSshUser user (FSet ip)) |}.

(** [credentials['default']['username']] *)
Definition default_user (credentials : Credentials) : option str :=
  match Dict.get "default" credentials with
  | Some default => Dict.get "username" default
  | None => None
  end.

Definition testbed_chain : Testbed :=
  {| devices :=
       [("A", {| dev_name := "A"; dev_os := Some "nxos"; dev_type := "device";
                 dev_credentials := [("default", [("username", "admin")])];
                 dev_connections :=
                   [("cli", {| conn_protocol := Some "ssh";
                               conn_ip := Some (Some "10.0.0.1");
                               conn_proxy := Some (ProxyList 0) |})];
                 dev_interfaces := [] |})];
     links := [];
     chains := [[{| step_device := "jump"; step_command := None |}]] |}.

(** An interface as it was, its link apart; a link once set stays set. *)
Definition same_but_link (f f' : Interface) : Prop :=
  if_name f' = if_name f /\ if_type f' = if_type f /\ if_ipv4 f' = if_ipv4 f
  /\ (if_link f <> None -> if_link f' <> None).

(** The two testbeds have the same interfaces, up to their links. *)
Definition interfaces_kept (tb tb' : Testbed) : Prop :=
  forall i,
    match lookup_interface tb i, lookup_interface tb' i with
    | Ok f, Ok f' => same_but_link f f'
    | Raise _, Raise _ => True
    | _, _ => False
    end.

(** Every link of [tb] is a link of [tb'], at its place and under its name,
    with its members first and in their order. *)
Definition links_extended (tb tb' : Testbed) : Prop :=
  forall n L, nth_error (links tb) n = Some L ->
    exists L', nth_error (links tb') n = Some L'
      /\ link_name L' = link_name L
      /\ exists more, link_interfaces L' = link_interfaces L ++ more.

(** Every interface that [connection_dict] names is in the testbed. *)
Definition all_present (connection_dict : Dict.t connection_dict_t)
    (testbed : Testbed) : Prop :=
  forall d item, In d connection_dict -> In item (snd d) ->
    has_interface testbed (fst d, fst item)
    /\ forall e, In e (snd item) -> has_interface testbed (entry_interface e).

(** The entry of a name in a section of the input configuration, if the
    input has the section, as a mapping, and the name in it. *)
Definition input_entry (section : str) (testbed_yaml : Dict.t yaml)
    (name : str) : option yaml :=
  match Dict.get section testbed_yaml with
  | Some (YMap m) => Dict.get name m
  | _ => None
  end.

(** The input configuration lists the device. *)
Definition input_knows (testbed_yaml : Dict.t yaml) (device : Device) : bool :=
  match input_devices testbed_yaml with
  | Ok known => Dict.mem (dev_name device) known
  | Raise _ => false
  end.

Definition yaml_no_devices : Dict.t yaml := [("devices", YMap [])].

(** A record of [device_list] that was extended: the same finder, no port
    and no address lost, the OS kept once it is known. *)
Definition record_extended (r r' : discovered) : Prop :=
  dl_finder r' = dl_finder r
  /\ incl (dl_ports r) (dl_ports r')
  /\ incl (dl_ip r) (dl_ip r')
  /\ (forall o, dl_os r = Some o -> dl_os r' = Some o).

Definition device_list_grows (dl dl' : device_list_t) : Prop :=
  forall h r, Dict.get h dl = Some r ->
    exists r', Dict.get h dl' = Some r' /\ record_extended r r'.
(* ================================================================== *)
(** * Properties: strings and patterns *)

Lemma prefix_iff (sub s : str) :
  String.prefix sub s = true <-> exists post, s = (sub ++ post)%string.
Proof.
  revert s; induction sub as [|a sub IH]; intros s.
  - split; [intros _; now exists s | now destruct s].
  - destruct s as [|b s]; simpl.
    + split; [discriminate | intros [post H]; discriminate].
    + destruct (Ascii.ascii_dec a b) as [->|Hab].
      * rewrite IH. split; intros [post H]; exists post.
        -- now rewrite H.
        -- now injection H.
      * split; [discriminate|].
        intros [post H]. injection H as H1 _. now elim Hab.
Qed.

Lemma contains_iff (sub s : str) : contains sub s = true <-> Substring sub s.
Proof.
  induction s as [|b s IH]; cbn [contains].
  - rewrite orb_false_r, prefix_iff. split.
    + intros [post H]. now exists "", post.
    + intros [pre [post H]]. destruct pre; [now exists post | discriminate].
  - rewrite orb_true_iff, prefix_iff, IH. split.
    + intros [[post H]|[pre [post H]]].
      * now exists "", post.
      * exists (String b pre), post. simpl. now rewrite H.
    + intros [pre [post H]]. destruct pre as [|c pre]; simpl in H.
      * left. now exists post.
      * right. injection H as _ H. now exists pre, post.
Qed.

Lemma contains_false_iff (sub s : str) :
  contains sub s = false <-> ~ Substring sub s.
Proof.
  rewrite <- contains_iff. destruct (contains sub s); intuition congruence.
Qed.

Section RegexFacts.
Variable R : Type.
Variable c : ascii -> bool.

(** A result of a construct is a result of its continuation. *)
Lemma lazy_star_result (s : str) (k : str -> str -> option R) (r : R) :
  lazy_star c s k = Some r -> exists m rest, k m rest = Some r.
Proof.
  revert k; induction s as [|a s IH]; intros k; simpl.
  - destruct (k "" "") eqn:E; [|discriminate].
    intros [= <-]. eauto.
  - destruct (k "" (String a s)) eqn:E.
    + intros [= <-]. eauto.
    + destruct (c a); [|discriminate].
      intros H. apply IH in H as (m & rest & H). eauto.
Qed.

Lemma greedy_star_result (s : str) (k : str -> str -> option R) (r : R) :
  greedy_star c s k = Some r ->
  exists m rest, all_chars c m = true /\ k m rest = Some r.
Proof.
  revert k; induction s as [|a s IH]; intros k; simpl.
  - intros H. now exists "", "".
  - destruct (c a) eqn:Ca.
    + destruct (greedy_star c s _) eqn:E.
      * intros [= <-]. apply IH in E as (m & rest & Hm & E).
        exists (String a m), rest. simpl. now rewrite Ca, Hm.
      * intros H. now exists "", (String a s).
    + intros H. now exists "", (String a s).
Qed.

Lemma greedy_plus_result (s : str) (k : str -> str -> option R) (r : R) :
  greedy_plus c s k = Some r ->
  exists m rest, m <> "" /\ all_chars c m = true /\ k m rest = Some r.
Proof.
  destruct s as [|a s]; simpl; [discriminate|].
  destruct (c a) eqn:Ca; [|discriminate].
  intros H. apply greedy_star_result in H as (m & rest & Hm & H).
  exists (String a m), rest. simpl. rewrite Ca, Hm. now split.
Qed.

Lemma optional_result (s : str) (k : str -> str -> option R) (r : R) :
  optional c s k = Some r -> exists m rest, k m rest = Some r.
Proof.
  destruct s as [|a s]; simpl; [eauto|].
  destruct (c a); [|eauto].
  destruct (k (String a "") s) eqn:E; [intros [= <-]|]; eauto.
Qed.

(** On a text made of characters of the class, the greedy star takes the
    whole text when the continuation accepts that. *)
Lemma greedy_star_all (s : str) (k : str -> str -> option R) (r : R) :
  all_chars c s = true -> k s "" = Some r -> greedy_star c s k = Some r.
Proof.
  revert k; induction s as [|a s IH]; intros k; simpl; [auto|].
  intros [Ca Hs]%andb_prop Hk. rewrite Ca.
  now rewrite (IH (fun m rest => k (String a m) rest) Hs Hk).
Qed.
End RegexFacts.

(** What the pattern captures is a non-empty run of host characters. *)
Lemma domain_filter_hostname (s hostname : str) :
  domain_filter s = Some hostname ->
  hostname <> "" /\ all_chars is_host_char hostname = true.
Proof.
  unfold domain_filter. intros H.
  apply lazy_star_result in H as (_ & s1 & H).
  apply greedy_plus_result in H as (m & s2 & Hne & Hall & H).
  apply optional_result in H as (_ & _ & [= <-]). now split.
Qed.

(** A non-empty run of host characters is captured whole. *)
Lemma domain_filter_fixed (hostname : str) :
  hostname <> "" -> all_chars is_host_char hostname = true ->
  domain_filter hostname = Some hostname.
Proof.
  destruct hostname as [|a h]; [congruence|]. intros _ Hall.
  unfold domain_filter. simpl in Hall. apply andb_prop in Hall as [Ca Hh].
  cbn [lazy_star greedy_plus]. rewrite Ca.
  now rewrite (@greedy_star_all _ is_host_char h _ (String a h) Hh eq_refl).
Qed.

(** C7.  The name normaliser is idempotent: normalising a normalised name
    gives the same name, whether or not the pattern matched the input. *)
Theorem normalize_idempotent (x : str) : normalize (normalize x) = normalize x.
Proof.
  unfold normalize at 2 3.
  destruct (domain_filter x) as [hostname|] eqn:E.
  - apply domain_filter_hostname in E as [Hne Hall].
    unfold normalize. now rewrite (domain_filter_fixed Hne Hall).
  - unfold normalize. now rewrite E.
Qed.

(* ================================================================== *)
(** * Properties: OS classifier *)

Lemma either_contains_iff (sub a b : str) :
  contains sub a || contains sub b = true <-> either_contains sub a b.
Proof.
  unfold either_contains. now rewrite orb_true_iff, !contains_iff.
Qed.

Lemma either_contains_false (sub a b : str) :
  contains sub a || contains sub b = false <-> ~ either_contains sub a b.
Proof.
  rewrite <- either_contains_iff.
  destruct (contains sub a || contains sub b); intuition congruence.
Qed.

(** C6.  With "IOS" in either input the classifier answers iosxe when
    "XE" is in either input (whatever else is there), else iosxr when "XR"
    is, else ios; without "IOS" it answers nxos exactly when "NX-OS" is in
    either input, and nothing otherwise. *)
Theorem get_os_classification (system_string platform_name : str) :
  (either_contains "IOS" system_string platform_name ->
     (either_contains "XE" system_string platform_name ->
        get_os system_string platform_name = Some "iosxe")
     /\ (~ either_contains "XE" system_string platform_name ->
         either_contains "XR" system_string platform_name ->
        get_os system_string platform_name = Some "iosxr")
     /\ (~ either_contains "XE" system_string platform_name ->
         ~ either_contains "XR" system_string platform_name ->
        get_os system_string platform_name = Some "ios"))
  /\ (~ either_contains "IOS" system_string platform_name ->
        (get_os system_string platform_name = Some "nxos"
           <-> either_contains "NX-OS" system_string platform_name)
        /\ (~ either_contains "NX-OS" system_string platform_name ->
              get_os system_string platform_name = None)).
Proof.
  unfold get_os. split.
  - intros Hios%either_contains_iff. rewrite Hios. repeat split.
    + intros Hxe%either_contains_iff. now rewrite Hxe.
    + intros Hxe%either_contains_false Hxr%either_contains_iff.
      now rewrite Hxe, Hxr.
    + intros Hxe%either_contains_false Hxr%either_contains_false.
      now rewrite Hxe, Hxr.
  - intros Hios%either_contains_false. rewrite Hios. split.
    + rewrite <- either_contains_iff.
      destruct (contains "NX-OS" system_string
                || contains "NX-OS" platform_name);
        split; congruence.
    + intros Hnx%either_contains_false. now rewrite Hnx.
Qed.

Lemma get_os_classification_witness :
  get_os "Cisco IOS XR Software" "cisco ASR1001-XE" = Some "iosxe"
  /\ get_os "Cisco IOS Software" "cisco ASR9K-XR" = Some "iosxr"
  /\ get_os "Cisco IOS Software, C3750" "cisco WS-C3750" = Some "ios"
  /\ get_os "Cisco Nexus" "NX-OS n9000" = Some "nxos"
  /\ get_os "Arista EOS" "DCS-7050" = None.
Proof.
  split; [|split; [|split; [|split]]].
  - apply (proj1 (get_os_classification _ _)).
    + left. now exists "Cisco ", " XR Software".
    + right. now exists "cisco ASR1001-", "".
  - apply (proj1 (get_os_classification _ _)).
    + left. now exists "Cisco ", " Software".
    + apply either_contains_false. reflexivity.
    + right. now exists "cisco ASR9K-", "".
  - apply (proj1 (get_os_classification _ _)).
    + left. now exists "Cisco ", " Software, C3750".
    + apply either_contains_false. reflexivity.
    + apply either_contains_false. reflexivity.
  - apply (proj2 (get_os_classification _ _)).
    + apply either_contains_false. reflexivity.
    + right. now exists "", " n9000".
  - apply (proj2 (get_os_classification _ _)).
    + apply either_contains_false. reflexivity.
    + apply either_contains_false. reflexivity.
Defined.

(* ================================================================== *)
(** * Properties: the neighbour record merger *)

(** C4 as the specification states it fails: a neighbour that announces
    both fields is checked against its generic address, so an excluded
    4-family address does not make the entry skipped. *)
Lemma lldp_v4_first_counterexample :
  lldp_ip_address neighbor_both <> v4_first_address neighbor_both
  /\ address_excluded "192.168.0.1" [net_192_168_0] = Ok true
  /\ process_lldp_port (no_exclusions false) [net_192_168_0] testbed_A "A"
       "Gi0/1" ([], []) ("Gi0/2", [("B", neighbor_both)])
     = Ok (lldp_kept "A" "Gi0/1" "Gi0/2" "B" (Some "10.0.0.1")
             "Cisco IOS Software" ([], [])).
Proof. repeat split. discriminate. Qed.

(** C4, amended.  For an LLDP entry that passes the links-only and the
    interface checks, the address tested against the excluded networks is
    the generic management address when the neighbour has one, and the
    4-family one only when it has not: the entry is skipped when that
    address lies in an excluded network and kept, with that address, when
    it lies in none; with neither field the entry is never skipped for its
    address. *)
Theorem lldp_exclusion_address (cfg : Config) (nets : list network)
    (tb : Testbed) (device_name interface dest_port dest_host : str)
    (neighbor : lldp_neighbor) (others : Dict.t lldp_neighbor)
    (description : str) (st : merge_state) :
  only_links cfg && negb (Dict.mem dest_host (devices tb)) = false ->
  contains interface (exclude_interfaces cfg) = false ->
  contains dest_port (exclude_interfaces cfg) = false ->
  system_description neighbor = Some description ->
  let run := process_lldp_port cfg nets tb device_name interface st
               (dest_port, (dest_host, neighbor) :: others) in
  let kept ip := Ok (lldp_kept device_name interface dest_port dest_host ip
                       description st) in
  (forall a, management_address neighbor = Some a ->
     (address_excluded a nets = Ok true -> run = Ok st)
     /\ (address_excluded a nets = Ok false -> run = kept (Some a)))
  /\ (management_address neighbor = None ->
      forall a, management_address_v4 neighbor = Some a ->
     (address_excluded a nets = Ok true -> run = Ok st)
     /\ (address_excluded a nets = Ok false -> run = kept (Some a)))
  /\ (management_address neighbor = None ->
      management_address_v4 neighbor = None -> run = kept None).
Proof.
  intros Hlinks Hif Hport Hdesc run kept.
  assert (Hrun : run = (stop <- lldp_excluded nets (lldp_ip_address neighbor) ;;
                        if stop then Ok st
                        else kept (lldp_ip_address neighbor))).
  { unfold run, kept, process_lldp_port, lldp_kept. cbn [fst snd].
    rewrite Hlinks, Hif, Hport.
    destruct (lldp_excluded nets (lldp_ip_address neighbor)) as [[|]|e];
      cbn [bind]; try reflexivity.
    now rewrite Hdesc. }
  assert (Hex : forall a, lldp_excluded nets (Some a) = address_excluded a nets).
  { intros a. unfold lldp_excluded. now destruct nets. }
  repeat split.
  - intros E. rewrite Hrun. unfold lldp_ip_address. rewrite H, Hex, E.
    reflexivity.
  - intros E. rewrite Hrun. unfold lldp_ip_address. rewrite H, Hex, E.
    reflexivity.
  - intros E. rewrite Hrun. unfold lldp_ip_address. rewrite H, H0, Hex, E.
    reflexivity.
  - intros E. rewrite Hrun. unfold lldp_ip_address. rewrite H, H0, Hex, E.
    reflexivity.
  - intros Hg Hv. rewrite Hrun. unfold lldp_ip_address. rewrite Hg, Hv.
    reflexivity.
Qed.

Lemma lldp_exclusion_address_witness :
  process_lldp_port (no_exclusions false) [net_192_168_0] testbed_A "A"
    "Gi0/1" ([], []) ("Gi0/2", [("B", neighbor_both)])
  = Ok (lldp_kept "A" "Gi0/1" "Gi0/2" "B" (Some "10.0.0.1")
          "Cisco IOS Software" ([], [])).
Proof.
  apply (proj1 (@lldp_exclusion_address (no_exclusions false) [net_192_168_0]
                  testbed_A "A" "Gi0/1" "Gi0/2" "B" neighbor_both []
                  "Cisco IOS Software" ([], [])
                  eq_refl eq_refl eq_refl eq_refl) "10.0.0.1" eq_refl).
  reflexivity.
Defined.

(** The interface check of the CDP path is a substring test on the text
    of the option. *)
Lemma cdp_interface_skip (cfg : Config) (nets : list network) (tb : Testbed)
    (device_name : str) (st : merge_state) (connection : cdp_entry) :
  Substring (local_interface connection) (exclude_interfaces cfg)
  \/ Substring (port_id connection) (exclude_interfaces cfg) ->
  is_ok (of_option TypeError (cdp_raw_host connection)) = true ->
  process_cdp_entry cfg nets tb device_name st connection = Ok st.
Proof.
  intros H Hraw. unfold process_cdp_entry.
  destruct (cdp_raw_host connection) as [raw|]; [|discriminate]. cbn [of_option bind].
  destruct (only_links cfg && _); [reflexivity|].
  destruct H as [H|H]; apply contains_iff in H; rewrite H; [reflexivity|].
  now destruct (contains (local_interface connection) _).
Qed.

(** C5 on the code.  With only [Gi0/10] excluded, the entry seen on
    [Gi0/1] is not one of the configured names, yet it is skipped: the
    option text is searched for the name.  Without the option the same
    entry is kept. *)
Theorem cdp_exclusion_matches_substring :
  split (exclude_interfaces exclude_gi0_10) = ["Gi0/10"]
  /\ set_mem_str (local_interface cdp_edge1)
       (split (exclude_interfaces exclude_gi0_10)) = false
  /\ set_mem_str (port_id cdp_edge1)
       (split (exclude_interfaces exclude_gi0_10)) = false
  /\ process_cdp_entry exclude_gi0_10 [] testbed_A "A" ([], []) cdp_edge1
     = Ok ([], [])
  /\ process_cdp_entry (no_exclusions false) [] testbed_A "A" ([], []) cdp_edge1
     = Ok ([("edge1",
             {| dl_ports := ["Gi0/2"]; dl_ip := [Some "10.0.0.5"];
                dl_os := Some "ios"; dl_finder := ("A", []) |})],
           [("Gi0/1", [{| dest_host := "edge1"; dest_port := "Gi0/2" |}])]).
Proof. repeat split. Qed.

(* ================================================================== *)
(** * Properties: new devices *)

Lemma after_loop_last {A} (before : option A) (xs : list A) (d : A) :
  xs <> [] -> after_loop before xs = Some (last xs d).
Proof.
  revert before; induction xs as [|x xs IH]; intros before Hne; [congruence|].
  destruct xs as [|y xs]; [reflexivity|].
  cbn [after_loop] in *. rewrite (IH (Some x)) by discriminate. reflexivity.
Qed.

Lemma get_set_same {V} (k : str) (v : V) (d : Dict.t V) :
  Dict.get k (Dict.set k v d) = Some v.
Proof.
  induction d as [|[k' v'] d IH]; simpl.
  - now rewrite String.eqb_refl.
  - destruct (String.eqb k k') eqn:E; simpl; rewrite E; [reflexivity|exact IH].
Qed.

Lemma get_set_other {V} (k k' : str) (v : V) (d : Dict.t V) :
  k <> k' -> Dict.get k (Dict.set k' v d) = Dict.get k d.
Proof.
  intros Hne. induction d as [|[k2 v2] d IH]; simpl.
  - apply String.eqb_neq in Hne. now rewrite Hne.
  - destruct (String.eqb k' k2) eqn:E; simpl.
    + apply String.eqb_eq in E. subst k2.
      apply String.eqb_neq in Hne. now rewrite Hne.
    + now rewrite IH.
Qed.

(** Attaching interfaces leaves the connections of a device alone. *)
Lemma attach_interfaces_connections (ports : list str) (dev dev' : Device) :
  foldM attach_interface ports dev = Ok dev' ->
  dev_connections dev' = dev_connections dev.
Proof.
  revert dev; induction ports as [|p ports IH]; intros dev; simpl.
  - now intros [= <-].
  - unfold attach_interface at 1.
    destruct (interface_type p) as [t|e]; [|discriminate]. cbn [bind].
    intros H. now rewrite (IH _ H).
Qed.

(** C10 on the code.  The record [Y] has no management address and its
    finder noted an interface address.  Alone in [device_list], it makes
    the pass fail with [UnboundLocalError]: [ip], the variable of the loop
    over its addresses, is not bound.  After the record [X] in the same
    pass, the pass goes through and commits [Y]: its finder-proxy
    connection gets the address [10.0.0.1] that the loop over the
    addresses of [X] left in [ip], an address of [X]. *)
Theorem stale_ip_commits_device :
  dl_ip record_Y = [] /\ snd (dl_finder record_Y) <> []
  /\ _write_devices_into_testbed (no_exclusions false) silent_env []
       [("Y", record_Y)] testbed_A = Raise UnboundLocalError
  /\ dl_ip record_X = [Some "10.0.0.1"]
  /\ exists new_devices tb dev c,
       _write_devices_into_testbed (no_exclusions false) silent_env []
         [("X", record_X); ("Y", record_Y)] testbed_A = Ok (new_devices, tb)
       /\ Dict.get "Y" new_devices = Some dev
       /\ Dict.get "finder_proxy" (dev_connections dev) = Some c
       /\ conn_ip c = Some (Some "10.0.0.1").
Proof.
  split; [reflexivity|]. split; [discriminate|]. split; [reflexivity|].
  split; [reflexivity|].
  do 4 eexists. repeat split.
Qed.

(** The address of the finder-proxy connection of a new device whose
    finder noted interface addresses.  With an empty set of management
    addresses, creating the device raises an error when [ip] has not been
    bound before in the same pass, as for the first record of a pass, and
    otherwise gives the connection the address [ip] was left with; with a
    non-empty set, the address is the last one of the set's iteration. *)
Lemma create_device_finder_ip (cfg : Config) (env : Env)
    (proxy_set : list str) (st : wd_state) (new_dev : str)
    (rec : discovered) :
  snd (dl_finder rec) <> [] ->
  (dl_ip rec = [] -> wd_ip st = None ->
     exists e, create_device proxy_set st new_dev rec = Raise e)
  /\ (dl_ip rec = [] ->
      forall rest tb, Dict.mem new_dev (devices tb) = false ->
      exists e, _write_devices_into_testbed cfg env proxy_set
                  ((new_dev, rec) :: rest) tb = Raise e)
  /\ (dl_ip rec = [] ->
      forall v st', wd_ip st = Some v ->
      create_device proxy_set st new_dev rec = Ok st' ->
      finder_proxy_ip st' new_dev = Some v)
  /\ (dl_ip rec <> [] ->
      forall st', create_device proxy_set st new_dev rec = Ok st' ->
      finder_proxy_ip st' new_dev = Some (last (dl_ip rec) None)).
Proof.
  intros Hfinder.
  assert (Hraise : forall s, dl_ip rec = [] -> wd_ip s = None ->
            exists e, create_device proxy_set s new_dev rec = Raise e).
  { intros s Hip Hunbound. unfold create_device.
    destruct (Dict.item _ _) as [finder_dev|e]; cbn [bind]; [|eauto].
    destruct (snd (dl_finder rec)) as [|a addrs]; [congruence|].
    destruct (write_proxy_chain _ _ _ _) as [[finder_proxy tb]|e];
      cbn [bind]; [|eauto].
    rewrite Hip, Hunbound. cbn. eauto. }
  assert (Hok : forall st', create_device proxy_set st new_dev rec = Ok st' ->
            finder_proxy_ip st' new_dev = after_loop (wd_ip st) (dl_ip rec)).
  { intros st'. unfold create_device.
    destruct (Dict.item _ _) as [finder_dev|e]; cbn [bind]; [|discriminate].
    destruct (snd (dl_finder rec)) as [|a addrs]; [congruence|].
    destruct (write_proxy_chain _ _ _ _) as [[finder_proxy tb]|e];
      cbn [bind]; [|discriminate].
    destruct (after_loop (wd_ip st) (dl_ip rec)) as [ip|];
      cbn [of_option bind]; [|discriminate].
    destruct (foldM attach_interface _ _) as [dev|e] eqn:E;
      cbn [bind]; [|discriminate].
    intros [= <-]. unfold finder_proxy_ip. cbn [wd_new_devices].
    rewrite get_set_same.
    rewrite (attach_interfaces_connections _ _ E). cbn [dev_connections].
    now rewrite get_set_same. }
  split; [|split; [|split]].
  - apply Hraise.
  - intros Hip rest tb Hnew. unfold _write_devices_into_testbed.
    cbn [foldM]. unfold write_device at 1. cbn [fst snd wd_testbed].
    rewrite Hnew. cbn [negb].
    destruct (Hraise {| wd_testbed := tb; wd_new_devices := [];
                        wd_ip := None |} Hip eq_refl) as [e He].
    rewrite He. cbn. eauto.
  - intros Hip v st' Hv H. rewrite (Hok _ H), Hip. exact Hv.
  - intros Hip st' H. rewrite (Hok _ H). now apply after_loop_last.
Qed.

Lemma create_device_finder_ip_witness :
  (exists e, create_device [] {| wd_testbed := testbed_A;
                                 wd_new_devices := []; wd_ip := None |}
               "Y" record_Y = Raise e)
  /\ (exists e, _write_devices_into_testbed (no_exclusions false) silent_env []
                  [("Y", record_Y)] testbed_A = Raise e)
  /\ (exists st',
        create_device [] {| wd_testbed := testbed_A; wd_new_devices := [];
                            wd_ip := Some (Some "10.0.0.1") |} "Y" record_Y
        = Ok st'
        /\ finder_proxy_ip st' "Y" = Some (Some "10.0.0.1"))
  /\ (exists st',
        create_device [] {| wd_testbed := testbed_A; wd_new_devices := [];
                            wd_ip := None |} "Z" record_Z
        = Ok st'
        /\ finder_proxy_ip st' "Z" = Some (Some "10.0.0.9")).
Proof.
  assert (HY : snd (dl_finder record_Y) <> []) by discriminate.
  assert (HZ : snd (dl_finder record_Z) <> []) by discriminate.
  pose proof (@create_device_finder_ip (no_exclusions false) silent_env []
                {| wd_testbed := testbed_A; wd_new_devices := [];
                   wd_ip := None |} "Y" record_Y HY)
    as (Hraise & Hpass & _ & _).
  pose proof (@create_device_finder_ip (no_exclusions false) silent_env []
                {| wd_testbed := testbed_A; wd_new_devices := [];
                   wd_ip := Some (Some "10.0.0.1") |} "Y" record_Y HY)
    as (_ & _ & Hstale & _).
  pose proof (@create_device_finder_ip (no_exclusions false) silent_env []
                {| wd_testbed := testbed_A; wd_new_devices := [];
                   wd_ip := None |} "Z" record_Z HZ)
    as (_ & _ & _ & Hlast).
  split; [exact (Hraise eq_refl eq_refl)|].
  split; [exact (Hpass eq_refl [] testbed_A eq_refl)|].
  split.
  - eexists. split; [reflexivity|].
    exact (Hstale eq_refl (Some "10.0.0.1") _ eq_refl eq_refl).
  - eexists. split; [reflexivity|].
    apply Hlast; [discriminate|reflexivity].
Defined.

(* ================================================================== *)
(** * Properties: links *)

Lemma iface_mem_iff (i : iface_id) (l : list iface_id) :
  iface_mem i l = true <-> In i l.
Proof.
  unfold iface_mem. destruct (in_dec iface_id_dec i l); intuition congruence.
Qed.

Lemma iface_mem_false (i : iface_id) (l : list iface_id) :
  iface_mem i l = false <-> ~ In i l.
Proof.
  unfold iface_mem. destruct (in_dec iface_id_dec i l); intuition congruence.
Qed.

(** ** Reading an interface after a back-reference was set *)

Lemma lookup_set_same (i : iface_id) (l : nat) (ds : Dict.t Device)
    (ls ls' : list Link) (cs cs' : list (list proxy_step)) :
  lookup_interface {| devices := set_interface_link i l ds; links := ls;
                      chains := cs |} i
  = (f <- lookup_interface {| devices := ds; links := ls'; chains := cs' |} i ;;
     Ok (set_link f l)).
Proof.
  unfold lookup_interface, set_interface_link, Dict.item. cbn [devices].
  destruct (Dict.get (fst i) ds) as [dev|] eqn:Ed; cbn.
  - destruct (Dict.get (snd i) (dev_interfaces dev)) as [f|] eqn:Ef; cbn.
    + rewrite get_set_same. cbn. now rewrite get_set_same.
    + rewrite Ed. cbn. now rewrite Ef.
  - now rewrite Ed.
Qed.

Lemma lookup_set_other (i j : iface_id) (l : nat) (ds : Dict.t Device)
    (ls ls' : list Link) (cs cs' : list (list proxy_step)) :
  j <> i ->
  lookup_interface {| devices := set_interface_link i l ds; links := ls;
                      chains := cs |} j
  = lookup_interface {| devices := ds; links := ls'; chains := cs' |} j.
Proof.
  intros Hne.
  unfold lookup_interface, set_interface_link, Dict.item. cbn [devices].
  destruct (Dict.get (fst i) ds) as [dev|] eqn:Ed; [|reflexivity].
  destruct (Dict.get (snd i) (dev_interfaces dev)) as [f|] eqn:Ef;
    [|reflexivity].
  destruct (string_dec (fst j) (fst i)) as [E|E].
  - rewrite E, get_set_same, Ed. cbn.
    rewrite get_set_other; [reflexivity|].
    intros E'. apply Hne. destruct i, j. cbn in *. congruence.
  - now rewrite get_set_other.
Qed.

(** ** The member lists after [add_member] *)

Lemma add_member_length (l : nat) (i : iface_id) (ls : list Link) :
  List.length (add_member l i ls) = List.length ls.
Proof.
  revert l; induction ls as [|k ls IH]; intros [|l]; cbn; auto.
Qed.

Lemma add_member_same (l : nat) (i : iface_id) (ls : list Link) :
  (l < List.length ls)%nat ->
  option_map link_interfaces (nth_error (add_member l i ls) l)
  = option_map (fun k => link_interfaces k ++ [i]) (nth_error ls l).
Proof.
  revert l; induction ls as [|k ls IH]; intros [|l]; cbn; try lia; auto.
  intros H. apply IH. lia.
Qed.

Lemma add_member_other (l l' : nat) (i : iface_id) (ls : list Link) :
  l' <> l -> nth_error (add_member l i ls) l' = nth_error ls l'.
Proof.
  revert l l'; induction ls as [|k ls IH]; intros [|l] [|l'] H; cbn;
    try congruence; auto.
Qed.

(** ** What [connect_interface] changes *)

Lemma connect_has (tb : Testbed) (l : nat) (i j : iface_id) :
  has_interface (connect_interface tb l i) j <-> has_interface tb j.
Proof.
  unfold has_interface, connect_interface.
  destruct (iface_id_dec j i) as [->|Hne].
  - rewrite (lookup_set_same i l (devices tb) _ (links tb) _ (chains tb)).
    destruct tb as [ds ls cs]. cbn [devices links chains].
    destruct (lookup_interface {| devices := ds; links := ls; chains := cs |} i);
      cbn; split; intros [f H]; eauto; discriminate.
  - rewrite (lookup_set_other l (devices tb) _ (links tb) _ (chains tb) Hne).
    now destruct tb.
Qed.

Lemma connect_link_same (tb : Testbed) (l : nat) (i : iface_id) :
  has_interface tb i -> link_of (connect_interface tb l i) i = Some l.
Proof.
  intros [f Hf]. unfold link_of, connect_interface.
  rewrite (lookup_set_same i l (devices tb) _ (links tb) _ (chains tb)).
  destruct tb as [ds ls cs]. cbn [devices links chains] in *. now rewrite Hf.
Qed.

Lemma connect_link_other (tb : Testbed) (l : nat) (i j : iface_id) :
  j <> i -> link_of (connect_interface tb l i) j = link_of tb j.
Proof.
  intros Hne. unfold link_of, connect_interface.
  rewrite (lookup_set_other l (devices tb) _ (links tb) _ (chains tb) Hne).
  now destruct tb.
Qed.

Lemma connect_members_same (tb : Testbed) (l : nat) (i : iface_id) :
  (l < List.length (links tb))%nat ->
  link_members (connect_interface tb l i) l = link_members tb l ++ [i].
Proof.
  intros H. unfold link_members, connect_interface. cbn [links].
  pose proof (add_member_same i (links tb) H) as E.
  destruct (nth_error (add_member l i (links tb)) l) as [k|] eqn:E1;
    destruct (nth_error (links tb) l) as [k'|] eqn:E2; cbn in E;
    try congruence.
  apply nth_error_None in E2. lia.
Qed.

Lemma connect_members_other (tb : Testbed) (l l' : nat) (i : iface_id) :
  l' <> l -> link_members (connect_interface tb l i) l' = link_members tb l'.
Proof.
  intros H. unfold link_members, connect_interface. cbn [links].
  now rewrite add_member_other.
Qed.

Lemma connect_length (tb : Testbed) (l : nat) (i : iface_id) :
  List.length (links (connect_interface tb l i)) = List.length (links tb).
Proof. apply add_member_length. Qed.

Lemma members_valid (tb : Testbed) (l : nat) (i : iface_id) :
  In i (link_members tb l) -> (l < List.length (links tb))%nat.
Proof.
  unfold link_members. destruct (nth_error (links tb) l) eqn:E; [|contradiction].
  intros _. apply nth_error_Some. congruence.
Qed.

Lemma link_of_has (tb : Testbed) (i : iface_id) (l : nat) :
  link_of tb i = Some l -> has_interface tb i.
Proof.
  unfold link_of, has_interface.
  destruct (lookup_interface tb i); [eauto|discriminate].
Qed.

(** ** One interface joining a link *)

Lemma connect_grows (tb : Testbed) (l : nat) (i : iface_id) :
  grows tb (connect_interface tb l i).
Proof.
  repeat split.
  - intros j. apply connect_has.
  - intros l' j Hj. destruct (Nat.eq_dec l' l) as [->|Hne].
    + rewrite connect_members_same by (eapply members_valid; eauto).
      apply in_or_app. now left.
    + now rewrite connect_members_other.
  - intros j l' Hj. destruct (iface_id_dec j i) as [->|Hne].
    + exists l. apply connect_link_same. eapply link_of_has; eauto.
    + exists l'. now rewrite connect_link_other.
Qed.

Lemma grows_refl (tb : Testbed) : grows tb tb.
Proof. repeat split; eauto. Qed.

Lemma grows_trans (a b c : Testbed) : grows a b -> grows b c -> grows a c.
Proof.
  intros (H1 & H2 & H3) (K1 & K2 & K3). repeat split; auto.
  intros i l Hl. destruct (H3 _ _ Hl) as [l' Hl']. eauto.
Qed.

Lemma connect_backrefs (tb : Testbed) (l : nat) (i : iface_id) :
  backrefs_ok tb -> (l < List.length (links tb))%nat -> has_interface tb i ->
  backrefs_ok (connect_interface tb l i).
Proof.
  intros Hb Hl Hi j l' Hj. destruct (iface_id_dec j i) as [->|Hne].
  - rewrite connect_link_same in Hj by assumption. injection Hj as <-.
    rewrite connect_members_same by assumption. apply in_or_app. right.
    now left.
  - rewrite connect_link_other in Hj by assumption.
    apply (connect_grows tb l i). now apply Hb.
Qed.

Lemma connect_coherent (tb : Testbed) (l : nat) (i : iface_id) :
  coherent tb -> (l < List.length (links tb))%nat -> has_interface tb i ->
  link_of tb i = None -> coherent (connect_interface tb l i).
Proof.
  intros [Hb Hm] Hl Hi Hnone. split; [now apply connect_backrefs|].
  intros j l' Hj. destruct (Nat.eq_dec l' l) as [->|Hne].
  - rewrite connect_members_same in Hj by assumption.
    apply in_app_or in Hj as [Hj|[<-|[]]].
    + destruct (iface_id_dec j i) as [->|Hji].
      * apply Hm in Hj. congruence.
      * rewrite connect_link_other by assumption. now apply Hm.
    + now apply connect_link_same.
  - rewrite connect_members_other in Hj by assumption.
    destruct (iface_id_dec j i) as [->|Hji].
    + apply Hm in Hj. congruence.
    + rewrite connect_link_other by assumption. now apply Hm.
Qed.

(** ** A list of interfaces joining a link *)

Lemma connect_all_spec (n : nat) (l : list iface_id) (tb : Testbed) :
  (n < List.length (links tb))%nat ->
  (forall i, In i l -> has_interface tb i) ->
  let tb' := fold_left (fun tb i => connect_interface tb n i) l tb in
  link_members tb' n = link_members tb n ++ l
  /\ (forall l', l' <> n -> link_members tb' l' = link_members tb l')
  /\ (forall j, has_interface tb' j <-> has_interface tb j)
  /\ (forall j, In j l -> link_of tb' j = Some n)
  /\ (forall j, ~ In j l -> link_of tb' j = link_of tb j).
Proof.
  revert tb; induction l as [|i l IH]; intros tb Hn Hhas; cbn [fold_left].
  - rewrite app_nil_r. repeat split; auto; contradiction.
  - destruct (IH (connect_interface tb n i)) as (M1 & M2 & M3 & M4 & M5).
    + now rewrite connect_length.
    + intros j Hj. apply connect_has. apply Hhas. now right.
    + split; [|split; [|split; [|split]]].
      * rewrite M1, connect_members_same by assumption.
        now rewrite <- app_assoc.
      * intros l' Hl'. rewrite M2 by assumption.
        now apply connect_members_other.
      * intros j. rewrite M3. apply connect_has.
      * intros j Hj. destruct (in_dec iface_id_dec j l) as [Hin|Hnin].
        -- now apply M4.
        -- rewrite M5 by assumption. destruct Hj as [<-|Hj]; [|contradiction].
           apply connect_link_same. apply Hhas. now left.
      * intros j Hj. rewrite M5 by (intros H; apply Hj; now right).
        apply connect_link_other. intros ->. apply Hj. now left.
Qed.

Lemma new_link_spec (tb : Testbed) (name : str) (l : list iface_id) :
  (forall i, In i l -> has_interface tb i) ->
  let n := List.length (links tb) in
  let tb' := new_link tb name l in
  link_members tb' n = l
  /\ (forall l', l' <> n -> link_members tb' l' = link_members tb l')
  /\ (forall j, has_interface tb' j <-> has_interface tb j)
  /\ (forall j, In j l -> link_of tb' j = Some n)
  /\ (forall j, ~ In j l -> link_of tb' j = link_of tb j).
Proof.
  intros Hhas n tb'.
  set (tb0 := {| devices := devices tb;
                 links := links tb ++ [{| link_name := name;
                                          link_interfaces := [] |}];
                 chains := chains tb |}).
  assert (Hn : (n < List.length (links tb0))%nat).
  { cbn. rewrite length_app. cbn. unfold n. lia. }
  assert (Hhas0 : forall i, In i l -> has_interface tb0 i).
  { intros i Hi. exact (Hhas i Hi). }
  destruct (@connect_all_spec n l tb0 Hn Hhas0) as (M1 & M2 & M3 & M4 & M5).
  fold tb0 in tb'. change (new_link tb name l) with
    (fold_left (fun tb i => connect_interface tb n i) l tb0) in tb'.
  split; [|split; [|split; [|split]]].
  - unfold tb'. rewrite M1. unfold link_members at 1. cbn [links tb0].
    now rewrite nth_error_app2, Nat.sub_diag by (unfold n; lia).
  - intros l' Hl'. unfold tb'. rewrite M2 by assumption.
    unfold link_members. cbn [links tb0].
    destruct (Nat.lt_ge_cases l' n) as [Hlt|Hge].
    + now rewrite nth_error_app1.
    + assert (E1 : nth_error (links tb) l' = None)
        by (apply nth_error_None; unfold n in *; lia).
      assert (E2 : nth_error (links tb ++ [{| link_name := name;
                                              link_interfaces := [] |}]) l'
                   = None).
      { apply nth_error_None. rewrite length_app. cbn. unfold n in *. lia. }
      now rewrite E1, E2.
  - intros j. unfold tb'. rewrite M3. reflexivity.
  - intros j Hj. unfold tb'. now apply M4.
  - intros j Hj. unfold tb'. now rewrite M5.
Qed.

Lemma new_link_grows (tb : Testbed) (name : str) (l : list iface_id) :
  (forall i, In i l -> has_interface tb i) -> grows tb (new_link tb name l).
Proof.
  intros Hhas.
  destruct (@new_link_spec tb name l Hhas) as (M1 & M2 & M3 & M4 & M5).
  repeat split.
  - intros j. apply M3.
  - intros l' j Hj. rewrite M2; [assumption|].
    apply members_valid in Hj. lia.
  - intros j l' Hj. destruct (in_dec iface_id_dec j l) as [Hin|Hnin].
    + eexists. now apply M4.
    + exists l'. now rewrite M5.
Qed.

Lemma new_link_backrefs (tb : Testbed) (name : str) (l : list iface_id) :
  (forall i, In i l -> has_interface tb i) -> backrefs_ok tb ->
  backrefs_ok (new_link tb name l).
Proof.
  intros Hhas Hb j l' Hj.
  destruct (@new_link_spec tb name l Hhas) as (M1 & M2 & M3 & M4 & M5).
  destruct (in_dec iface_id_dec j l) as [Hin|Hnin].
  - rewrite M4 in Hj by assumption. injection Hj as <-. now rewrite M1.
  - rewrite M5 in Hj by assumption.
    apply (@new_link_grows tb name l Hhas). now apply Hb.
Qed.

Lemma new_link_coherent (tb : Testbed) (name : str) (l : list iface_id) :
  (forall i, In i l -> has_interface tb i) ->
  (forall i, In i l -> link_of tb i = None) ->
  coherent tb -> coherent (new_link tb name l).
Proof.
  intros Hhas Hnone [Hb Hm]. split; [now apply new_link_backrefs|].
  destruct (@new_link_spec tb name l Hhas) as (M1 & M2 & M3 & M4 & M5).
  intros j l' Hj. destruct (Nat.eq_dec l' (List.length (links tb))) as [->|Hne].
  - rewrite M1 in Hj. now apply M4.
  - rewrite M2 in Hj by assumption. apply Hm in Hj.
    rewrite M5; [assumption|]. intros Hin. apply Hnone in Hin. congruence.
Qed.

(** ** The two loops of the link commit *)

Lemma collect_spec (tb : Testbed) (entries : list conn_entry)
    (acc l : list iface_id) :
  foldM (collect_interface tb) entries acc = Ok l ->
  (forall e, In e entries ->
     has_interface tb (entry_interface e) /\ In (entry_interface e) l)
  /\ incl acc l
  /\ (forall i, In i l ->
        In i acc \/ exists e, In e entries /\ i = entry_interface e).
Proof.
  revert acc; induction entries as [|e entries IH]; intros acc; cbn [foldM].
  - intros [= <-]. split; [intros e []|split; [apply incl_refl|now left]].
  - unfold collect_interface at 1.
    destruct (lookup_interface tb (entry_interface e)) as [f|x] eqn:Ef;
      cbn [bind]; [|discriminate].
    intros H. apply IH in H as (H1 & H2 & H3).
    assert (Hin : In (entry_interface e) l).
    { apply H2. destruct (iface_mem _ acc) eqn:Em.
      - now apply iface_mem_iff.
      - apply in_or_app. right. now left. }
    split; [|split].
    + intros e' [<-|He']; [split; [now exists f|assumption]|now apply H1].
    + intros i Hi. apply H2. destruct (iface_mem _ acc); [assumption|].
      apply in_or_app. now left.
    + intros i Hi. destruct (H3 i Hi) as [Hacc|[e' [He' ->]]].
      * destruct (iface_mem _ acc).
        -- now left.
        -- apply in_app_or in Hacc as [Hacc|[<-|[]]]; [now left|].
           right. exists e. split; [now left|reflexivity].
      * right. exists e'. split; [now right|reflexivity].
Qed.

Lemma extend_step (l : nat) (tb tb' : Testbed) (e : conn_entry) :
  extend_link l tb e = Ok tb' ->
  has_interface tb (entry_interface e)
  /\ ((tb' = tb /\ In (entry_interface e) (link_members tb l))
      \/ (tb' = connect_interface tb l (entry_interface e)
          /\ ~ In (entry_interface e) (link_members tb l))).
Proof.
  unfold extend_link.
  destruct (lookup_interface tb (entry_interface e)) as [f|x] eqn:Ef;
    cbn [bind]; [|discriminate].
  split; [now exists f|].
  destruct (iface_mem _ _) eqn:Em; injection H as <-.
  - left. split; [reflexivity|now apply iface_mem_iff].
  - right. split; [reflexivity|now apply iface_mem_false].
Qed.

Lemma extend_grows (l : nat) (entries : list conn_entry) (tb tb' : Testbed) :
  foldM (extend_link l) entries tb = Ok tb' ->
  grows tb tb' /\ List.length (links tb') = List.length (links tb).
Proof.
  revert tb; induction entries as [|e entries IH]; intros tb; cbn [foldM].
  - intros [= <-]. split; [apply grows_refl|reflexivity].
  - destruct (extend_link l tb e) as [tb1|x] eqn:E; cbn [bind]; [|discriminate].
    intros H. apply IH in H as [Hg Hlen].
    apply extend_step in E as [_ [[-> _]|[-> _]]]; [now split|].
    split.
    + eapply grows_trans; [apply connect_grows|exact Hg].
    + now rewrite Hlen, connect_length.
Qed.

Lemma extend_backrefs (l : nat) (entries : list conn_entry) (tb tb' : Testbed) :
  backrefs_ok tb -> (l < List.length (links tb))%nat ->
  foldM (extend_link l) entries tb = Ok tb' -> backrefs_ok tb'.
Proof.
  revert tb; induction entries as [|e entries IH]; intros tb Hb Hl;
    cbn [foldM].
  - now intros [= <-].
  - destruct (extend_link l tb e) as [tb1|x] eqn:E; cbn [bind]; [|discriminate].
    apply extend_step in E as [Hhas [[-> _]|[-> _]]]; [now apply IH|].
    apply IH; [now apply connect_backrefs|now rewrite connect_length].
Qed.

Lemma extend_members (l : nat) (entries : list conn_entry) (tb tb' : Testbed) :
  (l < List.length (links tb))%nat ->
  foldM (extend_link l) entries tb = Ok tb' ->
  forall e, In e entries ->
    has_interface tb' (entry_interface e)
    /\ In (entry_interface e) (link_members tb' l).
Proof.
  revert tb; induction entries as [|e entries IH]; intros tb Hl;
    cbn [foldM]; [contradiction|].
  destruct (extend_link l tb e) as [tb1|x] eqn:E; cbn [bind]; [|discriminate].
  intros H e' [<-|He'].
  - destruct (@extend_grows _ _ _ _ H) as [(G1 & G2 & _) _].
    apply extend_step in E as [Hhas [[-> Hin]|[-> Hnin]]].
    + split; [now apply G1|now apply G2].
    + split.
      * apply G1. now apply connect_has.
      * apply G2. rewrite connect_members_same by assumption.
        apply in_or_app. right. now left.
  - apply (IH tb1); [|assumption|assumption].
    apply extend_step in E as [_ [[-> _]|[-> _]]]; [assumption|].
    now rewrite connect_length.
Qed.

Lemma extend_coherent (l : nat) (entries : list conn_entry) (tb tb' : Testbed) :
  coherent tb -> (l < List.length (links tb))%nat ->
  (forall e, In e entries ->
     link_of tb (entry_interface e) = None
     \/ link_of tb (entry_interface e) = Some l) ->
  foldM (extend_link l) entries tb = Ok tb' -> coherent tb'.
Proof.
  revert tb; induction entries as [|e entries IH]; intros tb Hc Hl Hsafe;
    cbn [foldM].
  - now intros [= <-].
  - destruct (extend_link l tb e) as [tb1|x] eqn:E; cbn [bind]; [|discriminate].
    apply extend_step in E as [Hhas [[-> _]|[-> Hnin]]].
    + apply IH; auto. intros e' He'. apply Hsafe. now right.
    + assert (Hnone : link_of tb (entry_interface e) = None).
      { destruct (Hsafe e (or_introl eq_refl)) as [H|H]; [assumption|].
        apply (proj1 Hc) in H. contradiction. }
      apply IH.
      * now apply connect_coherent.
      * now rewrite connect_length.
      * intros e' He'.
        destruct (iface_id_dec (entry_interface e') (entry_interface e))
          as [->|Hne].
        -- right. now apply connect_link_same.
        -- rewrite connect_link_other by assumption. apply Hsafe. now right.
Qed.

Lemma extend_noop (l : nat) (entries : list conn_entry) (tb : Testbed) :
  (forall e, In e entries ->
     has_interface tb (entry_interface e)
     /\ In (entry_interface e) (link_members tb l)) ->
  foldM (extend_link l) entries tb = Ok tb.
Proof.
  induction entries as [|e entries IH]; intros H; cbn [foldM]; [reflexivity|].
  destruct (H e (or_introl eq_refl)) as [[f Hf] Hin].
  unfold extend_link at 1. rewrite Hf. cbn [bind].
  apply iface_mem_iff in Hin. rewrite Hin. cbn [bind].
  apply IH. intros e' He'. apply H. now right.
Qed.

(** ** Committing the entries of one local interface *)

Lemma commit_interface_cases (device : str) (tb tb' : Testbed)
    (item : str * list conn_entry) :
  commit_interface device tb item = Ok tb' ->
  has_interface tb (device, fst item)
  /\ ((link_of tb (device, fst item) = None
       /\ exists int_list,
            foldM (collect_interface tb) (snd item) [(device, fst item)]
            = Ok int_list
            /\ tb' = new_link tb (link_name_for tb) int_list)
      \/ (exists l, link_of tb (device, fst item) = Some l
                    /\ foldM (extend_link l) (snd item) tb = Ok tb')).
Proof.
  unfold commit_interface, link_of.
  destruct (lookup_interface tb (device, fst item)) as [f|x] eqn:Ef;
    cbn [bind]; [|discriminate].
  split; [now exists f|].
  destruct (if_link f) as [l|].
  - right. now exists l.
  - left. split; [reflexivity|].
    destruct (foldM _ _ _) as [int_list|x]; cbn [bind] in H; [|discriminate].
    destruct (name_taken tb (link_name_for tb)); [discriminate|].
    injection H as <-. now exists int_list.
Qed.

Lemma collected_have (device : str) (tb : Testbed)
    (item : str * list conn_entry) (int_list : list iface_id) :
  has_interface tb (device, fst item) ->
  foldM (collect_interface tb) (snd item) [(device, fst item)] = Ok int_list ->
  forall i, In i int_list -> has_interface tb i.
Proof.
  intros HX Hc i Hi. destruct (@collect_spec _ _ _ _ Hc) as (H1 & _ & H3).
  destruct (H3 i Hi) as [[<-|[]]|[e [He ->]]]; [assumption|].
  now apply H1.
Qed.

Lemma commit_interface_grows (device : str) (tb tb' : Testbed)
    (item : str * list conn_entry) :
  commit_interface device tb item = Ok tb' -> grows tb tb'.
Proof.
  intros H. apply commit_interface_cases in H
    as [HX [[_ [int_list [Hc ->]]]|[l [_ He]]]].
  - apply new_link_grows. eapply collected_have; eauto.
  - now apply extend_grows in He.
Qed.

Lemma commit_interface_backrefs (device : str) (tb tb' : Testbed)
    (item : str * list conn_entry) :
  backrefs_ok tb -> commit_interface device tb item = Ok tb' ->
  backrefs_ok tb'.
Proof.
  intros Hb H. apply commit_interface_cases in H
    as [HX [[_ [int_list [Hc ->]]]|[l [Hl He]]]].
  - apply new_link_backrefs; [|assumption]. eapply collected_have; eauto.
  - eapply extend_backrefs; eauto. eapply members_valid. apply Hb. eauto.
Qed.

Lemma commit_interface_coherent (device : str) (tb tb' : Testbed)
    (item : str * list conn_entry) :
  coherent tb -> entry_safe tb device item ->
  commit_interface device tb item = Ok tb' -> coherent tb'.
Proof.
  intros Hc Hsafe H. apply commit_interface_cases in H
    as [HX [[Hnone [int_list [Hcol ->]]]|[l [Hl He]]]].
  - apply new_link_coherent; [eapply collected_have; eauto| |assumption].
    intros i Hi. destruct (@collect_spec _ _ _ _ Hcol) as (_ & _ & H3).
    destruct (H3 i Hi) as [[<-|[]]|[e [He ->]]]; [assumption|].
    destruct (Hsafe e He) as [E|E]; congruence.
  - eapply extend_coherent; eauto.
    + eapply members_valid. apply (proj1 Hc). eauto.
    + intros e He'. destruct (Hsafe e He') as [E|E]; [now left|right].
      congruence.
Qed.

Lemma commit_interface_shares (device : str) (tb tb' : Testbed)
    (item : str * list conn_entry) :
  backrefs_ok tb -> commit_interface device tb item = Ok tb' ->
  share_link device item tb'.
Proof.
  intros Hb H. pose proof (@commit_interface_grows _ _ _ _ H) as (G1 & G2 & _).
  apply commit_interface_cases in H
    as [HX [[_ [int_list [Hc ->]]]|[l [Hl He]]]].
  - split; [now apply G1|].
    pose proof (@collected_have _ _ _ _ HX Hc) as Hhas.
    destruct (@new_link_spec tb (link_name_for tb) int_list Hhas)
      as (M1 & _ & M3 & _).
    destruct (@collect_spec _ _ _ _ Hc) as (H1 & H2 & _).
    exists (List.length (links tb)). rewrite M1. split.
    + apply H2. now left.
    + intros e He. split; [apply M3|]; now apply H1.
  - split; [now apply G1|]. exists l.
    assert (HXin : In (device, fst item) (link_members tb l)) by now apply Hb.
    split; [now apply G2|].
    eapply extend_members; eauto. eapply members_valid; eauto.
Qed.

Lemma commit_interface_noop (device : str) (tb : Testbed)
    (item : str * list conn_entry) :
  members_ok tb -> share_link device item tb ->
  commit_interface device tb item = Ok tb.
Proof.
  intros Hm [[f Hf] [l [HX Hall]]].
  pose proof (Hm _ _ HX) as Hl. unfold link_of in Hl. rewrite Hf in Hl.
  unfold commit_interface. rewrite Hf. cbn [bind]. rewrite Hl.
  now apply extend_noop.
Qed.

Lemma share_link_grows (device : str) (item : str * list conn_entry)
    (tb tb' : Testbed) :
  grows tb tb' -> share_link device item tb -> share_link device item tb'.
Proof.
  intros (G1 & G2 & _) [HX [l [Hin Hall]]]. split; [now apply G1|].
  exists l. split; [now apply G2|].
  intros e He. destruct (Hall e He). split; [now apply G1|now apply G2].
Qed.

(** ** Committing a whole connection record *)

Lemma commit_device_grows (d : str * connection_dict_t) (tb tb' : Testbed) :
  commit_device tb d = Ok tb' -> grows tb tb'.
Proof.
  unfold commit_device. generalize (snd d) as items. intros items.
  revert tb; induction items as [|item items IH]; intros tb; cbn [foldM].
  - intros [= <-]. apply grows_refl.
  - destruct (commit_interface (fst d) tb item) as [tb1|x] eqn:E;
      cbn [bind]; [|discriminate].
    intros H. eapply grows_trans; [eapply commit_interface_grows; eauto|].
    now apply IH.
Qed.

Lemma commit_grows (cd : Dict.t connection_dict_t) (tb tb' : Testbed) :
  _write_connections_to_testbed cd tb = Ok tb' -> grows tb tb'.
Proof.
  unfold _write_connections_to_testbed.
  revert tb; induction cd as [|d cd IH]; intros tb; cbn [foldM].
  - intros [= <-]. apply grows_refl.
  - destruct (commit_device tb d) as [tb1|x] eqn:E; cbn [bind]; [|discriminate].
    intros H. eapply grows_trans; [eapply commit_device_grows; eauto|].
    now apply IH.
Qed.

Lemma commit_device_backrefs (d : str * connection_dict_t) (tb tb' : Testbed) :
  backrefs_ok tb -> commit_device tb d = Ok tb' -> backrefs_ok tb'.
Proof.
  unfold commit_device. generalize (snd d) as items. intros items.
  revert tb; induction items as [|item items IH]; intros tb Hb; cbn [foldM].
  - now intros [= <-].
  - destruct (commit_interface (fst d) tb item) as [tb1|x] eqn:E;
      cbn [bind]; [|discriminate].
    apply IH. eapply commit_interface_backrefs; eauto.
Qed.

Lemma commit_backrefs (cd : Dict.t connection_dict_t) (tb tb' : Testbed) :
  backrefs_ok tb -> _write_connections_to_testbed cd tb = Ok tb' ->
  backrefs_ok tb'.
Proof.
  unfold _write_connections_to_testbed.
  revert tb; induction cd as [|d cd IH]; intros tb Hb; cbn [foldM].
  - now intros [= <-].
  - destruct (commit_device tb d) as [tb1|x] eqn:E; cbn [bind]; [|discriminate].
    apply IH. eapply commit_device_backrefs; eauto.
Qed.

Lemma commit_device_coherent (device : str) (items : connection_dict_t)
    (tb tb' : Testbed) :
  coherent tb -> safe_items device items tb ->
  commit_device tb (device, items) = Ok tb' -> coherent tb'.
Proof.
  unfold commit_device. cbn [fst snd].
  revert tb; induction items as [|item items IH]; intros tb Hc Hs;
    cbn [foldM].
  - now intros [= <-].
  - destruct (commit_interface device tb item) as [tb1|x] eqn:E;
      cbn [bind]; [|discriminate].
    destruct Hs as [Hs1 Hs2]. apply IH.
    + eapply commit_interface_coherent; eauto.
    + now apply Hs2.
Qed.

Lemma commit_coherent (cd : Dict.t connection_dict_t) (tb tb' : Testbed) :
  coherent tb -> safe_commit cd tb ->
  _write_connections_to_testbed cd tb = Ok tb' -> coherent tb'.
Proof.
  unfold _write_connections_to_testbed.
  revert tb; induction cd as [|[device items] cd IH]; intros tb Hc Hs;
    cbn [foldM].
  - now intros [= <-].
  - destruct (commit_device tb (device, items)) as [tb1|x] eqn:E;
      cbn [bind]; [|discriminate].
    destruct Hs as [Hs1 Hs2]. apply IH.
    + eapply commit_device_coherent; eauto.
    + now apply Hs2.
Qed.

Lemma commit_device_shares (d : str * connection_dict_t) (tb tb' : Testbed) :
  backrefs_ok tb -> commit_device tb d = Ok tb' ->
  forall item, In item (snd d) -> share_link (fst d) item tb'.
Proof.
  unfold commit_device. generalize (snd d) as items. intros items.
  revert tb; induction items as [|item items IH]; intros tb Hb; cbn [foldM];
    [contradiction|].
  destruct (commit_interface (fst d) tb item) as [tb1|x] eqn:E;
    cbn [bind]; [|discriminate].
  intros H item' [<-|Hin].
  - eapply share_link_grows.
    + apply (@commit_device_grows (fst d, items) tb1 tb'). exact H.
    + eapply commit_interface_shares; eauto.
  - apply (IH tb1); [eapply commit_interface_backrefs; eauto|exact H|exact Hin].
Qed.

Lemma commit_shares (cd : Dict.t connection_dict_t) (tb tb' : Testbed) :
  backrefs_ok tb -> _write_connections_to_testbed cd tb = Ok tb' ->
  forall d item, In d cd -> In item (snd d) -> share_link (fst d) item tb'.
Proof.
  unfold _write_connections_to_testbed.
  revert tb; induction cd as [|d cd IH]; intros tb Hb; cbn [foldM];
    [contradiction|].
  destruct (commit_device tb d) as [tb1|x] eqn:E; cbn [bind]; [|discriminate].
  intros H d' item [<-|Hin] Hitem.
  - eapply share_link_grows; [apply (@commit_grows _ _ _ H)|].
    eapply commit_device_shares; eauto.
  - apply (IH tb1); [eapply commit_device_backrefs; eauto|exact H|exact Hin|exact Hitem].
Qed.

Lemma commit_noop (cd : Dict.t connection_dict_t) (tb : Testbed) :
  members_ok tb ->
  (forall d item, In d cd -> In item (snd d) -> share_link (fst d) item tb) ->
  _write_connections_to_testbed cd tb = Ok tb.
Proof.
  intros Hm. unfold _write_connections_to_testbed.
  induction cd as [|d cd IH]; intros Hall; cbn [foldM]; [reflexivity|].
  assert (E : commit_device tb d = Ok tb).
  { unfold commit_device.
    assert (Hd : forall item, In item (snd d) -> share_link (fst d) item tb)
      by (intros item; apply Hall; now left).
    revert Hd. generalize (snd d) as items.
    induction items as [|item items IHi]; intros Hd; cbn [foldM];
      [reflexivity|].
    rewrite commit_interface_noop; auto using in_eq. cbn [bind].
    apply IHi. intros item' Hin. apply Hd. now right. }
  rewrite E. cbn [bind]. apply IH. intros d' item Hd. apply Hall. now right.
Qed.

Lemma coherent_one_link_each (tb : Testbed) : members_ok tb -> one_link_each tb.
Proof.
  intros Hm i l1 l2 H1 H2. apply Hm in H1, H2. congruence.
Qed.

Lemma get_in {V} (k : str) (v : V) (d : Dict.t V) :
  Dict.get k d = Some v -> exists k', In (k', v) d.
Proof.
  induction d as [|[k' v'] d IH]; simpl; [discriminate|].
  destruct (String.eqb k k').
  - intros [= ->]. exists k'. now left.
  - intros H. destruct (IH H) as [k2 Hk]. exists k2. now right.
Qed.

Lemma no_links_coherent (tb : Testbed) : no_links tb = true -> coherent tb.
Proof.
  unfold no_links. intros [Hifs Hlen%Nat.eqb_eq]%andb_prop.
  assert (Hnone : forall i, link_of tb i = None).
  { intros i. unfold link_of, lookup_interface, Dict.item.
    destruct (Dict.get (fst i) (devices tb)) as [dev|] eqn:Ed; [|reflexivity].
    cbn. destruct (Dict.get (snd i) (dev_interfaces dev)) as [f|] eqn:Ef;
      [|reflexivity].
    cbn. apply get_in in Ed as [k Hk], Ef as [k' Hk'].
    rewrite forallb_forall in Hifs. specialize (Hifs _ Hk). cbn in Hifs.
    rewrite forallb_forall in Hifs. specialize (Hifs _ Hk'). cbn in Hifs.
    now destruct (if_link f). }
  split.
  - intros i l H. rewrite Hnone in H. discriminate.
  - intros i l H. apply members_valid in H. lia.
Qed.

(** C2 as the specification states it fails: from a testbed without links,
    committing the record in which two interfaces of [A] both see
    [Gi0/1] of [B] creates two links, and [Gi0/1] of [B] is a member of
    both. *)
Lemma shared_remote_counterexample :
  no_links testbed_ABC = true
  /\ exists tb',
       _write_connections_to_testbed seen_twice testbed_ABC = Ok tb'
       /\ In ("B", "Gi0/1") (link_members tb' 0)
       /\ In ("B", "Gi0/1") (link_members tb' 1)
       /\ ~ one_link_each tb'.
Proof.
  split; [reflexivity|]. eexists. split; [reflexivity|].
  assert (H0 : In ("B", "Gi0/1")
                 [("A", "Gi0/1"); ("B", "Gi0/1")]) by (right; now left).
  assert (H1 : In ("B", "Gi0/1")
                 [("A", "Gi0/2"); ("B", "Gi0/1")]) by (right; now left).
  split; [exact H0|]. split; [exact H1|].
  intros H. specialize (H ("B", "Gi0/1") 0%nat 1%nat H0 H1). discriminate.
Qed.

(** C2, amended.  From a testbed in which back-references and member lists
    agree, committing a connection record leaves them in agreement, and so
    every interface in at most one link, provided that each time a local
    interface is committed the remote interfaces of its entries are in no
    link or already in the link of the local interface.  (The source tests
    the link of the local interface only.) *)
Theorem link_commit_one_link_each (cd : Dict.t connection_dict_t)
    (tb tb' : Testbed) :
  coherent tb -> safe_commit cd tb ->
  _write_connections_to_testbed cd tb = Ok tb' ->
  coherent tb' /\ one_link_each tb'.
Proof.
  intros Hc Hs H. pose proof (@commit_coherent _ _ _ Hc Hs H) as Hc'.
  split; [assumption|]. apply coherent_one_link_each. apply Hc'.
Qed.

(** Discharges [safe_commit] on a closed record and testbed, by running
    the commit. *)
Ltac run_safe :=
  repeat lazymatch goal with
    | |- True => exact I
    | |- _ /\ _ => split
    | |- safe_commit _ _ => cbn [safe_commit fst snd]
    | |- safe_items _ _ _ => cbn [safe_items fst snd]
    | |- entry_safe _ _ _ =>
        let e := fresh "e" in
        let He := fresh "He" in
        intros e He; cbn in He;
        repeat (destruct He as [<-|He]; [first [left; reflexivity
                                               |right; reflexivity]|]);
        contradiction
    | |- forall tb', _ = Ok tb' -> _ =>
        let tb' := fresh "tb" in
        let H := fresh "H" in
        intros tb' H; vm_compute in H; injection H as <-
    end.

Lemma link_commit_one_link_each_witness :
  exists tb',
    _write_connections_to_testbed both_ends testbed_ABC = Ok tb'
    /\ coherent tb' /\ one_link_each tb'.
Proof.
  eexists. split; [reflexivity|].
  apply (@link_commit_one_link_each both_ends testbed_ABC).
  - apply no_links_coherent. reflexivity.
  - unfold both_ends. run_safe.
  - reflexivity.
Defined.

(** ** A second application of a record *)

Lemma applied_grows (cd : Dict.t connection_dict_t) (tb tb' : Testbed) :
  grows tb tb' -> applied cd tb -> applied cd tb'.
Proof.
  intros (G1 & _ & G3) Ha d item Hd Hitem.
  destruct (Ha d item Hd Hitem) as [[l Hl] Hhas]. split.
  - exact (G3 _ _ Hl).
  - intros e He. apply G1. now apply Hhas.
Qed.

Lemma commit_interface_applies (device : str) (tb tb' : Testbed)
    (item : str * list conn_entry) :
  commit_interface device tb item = Ok tb' ->
  (exists l, link_of tb' (device, fst item) = Some l)
  /\ forall e, In e (snd item) -> has_interface tb' (entry_interface e).
Proof.
  intros H. pose proof (@commit_interface_grows _ _ _ _ H) as (G1 & _ & G3).
  apply commit_interface_cases in H
    as [HX [[_ [int_list [Hc ->]]]|[l [Hl He]]]].
  - pose proof (@collected_have _ _ _ _ HX Hc) as Hhas.
    destruct (@new_link_spec tb (link_name_for tb) int_list Hhas)
      as (_ & _ & M3 & M4 & _).
    destruct (@collect_spec _ _ _ _ Hc) as (H1 & H2 & _). split.
    + eexists. apply M4. apply H2. now left.
    + intros e He. apply M3. now apply H1.
  - split; [exact (G3 _ _ Hl)|].
    intros e Hin. clear G3 Hl HX. revert tb G1 He.
    induction (snd item) as [|e' entries IH]; intros tb G1; cbn [foldM];
      [contradiction|].
    destruct (extend_link l tb e') as [tb1|] eqn:E; cbn [bind];
      [|discriminate].
    intros H. destruct (@extend_grows _ _ _ _ H) as [(K1 & _) _].
    destruct Hin as [<-|Hin].
    + apply K1. apply extend_step in E as [Hhas [[-> _]|[-> _]]];
        [assumption|now apply connect_has].
    + apply (IH Hin tb1); [exact K1|exact H].
Qed.

Lemma commit_applies (cd : Dict.t connection_dict_t) (tb tb' : Testbed) :
  _write_connections_to_testbed cd tb = Ok tb' -> applied cd tb'.
Proof.
  unfold _write_connections_to_testbed.
  revert tb; induction cd as [|d cd IH]; intros tb; cbn [foldM].
  - intros _ d item [].
  - destruct (commit_device tb d) as [tb1|] eqn:E; cbn [bind]; [|discriminate].
    intros H d' item [<-|Hd] Hitem; [|exact (IH _ H d' item Hd Hitem)].
    pose proof (@commit_grows _ _ _ H) as Hg.
    assert (Hd : forall item, In item (snd d) ->
              (exists l, link_of tb1 (fst d, fst item) = Some l)
              /\ forall e, In e (snd item) ->
                           has_interface tb1 (entry_interface e)).
    { clear H Hg Hitem item IH. revert E. unfold commit_device.
      generalize (snd d) as items. intros items.
      revert tb; induction items as [|it items IHi]; intros tb; cbn [foldM];
        [contradiction|].
      destruct (commit_interface (fst d) tb it) as [tb2|] eqn:E2; cbn [bind];
        [|discriminate].
      intros H item [<-|Hin]; [|exact (IHi _ H item Hin)].
      destruct (commit_interface_applies _ _ _ E2) as [[l Hl] Hhas].
      assert (Hg : grows tb2 tb1)
        by exact (@commit_device_grows (fst d, items) tb2 tb1 H).
      destruct Hg as (G1 & _ & G3). split; [exact (G3 _ _ Hl)|].
      intros e He. apply G1. now apply Hhas. }
    destruct (Hd item Hitem) as [[l Hl] Hhas].
    destruct Hg as (G1 & _ & G3). split; [exact (G3 _ _ Hl)|].
    intros e He. apply G1. now apply Hhas.
Qed.

(** With a link on the local interface and the remote interfaces there,
    committing returns, creates no link and lists no interface twice. *)
Lemma extend_again (l : nat) (entries : list conn_entry) (tb : Testbed) :
  (forall e, In e entries -> has_interface tb (entry_interface e)) ->
  exists tb',
    foldM (extend_link l) entries tb = Ok tb'
    /\ (members_distinct tb -> members_distinct tb').
Proof.
  revert tb; induction entries as [|e entries IH]; intros tb Hhas;
    cbn [foldM].
  - exists tb. auto.
  - destruct (Hhas e (or_introl eq_refl)) as [f Hf].
    unfold extend_link at 1. rewrite Hf. cbn [bind].
    destruct (iface_mem (entry_interface e) (link_members tb l)) eqn:Em.
    + apply IH. intros e' He'. apply Hhas. now right.
    + destruct (IH (connect_interface tb l (entry_interface e)))
        as [tb' [H1 H2]].
      { intros e' He'. apply connect_has. apply Hhas. now right. }
      exists tb'. split; [exact H1|].
      intros Hd. apply H2. intros l'. apply iface_mem_false in Em.
      destruct (Nat.eq_dec l' l) as [->|Hne].
      * destruct (Nat.lt_ge_cases l (List.length (links tb))) as [Hlt|Hge].
        -- rewrite connect_members_same by assumption.
           apply NoDup_app; [apply Hd|repeat constructor; auto|].
           intros x Hx [<-|[]]. contradiction.
        -- unfold link_members.
           rewrite (proj2 (nth_error_None _ _)); [constructor|].
           now rewrite connect_length.
      * rewrite connect_members_other by assumption. apply Hd.
Qed.

Lemma commit_again (cd : Dict.t connection_dict_t) (tb : Testbed) :
  applied cd tb ->
  exists tb',
    _write_connections_to_testbed cd tb = Ok tb'
    /\ List.length (links tb') = List.length (links tb)
    /\ (members_distinct tb -> members_distinct tb').
Proof.
  unfold _write_connections_to_testbed.
  assert (Hitems : forall device items tb,
            (forall item, In item items ->
               (exists l, link_of tb (device, fst item) = Some l)
               /\ forall e, In e (snd item) ->
                            has_interface tb (entry_interface e)) ->
            exists tb',
              foldM (commit_interface device) items tb = Ok tb'
              /\ List.length (links tb') = List.length (links tb)
              /\ (members_distinct tb -> members_distinct tb')).
  { intros device items. induction items as [|item items IH]; intros tb0 Ha;
      cbn [foldM]; [exists tb0; auto|].
    destruct (Ha item (or_introl eq_refl)) as [[l Hl] Hhas].
    destruct (extend_again l _ Hhas) as [tb1 [E1 D1]].
    assert (E : commit_interface device tb0 item = Ok tb1).
    { unfold commit_interface. unfold link_of in Hl.
      destruct (lookup_interface tb0 (device, fst item)) as [f|];
        [|discriminate].
      cbn [bind]. now rewrite Hl. }
    rewrite E. cbn [bind].
    pose proof (@commit_interface_grows _ _ _ _ E) as (G1 & _ & G3).
    destruct (@extend_grows _ _ _ _ E1) as [_ Hlen].
    destruct (IH tb1) as [tb' (H1 & H2 & H3)].
    { intros it Hin. destruct (Ha it (or_intror Hin)) as [[l' Hl'] Hh].
      split; [exact (G3 _ _ Hl')|]. intros e He. apply G1. now apply Hh. }
    exists tb'. split; [exact H1|]. split; [lia|auto]. }
  revert tb; induction cd as [|d cd IH]; intros tb Ha; cbn [foldM];
    [exists tb; auto|].
  destruct (Hitems (fst d) (snd d) tb) as [tb1 (E & Hlen & Hd)].
  { intros item Hitem. apply (Ha d item); [now left|assumption]. }
  unfold commit_device at 1. rewrite E. cbn [bind].
  destruct (IH tb1) as [tb' (H1 & H2 & H3)].
  { apply (@applied_grows cd tb tb1).
    - exact (@commit_device_grows d tb tb1 E).
    - intros d' item Hd' Hitem. apply (Ha d' item); [now right|assumption]. }
  exists tb'. split; [exact H1|]. split; [lia|auto].
Qed.

(** C3 as the specification states it fails: with the record in which [A]
    sees [B] and [C] sees [A], the first application leaves [Gi0/1] of [A]
    in the link created for [C], so the second application adds [Gi0/1] of
    [B] to that link: two applications do not give what one gives. *)
Lemma twice_differs_counterexample :
  no_links testbed_ABC = true
  /\ exists once twice,
       _write_connections_to_testbed partial_views testbed_ABC = Ok once
       /\ _write_connections_to_testbed partial_views once = Ok twice
       /\ link_members once 1 = [("C", "Gi0/1"); ("A", "Gi0/1")]
       /\ link_members twice 1
          = [("C", "Gi0/1"); ("A", "Gi0/1"); ("B", "Gi0/1")]
       /\ once <> twice.
Proof.
  split; [reflexivity|]. do 2 eexists.
  split; [reflexivity|]. split; [reflexivity|].
  split; [reflexivity|]. split; [reflexivity|].
  intros H. apply (f_equal (fun tb => List.length (link_members tb 1))) in H.
  vm_compute in H. discriminate.
Qed.

(** C3, amended.  From a testbed whose back-references point to links that
    list them, if applying a connection record leaves every member of a
    link referring to that link (so that no interface sits in two links),
    then applying the same record again changes nothing: the links and
    their members are those of the first application.  This is the case,
    in particular, when the members referred back to their links before
    and each remote interface was in no link or in the link of its local
    interface when it was committed.  In every case the second application
    returns, creates no link, and lists no interface twice in a link. *)
Theorem link_commit_idempotent (cd : Dict.t connection_dict_t)
    (tb tb' : Testbed) :
  backrefs_ok tb ->
  _write_connections_to_testbed cd tb = Ok tb' ->
  (members_ok tb' -> _write_connections_to_testbed cd tb' = Ok tb')
  /\ (members_ok tb -> safe_commit cd tb ->
      _write_connections_to_testbed cd tb' = Ok tb')
  /\ (exists tb'',
        _write_connections_to_testbed cd tb' = Ok tb''
        /\ List.length (links tb'') = List.length (links tb')
        /\ (members_distinct tb' -> members_distinct tb'')).
Proof.
  intros Hb H.
  assert (Hidem : members_ok tb' ->
                  _write_connections_to_testbed cd tb' = Ok tb').
  { intros Hm. apply commit_noop; [assumption|].
    intros d item Hd Hitem.
    exact (@commit_shares _ _ _ Hb H d item Hd Hitem). }
  split; [exact Hidem|]. split.
  - intros Hm Hs. apply Hidem.
    exact (proj2 (@commit_coherent _ _ _ (conj Hb Hm) Hs H)).
  - apply commit_again. exact (@commit_applies _ _ _ H).
Qed.

Lemma link_commit_idempotent_witness :
  exists tb',
    _write_connections_to_testbed both_ends testbed_ABC = Ok tb'
    /\ _write_connections_to_testbed both_ends tb' = Ok tb'.
Proof.
  assert (Hc : coherent testbed_ABC) by (apply no_links_coherent; reflexivity).
  assert (Hs : safe_commit both_ends testbed_ABC)
    by (unfold both_ends; run_safe).
  eexists. split; [reflexivity|].
  apply (proj1 (proj2 (@link_commit_idempotent both_ends testbed_ABC _
                         (proj1 Hc) eq_refl))).
  - apply Hc.
  - exact Hs.
Defined.

(* ================================================================== *)
(** * Properties: dictionaries *)

Lemma get_set {V} (k k' : str) (v : V) (d : Dict.t V) :
  Dict.get k (Dict.set k' v d) = if String.eqb k' k then Some v else Dict.get k d.
Proof.
  destruct (String.eqb k' k) eqn:E.
  - apply String.eqb_eq in E. subst. apply get_set_same.
  - apply String.eqb_neq in E. apply get_set_other. congruence.
Qed.

Lemma latest_snoc {X} (key : X -> str) (k : str) (xs : list X) (x : X) :
  latest key k (xs ++ [x])
  = if String.eqb (key x) k then Some x else latest key k xs.
Proof. unfold latest. now rewrite rev_app_distr. Qed.

Lemma find_last {X} (p : X -> bool) (xs : list X) (x : X) :
  find p (xs ++ [x])
  = match find p xs with
    | Some y => Some y
    | None => if p x then Some x else None
    end.
Proof.
  induction xs as [|y xs IH]; cbn; [reflexivity|].
  destruct (p y); [reflexivity|exact IH].
Qed.

Lemma latest_cons {X} (key : X -> str) (k : str) (xs : list X) (x : X) :
  latest key k (x :: xs)
  = match latest key k xs with
    | Some y => Some y
    | None => if String.eqb (key x) k then Some x else None
    end.
Proof.
  unfold latest. cbn [rev].
  exact (@find_last X (fun y => String.eqb (key y) k) (rev xs) x).
Qed.

(** What a sequence of assignments leaves under a key. *)
Lemma get_fold_set {X V} (key : X -> str) (val : X -> V) (xs : list X)
    (d : Dict.t V) (k : str) :
  Dict.get k (fold_left (fun d x => Dict.set (key x) (val x) d) xs d)
  = match latest key k xs with
    | Some x => Some (val x)
    | None => Dict.get k d
    end.
Proof.
  induction xs as [|x xs IH] using rev_ind; [reflexivity|].
  rewrite fold_left_app, latest_snoc. cbn [fold_left]. rewrite get_set.
  destruct (String.eqb (key x) k); [reflexivity|exact IH].
Qed.

Lemma get_none_keys {V} (k : str) (d : Dict.t V) :
  Dict.get k d = None <-> ~ In k (Dict.keys d).
Proof.
  induction d as [|[k' v] d IH]; cbn; [tauto|].
  destruct (String.eqb k k') eqn:E.
  - apply String.eqb_eq in E. subst. split; [discriminate|]. intros H.
    elim H. now left.
  - apply String.eqb_neq in E. rewrite IH. intuition congruence.
Qed.

Lemma keys_set {V} (k : str) (v : V) (d : Dict.t V) :
  Dict.keys (Dict.set k v d)
  = if Dict.mem k d then Dict.keys d else Dict.keys d ++ [k].
Proof.
  unfold Dict.mem, Dict.keys. induction d as [|[k' v'] d IH]; cbn;
    [reflexivity|].
  destruct (String.eqb k k') eqn:E; cbn; [reflexivity|].
  rewrite IH. now destruct (Dict.get k d).
Qed.

Lemma set_nodup {V} (k : str) (v : V) (d : Dict.t V) :
  NoDup (Dict.keys d) -> NoDup (Dict.keys (Dict.set k v d)).
Proof.
  intros H. rewrite keys_set. unfold Dict.mem.
  destruct (Dict.get k d) eqn:E; [assumption|].
  apply get_none_keys in E.
  apply NoDup_app; [assumption|repeat constructor; auto|].
  intros x Hx [<-|[]]. contradiction.
Qed.

Lemma fold_set_nodup {X V} (key : X -> str) (val : X -> V) (xs : list X)
    (d : Dict.t V) :
  NoDup (Dict.keys d) ->
  NoDup (Dict.keys (fold_left (fun d x => Dict.set (key x) (val x) d) xs d)).
Proof.
  revert d; induction xs as [|x xs IH]; intros d H; cbn [fold_left];
    [assumption|].
  apply IH. now apply set_nodup.
Qed.

Lemma latest_none {V} (k : str) (d : Dict.t V) :
  ~ In k (Dict.keys d) -> latest fst k d = None.
Proof.
  induction d as [|[k' v] d IH]; [reflexivity|]. cbn [Dict.keys map fst].
  intros H. rewrite latest_cons, IH by (intros Hin; apply H; now right).
  cbn [fst].
  destruct (String.eqb k' k) eqn:E; [|reflexivity].
  apply String.eqb_eq in E. elim H. now left.
Qed.

(** With distinct keys the last binding of a key is its only one. *)
Lemma latest_get {V} (k : str) (d : Dict.t V) :
  NoDup (Dict.keys d) -> option_map snd (latest fst k d) = Dict.get k d.
Proof.
  induction d as [|[k' v] d IH]; [reflexivity|]. cbn [Dict.keys map fst].
  intros H. inversion H as [|? ? Hnin Hnd]; subst.
  rewrite latest_cons. cbn [Dict.get fst].
  destruct (String.eqb k' k) eqn:E.
  - apply String.eqb_eq in E. subst. rewrite latest_none by exact Hnin.
    rewrite String.eqb_refl. reflexivity.
  - rewrite String.eqb_sym, E, <- IH by assumption.
    now destruct (latest fst k d).
Qed.

(** [d.update(d2)] for a [d2] with distinct keys. *)
Lemma get_update {V} (k : str) (d d2 : Dict.t V) :
  NoDup (Dict.keys d2) ->
  Dict.get k (Dict.update d d2)
  = match Dict.get k d2 with Some v => Some v | None => Dict.get k d end.
Proof.
  intros H. unfold Dict.update.
  rewrite (get_fold_set fst snd d2 d k), <- (@latest_get _ k d2 H).
  now destruct (latest fst k d2).
Qed.

(* ================================================================== *)
(** * Properties: the output configuration *)

Lemma describe_topology (tb : Testbed) (cred : yaml) (input : Dict.t yaml)
    (devs : list Device) (st st' : yd_state) :
  foldM (describe_device tb cred input) devs st = Ok st' ->
  yd_topology st'
  = fold_left (fun d dev => Dict.set (dev_name dev) (interface_entries tb dev) d)
              devs (yd_topology st).
Proof.
  revert st; induction devs as [|dev devs IH]; intros st; cbn [foldM fold_left].
  - now intros [= <-].
  - destruct (describe_device tb cred input st dev) as [st1|x] eqn:E;
      cbn [bind]; [|discriminate].
    intros H. rewrite (IH _ H). f_equal.
    unfold describe_device in E.
    destruct (input_devices input) as [known|]; cbn [bind] in E;
      [|discriminate].
    destruct (negb (Dict.mem (dev_name dev) known)).
    + destruct (device_entry tb cred dev (yd_connect st)) as [[entry connect]|];
        cbn [bind] in E; [|discriminate].
      now injection E as <-.
    + cbn [bind] in E. now injection E as <-.
Qed.

Lemma interface_entries_nodup (tb : Testbed) (dev : Device) :
  NoDup (Dict.keys (interface_entries tb dev)).
Proof. apply fold_set_nodup. constructor. Qed.

Lemma interface_entries_get (tb : Testbed) (dev : Device) (i : str) :
  Dict.get i (interface_entries tb dev)
  = option_map (interface_entry tb) (graph_interface dev i).
Proof.
  unfold interface_entries, graph_interface.
  rewrite (get_fold_set if_name (interface_entry tb)).
  now destruct (latest if_name i _).
Qed.

(** Device entries of the input survive the loop that adds the new ones. *)
Lemma merge_devices_keeps (gen : Dict.t yaml) (ty ty' : Dict.t yaml) :
  foldM merge_device gen ty = Ok ty' ->
  (forall k, k <> "devices" -> Dict.get k ty' = Dict.get k ty)
  /\ (forall ds, Dict.get "devices" ty = Some (YMap ds) ->
      exists ds', Dict.get "devices" ty' = Some (YMap ds')
                  /\ forall d e, Dict.get d ds = Some e ->
                                 Dict.get d ds' = Some e).
Proof.
  revert ty; induction gen as [|[d v] gen IH]; intros ty; cbn [foldM].
  - intros [= <-]. split; [reflexivity|]. intros ds H. now exists ds.
  - destruct (merge_device ty (d, v)) as [ty1|x] eqn:E; cbn [bind];
      [|discriminate].
    intros H. destruct (IH _ H) as [K1 K2]. clear IH H.
    unfold merge_device, input_devices, Dict.item in E. cbn [fst snd] in E.
    destruct (Dict.get "devices" ty) as [y|] eqn:Ey; cbn in E; [|discriminate].
    destruct y as [| | | |known]; cbn in E; try discriminate.
    destruct (Dict.mem d known) eqn:Em; injection E as <-.
    + split; [assumption|]. intros ds Hds. apply K2. congruence.
    + split.
      * intros k Hk. rewrite K1 by assumption. apply get_set_other. congruence.
      * intros ds [= <-].
        destruct (K2 (Dict.set d v known)) as [ds' [H1 H2]];
          [apply get_set_same|].
        exists ds'. split; [assumption|].
        intros d' e He. apply H2. rewrite get_set_other; [assumption|].
        intros ->. unfold Dict.mem in Em. now rewrite He in Em.
Qed.

(** What the loop over the generated topology leaves under a device name,
    when the generated names are distinct. *)
Lemma merge_topology_get (gen : Dict.t (Dict.t yaml)) (T T' : Dict.t yaml)
    (d : str) :
  NoDup (Dict.keys gen) ->
  foldM merge_topology_device gen T = Ok T' ->
  match Dict.get d gen with
  | None => Dict.get d T' = Dict.get d T
  | Some entries =>
      match Dict.get d T with
      | None => Dict.get d T' = Some (interface_dict entries)
      | Some e =>
          exists em old,
            e = YMap em /\ Dict.get "interfaces" em = Some (YMap old)
            /\ Dict.get d T'
               = Some (YMap (Dict.set "interfaces"
                               (YMap (Dict.update old entries)) em))
      end
  end.
Proof.
  revert T; induction gen as [|[k entries] gen IH]; intros T Hnd;
    cbn [foldM].
  - now intros [= <-].
  - cbn [Dict.keys map fst] in Hnd. inversion Hnd as [|? ? Hnin Hnd']; subst.
    destruct (merge_topology_device T (k, entries)) as [T1|x] eqn:E;
      cbn [bind]; [|discriminate].
    intros H. specialize (IH T1 Hnd' H). cbn [Dict.get].
    rewrite String.eqb_sym.
    destruct (String.eqb k d) eqn:Ek.
    + apply String.eqb_eq in Ek. subst k.
      apply get_none_keys in Hnin. unfold Dict.keys in Hnin.
      rewrite Hnin in IH. rewrite IH. clear IH H.
      unfold merge_topology_device in E. cbn [fst snd] in E.
      destruct (Dict.get d T) as [e|]; [|injection E as <-; apply get_set_same].
      destruct e as [| | | |em]; cbn in E; try discriminate.
      unfold Dict.item in E.
      destruct (Dict.get "interfaces" em) as [y|] eqn:Ei; cbn in E;
        [|discriminate].
      destruct y as [| | | |old]; cbn in E; try discriminate.
      injection E as <-. exists em, old. rewrite get_set_same. auto.
    + apply String.eqb_neq in Ek.
      assert (E1 : Dict.get d T1 = Dict.get d T).
      { unfold merge_topology_device in E. cbn [fst snd] in E.
        destruct (Dict.get k T) as [e|].
        - destruct (as_map e) as [em|]; cbn [bind] in E; [|discriminate].
          destruct (Dict.item "interfaces" em) as [y|]; cbn [bind] in E;
            [|discriminate].
          destruct (as_map y) as [old|]; cbn [bind] in E; [|discriminate].
          injection E as <-. apply get_set_other. congruence.
        - injection E as <-. apply get_set_other. congruence. }
      now rewrite E1 in IH.
Qed.

Lemma generated_topology (tb : Testbed) (cred : yaml) (input : Dict.t yaml)
    (yaml_dict : yd_state) :
  foldM (describe_device tb cred input) (Dict.values (devices tb))
        {| yd_devices := []; yd_topology := []; yd_connect := None |}
  = Ok yaml_dict ->
  NoDup (Dict.keys (yd_topology yaml_dict))
  /\ forall d, Dict.get d (yd_topology yaml_dict)
               = option_map (interface_entries tb) (graph_device tb d).
Proof.
  intros H. apply describe_topology in H. cbn [yd_topology] in H. rewrite H.
  split.
  - apply fold_set_nodup. constructor.
  - intros d. rewrite (get_fold_set dev_name (interface_entries tb)).
    unfold graph_device. now destruct (latest dev_name d _).
Qed.

(** C8 as the specification states it fails: the interface entry of
    [Gi0/1] under the existing topology device [A] has an alias in the
    input; the merged output holds the entry written from the graph, which
    has the type only. *)
Lemma interface_entry_counterexample :
  at_path ["topology"; "A"; "interfaces"; "Gi0/1"] (YMap yaml_eth)
  = Some (YMap [("type", YStr "ethernet"); ("alias", YStr "uplink")])
  /\ exists output,
       create_yaml_dict testbed_eth YNull yaml_eth = Ok output
       /\ at_path ["topology"; "A"; "interfaces"; "Gi0/1"] (YMap output)
          = Some (YMap [("type", YStr "ethernet")]).
Proof. split; [reflexivity|]. eexists. split; reflexivity. Qed.

Lemma output_merge_kept (tb : Testbed) (cred : yaml)
    (input output : Dict.t yaml) :
  create_yaml_dict tb cred input = Ok output ->
  (forall k, k <> "devices" -> k <> "topology" ->
     Dict.get k output = Dict.get k input)
  /\ (forall ds, Dict.get "devices" input = Some (YMap ds) ->
      exists ds', Dict.get "devices" output = Some (YMap ds')
                  /\ forall d e, Dict.get d ds = Some e ->
                                 Dict.get d ds' = Some e)
  /\ (forall T, Dict.get "topology" input = Some (YMap T) ->
      exists T', Dict.get "topology" output = Some (YMap T')
        /\ forall d e, Dict.get d T = Some e ->
             match graph_device tb d with
             | None => Dict.get d T' = Some e
             | Some dev =>
                 exists em old em' new,
                   e = YMap em
                   /\ Dict.get "interfaces" em = Some (YMap old)
                   /\ Dict.get d T' = Some (YMap em')
                   /\ (forall k, k <> "interfaces" ->
                         Dict.get k em' = Dict.get k em)
                   /\ Dict.get "interfaces" em' = Some (YMap new)
                   /\ forall i,
                        Dict.get i new
                        = match graph_interface dev i with
                          | Some f => Some (interface_entry tb f)
                          | None => Dict.get i old
                          end
             end).
Proof.
  unfold create_yaml_dict.
  destruct (foldM (describe_device tb cred input) _ _) as [yaml_dict|x] eqn:Ed;
    cbn [bind]; [|discriminate].
  destruct (foldM merge_device _ input) as [ty|x] eqn:Em; cbn [bind];
    [|discriminate].
  destruct (merge_devices_keeps _ _ Em) as [K1 K2].
  destruct (generated_topology _ _ _ Ed) as [Hnd Hgen].
  assert (Ktop : Dict.get "topology" ty = Dict.get "topology" input)
    by (apply K1; discriminate).
  unfold merge_topology. rewrite Ktop.
  assert (Hother : forall (v : yaml) k, k <> "devices" -> k <> "topology" ->
            Dict.get k (Dict.set "topology" v ty) = Dict.get k input).
  { intros v k H1 H2. rewrite get_set_other by congruence. now apply K1. }
  assert (Hdev : forall (v : yaml) ds,
            Dict.get "devices" input = Some (YMap ds) ->
            exists ds', Dict.get "devices" (Dict.set "topology" v ty)
                        = Some (YMap ds')
                        /\ forall d e, Dict.get d ds = Some e ->
                                       Dict.get d ds' = Some e).
  { intros v ds H. destruct (K2 ds H) as [ds' [H1 H2]]. exists ds'.
    split; [|assumption]. rewrite get_set_other by discriminate. assumption. }
  destruct (Dict.get "topology" input) as [y|] eqn:Et.
  2:{ intros [= <-]. split; [apply Hother|]. split; [apply Hdev|].
      discriminate. }
  destruct y as [| | | |T0]; cbn [as_map bind]; try discriminate.
  { intros [= <-]. split; [apply Hother|]. split; [apply Hdev|].
    discriminate. }
  destruct (foldM merge_topology_device _ T0) as [T'|x] eqn:Ef; cbn [bind];
    [|discriminate].
  intros [= <-]. split; [apply Hother|]. split; [apply Hdev|].
  intros T [= <-]. exists T'. split; [apply get_set_same|].
  intros d e He. pose proof (@merge_topology_get _ _ _ d Hnd Ef) as M.
  rewrite Hgen, He in M.
  destruct (graph_device tb d) as [dev|]; cbn [option_map] in M.
  - destruct M as (em & old & -> & Hold & HT').
    exists em, old, (Dict.set "interfaces"
                       (YMap (Dict.update old (interface_entries tb dev))) em),
      (Dict.update old (interface_entries tb dev)).
    split; [reflexivity|]. split; [assumption|]. split; [assumption|].
    split; [intros k Hk; apply get_set_other; assumption|].
    split; [apply get_set_same|].
    intros i. rewrite get_update by apply interface_entries_nodup.
    rewrite interface_entries_get. now destruct (graph_interface dev i).
  - congruence.
Qed.

Lemma get_map_values {V W} (f : V -> W) (k : str) (d : Dict.t V) :
  Dict.get k (map (fun kv => (fst kv, f (snd kv))) d)
  = option_map f (Dict.get k d).
Proof.
  induction d as [|[k' v] d IH]; [reflexivity|]. cbn [map Dict.get fst snd].
  destruct (String.eqb k k'); [reflexivity|exact IH].
Qed.

Lemma input_devices_set (m : Dict.t yaml) (ty : Dict.t yaml) :
  input_devices (Dict.set "devices" (YMap m) ty) = Ok m.
Proof.
  unfold input_devices, Dict.item. now rewrite get_set_same.
Qed.

Lemma foldM_app {A S} (body : S -> A -> result S) (xs ys : list A) (st : S) :
  foldM body (xs ++ ys) st = (st' <- foldM body xs st ;; foldM body ys st').
Proof.
  revert st; induction xs as [|x xs IH]; intros st; cbn [app foldM bind];
    [reflexivity|].
  destruct (body st x); cbn [bind]; [apply IH|reflexivity].
Qed.

(** What the first loop leaves in [yaml_dict['devices']]: an entry for
    each device of the graph that the input does not list, written from
    the device of that name. *)
Lemma describe_devices_get (tb : Testbed) (cred : yaml)
    (input known : Dict.t yaml) (devs : list Device) (st st' : yd_state) :
  input_devices input = Ok known ->
  foldM (describe_device tb cred input) devs st = Ok st' ->
  forall d,
    match latest dev_name d devs with
    | Some dev =>
        if Dict.mem d known
        then Dict.get d (yd_devices st') = Dict.get d (yd_devices st)
        else exists connect entry connect',
               device_entry tb cred dev connect = Ok (entry, connect')
               /\ Dict.get d (yd_devices st') = Some entry
    | None => Dict.get d (yd_devices st') = Dict.get d (yd_devices st)
    end.
Proof.
  intros Hk. revert st'.
  induction devs as [|x devs IH] using rev_ind; intros st'.
  - cbn. now intros [= <-].
  - rewrite foldM_app.
    destruct (foldM (describe_device tb cred input) devs st) as [st1|] eqn:E1;
      cbn [bind foldM]; [|discriminate].
    destruct (describe_device tb cred input st1 x) as [st2|] eqn:E2;
      cbn [bind]; [|discriminate].
    intros [= <-] d. specialize (IH st1 eq_refl d). rewrite latest_snoc.
    unfold describe_device in E2. rewrite Hk in E2. cbn [bind] in E2.
    destruct (Dict.mem (dev_name x) known) eqn:Em; cbn [negb bind] in E2.
    + injection E2 as <-. cbn [yd_devices].
      destruct (String.eqb (dev_name x) d) eqn:Ed; [|exact IH].
      apply String.eqb_eq in Ed. subst d. rewrite Em.
      destruct (latest dev_name (dev_name x) devs);
        [now rewrite Em in IH|exact IH].
    + destruct (device_entry tb cred x (yd_connect st1))
        as [[entry connect]|] eqn:Ee; cbn [bind] in E2; [|discriminate].
      injection E2 as <-. cbn [yd_devices].
      destruct (String.eqb (dev_name x) d) eqn:Ed.
      * apply String.eqb_eq in Ed. subst d. rewrite Em.
        exists (yd_connect st1), entry, connect.
        split; [exact Ee|apply get_set_same].
      * apply String.eqb_neq in Ed.
        rewrite get_set_other by congruence. exact IH.
Qed.

(** The second loop adds to the devices of the input the generated
    entries of the names it lacks, and changes no entry it has. *)
Lemma merge_devices_get (gen ty ty' known : Dict.t yaml) :
  foldM merge_device gen ty = Ok ty' ->
  input_devices ty = Ok known ->
  exists known',
    Dict.get "devices" ty' = Some (YMap known')
    /\ forall d, Dict.get d known'
                 = match Dict.get d known with
                   | Some e => Some e
                   | None => Dict.get d gen
                   end.
Proof.
  revert ty known; induction gen as [|[k v] gen IH]; intros ty known;
    cbn [foldM].
  - intros [= <-] Hk. exists known. split.
    + unfold input_devices, Dict.item in Hk.
      destruct (Dict.get "devices" ty) as [[| | | |m]|]; cbn in Hk;
        try discriminate.
      now injection Hk as ->.
    + intros d. now destruct (Dict.get d known).
  - intros H Hk. unfold merge_device at 1 in H. rewrite Hk in H.
    cbn [bind fst snd] in H.
    destruct (Dict.mem k known) eqn:Em; cbn [bind] in H.
    + destruct (IH _ _ H Hk) as (known' & A & B). exists known'.
      split; [exact A|]. intros d. rewrite B. cbn [Dict.get].
      destruct (Dict.get d known) eqn:Ed; [reflexivity|].
      destruct (String.eqb d k) eqn:Edk; [|reflexivity].
      apply String.eqb_eq in Edk. subst d. unfold Dict.mem in Em.
      now rewrite Ed in Em.
    + destruct (IH _ _ H (input_devices_set _ _)) as (known' & A & B).
      exists known'. split; [exact A|]. intros d. rewrite B, get_set.
      cbn [Dict.get]. rewrite (String.eqb_sym d k).
      destruct (String.eqb k d) eqn:Edk.
      * apply String.eqb_eq in Edk. subst d. unfold Dict.mem in Em.
        now destruct (Dict.get k known).
      * reflexivity.
Qed.

Lemma output_merge_added (tb : Testbed) (cred : yaml)
    (input output : Dict.t yaml) :
  create_yaml_dict tb cred input = Ok output ->
  (forall ds, Dict.get "devices" input = Some (YMap ds) ->
     exists ds', Dict.get "devices" output = Some (YMap ds')
       /\ forall d, Dict.get d ds = None ->
            match graph_device tb d with
            | Some dev =>
                exists connect entry connect',
                  device_entry tb cred dev connect = Ok (entry, connect')
                  /\ Dict.get d ds' = Some entry
            | None => Dict.get d ds' = None
            end)
  /\ exists T', Dict.get "topology" output = Some (YMap T')
       /\ forall d, input_entry "topology" input d = None ->
            Dict.get d T'
            = option_map (fun dev => interface_dict (interface_entries tb dev))
                         (graph_device tb d).
Proof.
  unfold create_yaml_dict.
  destruct (foldM (describe_device tb cred input) _ _) as [yaml_dict|x] eqn:Ed;
    cbn [bind]; [|discriminate].
  destruct (foldM merge_device _ input) as [ty|x] eqn:Em; cbn [bind];
    [|discriminate].
  intros H.
  assert (Hdevices : Dict.get "devices" output = Dict.get "devices" ty
                     /\ exists T', Dict.get "topology" output = Some (YMap T')
                          /\ forall d, input_entry "topology" input d = None ->
                               Dict.get d T'
                               = option_map
                                   (fun dev => interface_dict
                                                 (interface_entries tb dev))
                                   (graph_device tb d)).
  { destruct (merge_devices_keeps _ _ Em) as [K1 _].
    destruct (generated_topology _ _ _ Ed) as [Hnd Hgen].
    assert (Ktop : Dict.get "topology" ty = Dict.get "topology" input)
      by (apply K1; discriminate).
    assert (Hnew : forall d,
              Dict.get d (map (fun kv => (fst kv, interface_dict (snd kv)))
                              (yd_topology yaml_dict))
              = option_map (fun dev => interface_dict (interface_entries tb dev))
                           (graph_device tb d)).
    { intros d. rewrite get_map_values, Hgen.
      now destruct (graph_device tb d). }
    unfold merge_topology in H. unfold input_entry. rewrite Ktop in H.
    destruct (Dict.get "topology" input) as [y|] eqn:Et.
    2:{ injection H as <-. split; [now apply get_set_other|].
        eexists. split; [apply get_set_same|]. intros d _. apply Hnew. }
    destruct y as [| | | |T0]; cbn [as_map bind] in H; try discriminate.
    { injection H as <-. split; [now apply get_set_other|].
      eexists. split; [apply get_set_same|]. intros d _. apply Hnew. }
    destruct (foldM merge_topology_device _ T0) as [T'|x] eqn:Ef;
      cbn [bind] in H; [|discriminate].
    injection H as <-. split; [now apply get_set_other|].
    exists T'. split; [apply get_set_same|]. intros d Hd.
    pose proof (@merge_topology_get _ _ _ d Hnd Ef) as M.
    rewrite Hgen, Hd in M.
    destruct (graph_device tb d) as [dev|]; cbn [option_map] in *;
      congruence. }
  destruct Hdevices as [Hdev Htop]. split; [|exact Htop].
  intros ds Hds.
  assert (Hk : input_devices input = Ok ds)
    by (unfold input_devices, Dict.item; now rewrite Hds).
  destruct (@merge_devices_get _ input ty ds Em Hk) as (ds' & A & B).
  exists ds'. split; [congruence|]. intros d Hd. rewrite B, Hd.
  pose proof (@describe_devices_get tb cred input ds _ _ _ Hk Ed d) as G.
  unfold graph_device. cbn [yd_devices Dict.get] in G.
  destruct (latest dev_name d (Dict.values (devices tb))) as [dev|];
    [|exact G].
  unfold Dict.mem in G. now rewrite Hd in G.
Qed.

(** C8, amended.  The final merge keeps every top-level section other
    than [devices] and [topology], every device entry of the input, every
    topology entry whose name is not a device of the graph, and, under an
    existing topology device, every key other than [interfaces] and every
    interface entry whose name is not an interface of the graph device; an
    existing interface entry whose name is an interface of the graph
    device is replaced by the entry written from the graph.  Entries
    absent from the input are added: a device of the graph that the input
    does not list gets the device entry written from it, and one that has
    no topology entry in the input, also when the input has no topology
    section, gets the interface table written from it; no other name is
    added. *)
Theorem output_merge_keeps (tb : Testbed) (cred : yaml)
    (input output : Dict.t yaml) :
  create_yaml_dict tb cred input = Ok output ->
  (forall k, k <> "devices" -> k <> "topology" ->
     Dict.get k output = Dict.get k input)
  /\ (forall ds, Dict.get "devices" input = Some (YMap ds) ->
      exists ds', Dict.get "devices" output = Some (YMap ds')
                  /\ forall d e, Dict.get d ds = Some e ->
                                 Dict.get d ds' = Some e)
  /\ (forall T, Dict.get "topology" input = Some (YMap T) ->
      exists T', Dict.get "topology" output = Some (YMap T')
        /\ forall d e, Dict.get d T = Some e ->
             match graph_device tb d with
             | None => Dict.get d T' = Some e
             | Some dev =>
                 exists em old em' new,
                   e = YMap em
                   /\ Dict.get "interfaces" em = Some (YMap old)
                   /\ Dict.get d T' = Some (YMap em')
                   /\ (forall k, k <> "interfaces" ->
                         Dict.get k em' = Dict.get k em)
                   /\ Dict.get "interfaces" em' = Some (YMap new)
                   /\ forall i,
                        Dict.get i new
                        = match graph_interface dev i with
                          | Some f => Some (interface_entry tb f)
                          | None => Dict.get i old
                          end
             end)
  /\ (forall ds, Dict.get "devices" input = Some (YMap ds) ->
      exists ds', Dict.get "devices" output = Some (YMap ds')
        /\ forall d, Dict.get d ds = None ->
             match graph_device tb d with
             | Some dev =>
                 exists connect entry connect',
                   device_entry tb cred dev connect = Ok (entry, connect')
                   /\ Dict.get d ds' = Some entry
             | None => Dict.get d ds' = None
             end)
  /\ exists T', Dict.get "topology" output = Some (YMap T')
       /\ forall d, input_entry "topology" input d = None ->
            Dict.get d T'
            = option_map (fun dev => interface_dict (interface_entries tb dev))
                         (graph_device tb d).
Proof.
  intros H.
  destruct (@output_merge_kept tb cred input output H) as (K1 & K2 & K3).
  destruct (@output_merge_added tb cred input output H) as (A1 & A2).
  split; [exact K1|]. split; [exact K2|]. split; [exact K3|].
  split; [exact A1|exact A2].
Qed.

Lemma output_merge_keeps_witness :
  exists output,
    create_yaml_dict testbed_eth YNull yaml_eth = Ok output
    /\ at_path ["devices"; "A"] (YMap output)
       = at_path ["devices"; "A"] (YMap yaml_eth).
Proof.
  eexists. split; [reflexivity|].
  destruct (@output_merge_keeps testbed_eth YNull yaml_eth _ eq_refl)
    as (_ & Hdev & _).
  destruct (Hdev _ eq_refl) as [ds' [H1 H2]].
  cbn [at_path]. rewrite H1.
  now rewrite (H2 "A" _ eq_refl).
Defined.

(* ================================================================== *)
(** * Properties: the discovery loop *)

(** ** The device names of the testbed through a round *)

Lemma keys_set_present {V} (k : str) (v v' : V) (d : Dict.t V) :
  Dict.get k d = Some v' -> Dict.keys (Dict.set k v d) = Dict.keys d.
Proof. intros H. rewrite keys_set. unfold Dict.mem. now rewrite H. Qed.

Lemma item_get {V} (k : str) (d : Dict.t V) (v : V) :
  Dict.item k d = Ok v -> Dict.get k d = Some v.
Proof.
  unfold Dict.item. destruct (Dict.get k d); cbn; congruence.
Qed.

Lemma ensure_interface_on_keys (name : str) (tb tb' : Testbed) (i : str) :
  ensure_interface_on name tb i = Ok tb' ->
  Dict.keys (devices tb') = Dict.keys (devices tb).
Proof.
  unfold ensure_interface_on.
  destruct (Dict.item name (devices tb)) as [dev|] eqn:E; cbn [bind];
    [|discriminate].
  destruct (ensure_interface dev i) as [dev'|]; cbn [bind]; [|discriminate].
  intros [= <-]. cbn [devices with_devices].
  eapply keys_set_present. apply item_get. eassumption.
Qed.

Lemma ensure_interfaces_keys (name : str) (l : list str) (tb tb' : Testbed) :
  foldM (ensure_interface_on name) l tb = Ok tb' ->
  Dict.keys (devices tb') = Dict.keys (devices tb).
Proof.
  revert tb; induction l as [|i l IH]; intros tb; cbn [foldM].
  - now intros [= <-].
  - destruct (ensure_interface_on name tb i) as [tb1|] eqn:E; cbn [bind];
      [|discriminate].
    intros H. rewrite (IH _ H). eapply ensure_interface_on_keys; eauto.
Qed.

Lemma set_interface_link_keys (i : iface_id) (l : nat) (ds : Dict.t Device) :
  Dict.keys (set_interface_link i l ds) = Dict.keys ds.
Proof.
  unfold set_interface_link.
  destruct (Dict.get (fst i) ds) as [dev|] eqn:E; [|reflexivity].
  destruct (Dict.get (snd i) (dev_interfaces dev)); [|reflexivity].
  eapply keys_set_present; eauto.
Qed.

Lemma connect_all_keys (n : nat) (l : list iface_id) (tb : Testbed) :
  Dict.keys (devices (fold_left (fun tb i => connect_interface tb n i) l tb))
  = Dict.keys (devices tb).
Proof.
  revert tb; induction l as [|i l IH]; intros tb; cbn [fold_left];
    [reflexivity|].
  rewrite IH. apply set_interface_link_keys.
Qed.

Lemma commit_interface_keys (device : str) (tb tb' : Testbed)
    (item : str * list conn_entry) :
  commit_interface device tb item = Ok tb' ->
  Dict.keys (devices tb') = Dict.keys (devices tb).
Proof.
  intros H. apply commit_interface_cases in H
    as [_ [[_ [int_list [_ ->]]]|[l [_ He]]]].
  - unfold new_link. now rewrite connect_all_keys.
  - revert He. generalize (snd item) as entries. intros entries.
    revert tb; induction entries as [|e entries IH]; intros tb; cbn [foldM].
    + now intros [= <-].
    + destruct (extend_link l tb e) as [tb1|] eqn:E; cbn [bind];
        [|discriminate].
      intros H. rewrite (IH _ H).
      apply extend_step in E as [_ [[-> _]|[-> _]]]; [reflexivity|].
      apply set_interface_link_keys.
Qed.

Lemma commit_keys (cd : Dict.t connection_dict_t) (tb tb' : Testbed) :
  _write_connections_to_testbed cd tb = Ok tb' ->
  Dict.keys (devices tb') = Dict.keys (devices tb).
Proof.
  unfold _write_connections_to_testbed.
  revert tb; induction cd as [|d cd IH]; intros tb; cbn [foldM].
  - now intros [= <-].
  - destruct (commit_device tb d) as [tb1|] eqn:E; cbn [bind]; [|discriminate].
    intros H. rewrite (IH _ H). clear IH H. revert E. unfold commit_device.
    generalize (snd d) as items. intros items.
    revert tb; induction items as [|item items IH]; intros tb; cbn [foldM].
    + now intros [= <-].
    + destruct (commit_interface (fst d) tb item) as [tb2|] eqn:E;
        cbn [bind]; [|discriminate].
      intros H. rewrite (IH _ H). eapply commit_interface_keys; eauto.
Qed.

Lemma write_proxy_chain_devices (finder_name : str) (tb tb' : Testbed)
    (credentials : Credentials) (ip : list str) (p : proxy) :
  write_proxy_chain finder_name tb credentials ip = Ok (p, tb') ->
  devices tb' = devices tb /\ links tb' = links tb.
Proof.
  unfold write_proxy_chain.
  destruct (Dict.item finder_name (devices tb)) as [dev|] eqn:E; cbn [bind];
    [|discriminate].
  destruct (Dict.item "default" credentials) as [default|]; cbn [bind];
    [|discriminate].
  destruct (Dict.item "username" default) as [user|]; cbn [bind];
    [|discriminate].
  destruct (first_ssh_proxy (dev_connections dev))
    as [[[[name|chain] conn_ip]|]|]; cbn [bind]; [| | |discriminate].
  - intros [= _ <-]. now split.
  - destruct (set_last_command _ _) as [steps'|]; cbn [bind];
      [|discriminate].
    intros [= _ <-]. now split.
  - intros [= _ <-]. now split.
Qed.

Lemma write_proxy_chain_keys (finder_name : str) (tb tb' : Testbed)
    (credentials : Credentials) (ip : list str) (p : proxy) :
  write_proxy_chain finder_name tb credentials ip = Ok (p, tb') ->
  Dict.keys (devices tb') = Dict.keys (devices tb).
Proof.
  intros H. apply write_proxy_chain_devices in H as [-> _]. reflexivity.
Qed.

(** ** The names in [device_list] come from the reports *)

Lemma set_keys_incl {V} (k : str) (v : V) (d : Dict.t V) :
  incl (Dict.keys (Dict.set k v d)) (k :: Dict.keys d).
Proof.
  rewrite keys_set. destruct (Dict.mem k d).
  - apply incl_tl, incl_refl.
  - intros x Hx. apply in_app_or in Hx as [Hx|[<-|[]]]; [now right|now left].
Qed.

Lemma keys_incl_set {V} (k : str) (v : V) (d : Dict.t V) :
  incl (Dict.keys d) (Dict.keys (Dict.set k v d)).
Proof.
  rewrite keys_set. destruct (Dict.mem k d); [apply incl_refl|].
  apply incl_appl, incl_refl.
Qed.

Section Names.
Variable U : list str.

Lemma add_to_device_list_names (dl : device_list_t) (h p : str)
    (ia : list str) (ma : list (option str)) (os : option str) (dn : str) :
  incl (Dict.keys dl) U -> In h U ->
  incl (Dict.keys (add_to_device_list dl h p ia ma os dn)) U.
Proof.
  intros Hdl Hh. unfold add_to_device_list.
  destruct (Dict.get h dl);
    (eapply incl_tran; [apply set_keys_incl|]);
    (intros x [<-|Hx]; [assumption|now apply Hdl]).
Qed.

Lemma process_cdp_entry_names (cfg : Config) (nets : list network)
    (tb : Testbed) (name : str) (st st' : merge_state) (c : cdp_entry) :
  incl (Dict.keys (fst st)) U ->
  incl (cdp_names [c]) U ->
  process_cdp_entry cfg nets tb name st c = Ok st' ->
  incl (Dict.keys (fst st')) U.
Proof.
  intros Hdl Hc. unfold process_cdp_entry, cdp_names in *. cbn in Hc.
  destruct (cdp_raw_host c) as [raw|]; cbn [of_option bind]; [|discriminate].
  assert (Hraw : In (normalize raw) U) by (apply Hc; now left).
  destruct (only_links cfg && _); [now intros [= <-]|].
  destruct (contains (local_interface c) _); [now intros [= <-]|].
  destruct (contains (port_id c) _); [now intros [= <-]|].
  destruct (management_addresses c) as [mgmt|]; cbn [of_option bind];
    [|discriminate].
  destruct (interface_addresses c) as [ints|]; cbn [of_option bind];
    [|discriminate].
  destruct (product_excluded (set_of_list ints) nets) as [s1|]; cbn [bind];
    [|discriminate].
  destruct (product_excluded (set_of_list mgmt) nets) as [s2|]; cbn [bind];
    [|discriminate].
  destruct (s1 || s2); intros [= <-]; [assumption|].
  cbn [fst]. now apply add_to_device_list_names.
Qed.

Lemma process_cdp_names (cfg : Config) (nets : list network) (tb : Testbed)
    (name : str) (entries : list cdp_entry) (st st' : merge_state) :
  incl (Dict.keys (fst st)) U ->
  incl (cdp_names entries) U ->
  _process_cdp_information cfg nets tb name entries st = Ok st' ->
  incl (Dict.keys (fst st')) U.
Proof.
  unfold _process_cdp_information.
  revert st; induction entries as [|c entries IH]; intros st Hdl Hn;
    cbn [foldM].
  - now intros [= <-].
  - destruct (process_cdp_entry cfg nets tb name st c) as [st1|] eqn:E;
      cbn [bind]; [|discriminate].
    unfold cdp_names in Hn. cbn [flat_map] in Hn.
    apply IH.
    + eapply process_cdp_entry_names; eauto.
      unfold cdp_names. cbn [flat_map]. rewrite app_nil_r.
      eapply incl_tran; [|exact Hn]. apply incl_appl, incl_refl.
    + eapply incl_tran; [|exact Hn]. apply incl_appr, incl_refl.
Qed.

Lemma process_lldp_port_names (cfg : Config) (nets : list network)
    (tb : Testbed) (name interface : str) (st st' : merge_state)
    (port : str * Dict.t lldp_neighbor) :
  incl (Dict.keys (fst st)) U ->
  incl (lldp_port_names [port]) U ->
  process_lldp_port cfg nets tb name interface st port = Ok st' ->
  incl (Dict.keys (fst st')) U.
Proof.
  intros Hdl Hp. unfold process_lldp_port, lldp_port_names in *.
  destruct port as [dest_port neighbors]. cbn [fst snd flat_map] in *.
  destruct neighbors as [|[dest_host neighbor] others]; [discriminate|].
  assert (Hh : In (normalize dest_host) U) by (apply Hp; now left).
  destruct (only_links cfg && _); [now intros [= <-]|].
  destruct (contains interface _); [now intros [= <-]|].
  destruct (contains dest_port _); [now intros [= <-]|].
  destruct (lldp_excluded nets _) as [stop|]; cbn [bind]; [|discriminate].
  destruct stop; [now intros [= <-]|].
  destruct (system_description neighbor); cbn [of_option bind];
    [|discriminate].
  intros [= <-]. cbn [fst]. now apply add_to_device_list_names.
Qed.

Lemma process_lldp_ports_names (cfg : Config) (nets : list network)
    (tb : Testbed) (name interface : str)
    (ports : Dict.t (Dict.t lldp_neighbor)) (st st' : merge_state) :
  incl (Dict.keys (fst st)) U ->
  incl (lldp_port_names ports) U ->
  foldM (process_lldp_port cfg nets tb name interface) ports st = Ok st' ->
  incl (Dict.keys (fst st')) U.
Proof.
  revert st; induction ports as [|port ports IH]; intros st Hdl Hn;
    cbn [foldM].
  - now intros [= <-].
  - destruct (process_lldp_port cfg nets tb name interface st port)
      as [st1|] eqn:E; cbn [bind]; [|discriminate].
    unfold lldp_port_names in Hn. cbn [flat_map] in Hn.
    apply IH.
    + eapply process_lldp_port_names; eauto.
      unfold lldp_port_names. cbn [flat_map]. rewrite app_nil_r.
      eapply incl_tran; [|exact Hn]. apply incl_appl, incl_refl.
    + eapply incl_tran; [|exact Hn]. apply incl_appr, incl_refl.
Qed.

Lemma process_lldp_names (cfg : Config) (nets : list network) (tb : Testbed)
    (name : str) (parsed : lldp_result) (st st' : merge_state) :
  incl (Dict.keys (fst st)) U ->
  incl (lldp_names parsed) U ->
  _process_lldp_information cfg nets tb name parsed st = Ok st' ->
  incl (Dict.keys (fst st')) U.
Proof.
  unfold _process_lldp_information, lldp_names.
  generalize (interfaces parsed) as items. intros items.
  revert st; induction items as [|item items IH]; intros st Hdl Hn;
    cbn [foldM]; cbv beta.
  - now intros [= <-].
  - lazymatch goal with
    | |- bind ?m _ = _ -> _ =>
        destruct m as [st1|] eqn:E; cbn [bind]; [|discriminate]
    end.
    cbn [flat_map] in Hn. apply IH.
    + eapply process_lldp_ports_names; eauto.
      eapply incl_tran; [|exact Hn]. apply incl_appl, incl_refl.
    + eapply incl_tran; [|exact Hn]. apply incl_appr, incl_refl.
Qed.

Lemma get_device_connections_names (cfg : Config) (nets : list network)
    (tb tb' : Testbed) (name : str) (data : neighbor_data)
    (dl dl' : device_list_t) (cd : connection_dict_t) :
  incl (Dict.keys dl) U ->
  incl (reported_names data) U ->
  get_device_connections cfg nets tb name data dl = Ok (cd, dl', tb') ->
  incl (Dict.keys dl') U
  /\ Dict.keys (devices tb') = Dict.keys (devices tb).
Proof.
  intros Hdl Hn. unfold get_device_connections, reported_names in *.
  set (st0 := (dl, []) : merge_state).
  assert (H0 : incl (Dict.keys (fst st0)) U) by exact Hdl.
  clearbody st0.
  destruct (match cdp data with
            | Some parsed => _process_cdp_information cfg nets tb name parsed st0
            | None => Ok st0
            end) as [st1|] eqn:E1; cbn [bind]; [|discriminate].
  assert (H1 : incl (Dict.keys (fst st1)) U).
  { destruct (cdp data) as [entries|].
    - eapply process_cdp_names; eauto.
      eapply incl_tran; [|exact Hn]. apply incl_appl, incl_refl.
    - now injection E1 as <-. }
  destruct (match lldp data with
            | Some parsed =>
                if negb (Z.eqb (total_entries parsed) 0)
                then _process_lldp_information cfg nets tb name parsed st1
                else Ok st1
            | None => Ok st1
            end) as [st2|] eqn:E2; cbn [bind]; [|discriminate].
  assert (H2 : incl (Dict.keys (fst st2)) U).
  { destruct (lldp data) as [parsed|].
    - destruct (negb _).
      + eapply process_lldp_names; eauto.
        eapply incl_tran; [|exact Hn]. apply incl_appr, incl_refl.
      + now injection E2 as <-.
    - now injection E2 as <-. }
  destruct (foldM (ensure_interface_on name) _ tb) as [tb1|] eqn:E3;
    cbn [bind]; [|discriminate].
  intros [= <- <- <-]. split; [assumption|].
  eapply ensure_interfaces_keys; eauto.
Qed.
End Names.

(** ** Marking the unvisited devices *)

Lemma pcall_ok (dev_to_test called : list str) :
  pcall dev_to_test = Ok called -> called = dev_to_test /\ dev_to_test <> [].
Proof.
  destruct dev_to_test; [discriminate|]. intros [= <-]. now split.
Qed.

Ltac called_devices todo :=
  let called := fresh "called" in
  let E := fresh "Epc" in
  destruct (pcall todo) as [called|] eqn:E; cbn [bind]; [|discriminate];
  apply pcall_ok in E; destruct E as [-> ?].

Lemma mark_devices_spec (keys : list str) (acc : list str * list str) :
  let r := fold_left mark_device keys acc in
  incl (fst acc) (fst r)
  /\ (forall d, In d keys -> In d (fst r))
  /\ (forall d, In d (fst r) -> In d (fst acc) \/ In d keys)
  /\ (NoDup (fst acc) -> NoDup (fst r))
  /\ (forall d, In d (snd r) <->
                In d (snd acc) \/ (In d keys /\ ~ In d (fst acc))).
Proof.
  revert acc; induction keys as [|k keys IH]; intros acc; cbn [fold_left].
  - split; [apply incl_refl|]. split; [contradiction|]. split; [now left|].
    split; [trivial|]. intros d. split; [now left|]. now intros [H|[[] _]].
  - destruct (IH (mark_device acc k)) as (H1 & H2 & H3 & H4 & H5).
    unfold mark_device in *. unfold set_mem_str, set_add_str in *.
    destruct (set_mem string_dec k (fst acc)) eqn:Em.
    + apply set_mem_correct1 in Em.
      split; [assumption|]. split; [|split; [|split; [assumption|]]].
      * intros d [<-|Hd]; [now apply H1|now apply H2].
      * intros d Hd. destruct (H3 d Hd); [now left|right; now right].
      * intros d. rewrite H5. split.
        -- intros [H|[Hk Hn]]; [now left|right]. split; [now right|assumption].
        -- intros [H|[[<-|Hk] Hn]]; [now left|contradiction|right; now split].
    + apply set_mem_complete1 in Em. cbn [fst snd] in *.
      split; [|split; [|split; [|split]]].
      * intros d Hd. apply H1. now apply set_add_intro1.
      * intros d [<-|Hd]; [apply H1; now apply set_add_intro2|now apply H2].
      * intros d Hd. destruct (H3 d Hd) as [H|H]; [|right; now right].
        apply set_add_elim in H as [->|H]; [right; now left|now left].
      * intros Hnd. apply H4. now apply set_add_nodup.
      * intros d. rewrite H5, in_app_iff. cbn [In]. split.
        -- intros [[H|[<-|[]]]|[Hk Hn]].
           ++ now left.
           ++ right. split; [now left|assumption].
           ++ right. split; [now right|].
              intros Hin. apply Hn. now apply set_add_intro1.
        -- intros [H|[[<-|Hk] Hn]].
           ++ left. now left.
           ++ left. right. now left.
           ++ destruct (string_dec d k) as [->|Hne].
              ** left. right. now left.
              ** right. split; [assumption|].
                 intros Hin. apply set_add_elim in Hin as [->|Hin];
                   [now apply Hne|now apply Hn].
Qed.

Lemma mark_unvisited_spec (tb : Testbed) (visited : list str) :
  let keys := Dict.keys (devices tb) in
  let r := mark_unvisited tb visited in
  incl visited (fst r)
  /\ (forall d, In d keys -> In d (fst r))
  /\ (forall d, In d (fst r) -> In d visited \/ In d keys)
  /\ (NoDup visited -> NoDup (fst r))
  /\ (forall d, In d (snd r) <-> In d keys /\ ~ In d visited).
Proof.
  intros keys r.
  destruct (mark_devices_spec keys (visited, [])) as (H1 & H2 & H3 & H4 & H5).
  split; [exact H1|]. split; [exact H2|]. split; [exact H3|].
  split; [exact H4|]. intros d. specialize (H5 d). cbn [fst snd] in H5.
  subst r keys. unfold mark_unvisited. rewrite H5.
  split; [now intros [[]|H]|now right].
Qed.

(** ** New devices *)

Lemma attach_interfaces_name (ports : list str) (dev dev' : Device) :
  foldM attach_interface ports dev = Ok dev' -> dev_name dev' = dev_name dev.
Proof.
  revert dev; induction ports as [|p ports IH]; intros dev; simpl.
  - now intros [= <-].
  - unfold attach_interface at 1.
    destruct (interface_type p) as [t|e]; [|discriminate]. cbn [bind].
    intros H. now rewrite (IH _ H).
Qed.

Lemma create_device_spec (proxy_set : list str) (st st' : wd_state)
    (new_dev : str) (rec : discovered) :
  create_device proxy_set st new_dev rec = Ok st' ->
  Dict.keys (devices (wd_testbed st')) = Dict.keys (devices (wd_testbed st))
  /\ exists dev, dev_name dev = new_dev
                 /\ wd_new_devices st' = Dict.set new_dev dev (wd_new_devices st).
Proof.
  unfold create_device.
  destruct (Dict.item _ _) as [finder_dev|]; cbn [bind]; [|discriminate].
  destruct (snd (dl_finder rec)) as [|a addrs].
  - cbn [bind].
    destruct (foldM attach_interface _ _) as [dev|] eqn:E; cbn [bind];
      [|discriminate].
    intros [= <-]. cbn [wd_testbed wd_new_devices]. split; [reflexivity|].
    exists dev. split; [|reflexivity].
    now rewrite (attach_interfaces_name _ _ E).
  - destruct (write_proxy_chain _ _ _ _) as [[finder_proxy tb]|] eqn:Ew;
      cbn [bind]; [|discriminate].
    destruct (after_loop _ _) as [ip|]; cbn [of_option bind]; [|discriminate].
    destruct (foldM attach_interface _ _) as [dev|] eqn:E; cbn [bind];
      [|discriminate].
    intros [= <-]. cbn [wd_testbed wd_new_devices].
    split; [eapply write_proxy_chain_keys; eauto|].
    exists dev. split; [|reflexivity].
    now rewrite (attach_interfaces_name _ _ E).
Qed.

Lemma reconcile_interfaces_keys (cfg : Config) (env : Env) (tb tb' : Testbed)
    (new_dev : str) (rec : discovered) :
  reconcile_interfaces cfg env tb new_dev rec = Ok tb' ->
  Dict.keys (devices tb') = Dict.keys (devices tb).
Proof.
  unfold reconcile_interfaces. destruct (negb _).
  - apply ensure_interfaces_keys.
  - destruct (match show_interfaces_description env new_dev with
              | Ok l => Ok l
              | Raise _ => show_interface_description env new_dev
              end) as [l|]; cbn [bind]; [|discriminate].
    apply ensure_interfaces_keys.
Qed.

Lemma in_set {V} (k k0 : str) (v v0 : V) (d : Dict.t V) :
  In (k, v) (Dict.set k0 v0 d) -> (k = k0 /\ v = v0) \/ In (k, v) d.
Proof.
  induction d as [|[k' v'] d IH]; cbn.
  - intros [[= <- <-]|[]]. now left.
  - destruct (String.eqb k0 k') eqn:E; cbn.
    + apply String.eqb_eq in E. subst.
      intros [[= <- <-]|H]; [now left|right; now right].
    + intros [H|H]; [right; now left|].
      destruct (IH H); [now left|right; now right].
Qed.

Lemma write_devices_spec (cfg : Config) (env : Env) (proxy_set : list str)
    (dl : device_list_t) (tb tb' : Testbed) (nd : Dict.t Device) :
  _write_devices_into_testbed cfg env proxy_set dl tb = Ok (nd, tb') ->
  Dict.keys (devices tb') = Dict.keys (devices tb)
  /\ filed_by_name nd
  /\ incl (Dict.keys nd) (Dict.keys dl).
Proof.
  unfold _write_devices_into_testbed.
  set (st0 := {| wd_testbed := tb; wd_new_devices := []; wd_ip := None |}).
  assert (H0 : Dict.keys (devices (wd_testbed st0)) = Dict.keys (devices tb)
               /\ filed_by_name (wd_new_devices st0)
               /\ incl (Dict.keys (wd_new_devices st0)) []).
  { split; [reflexivity|]. split; [intros k d []|apply incl_refl]. }
  destruct (foldM _ dl st0) as [st|] eqn:E; cbn [bind]; [|discriminate].
  intros [= <- <-].
  assert (G : Dict.keys (devices (wd_testbed st)) = Dict.keys (devices tb)
              /\ filed_by_name (wd_new_devices st)
              /\ incl (Dict.keys (wd_new_devices st)) ([] ++ Dict.keys dl)).
  { clearbody st0. revert st0 H0 E. generalize (@nil str) as seen.
    induction dl as [|[new_dev rec] dl IH]; intros seen st0 (A & B & C);
      cbn [foldM].
    - intros [= <-]. rewrite app_nil_r. auto.
    - destruct (write_device cfg env proxy_set st0 (new_dev, rec))
        as [st1|] eqn:E1; cbn [bind]; [|discriminate].
      intros H. cbn [Dict.keys map fst].
      assert (G1 : Dict.keys (devices (wd_testbed st1))
                   = Dict.keys (devices tb)
                   /\ filed_by_name (wd_new_devices st1)
                   /\ incl (Dict.keys (wd_new_devices st1))
                           (seen ++ [new_dev])).
      { unfold write_device in E1. cbn [fst snd] in E1.
        destruct (negb _).
        - apply create_device_spec in E1 as [K [dev [Hn Hs]]].
          rewrite K, Hs. split; [assumption|]. split.
          + intros k d Hin. apply in_set in Hin as [[-> ->]|Hin]; auto.
          + eapply incl_tran; [apply set_keys_incl|].
            intros x [<-|Hx]; apply in_or_app; [right; now left|left; auto].
        - destruct (reconcile_interfaces _ _ _ _ _) as [tb1|] eqn:Er;
            cbn [bind] in E1; [|discriminate].
          injection E1 as <-. cbn [wd_testbed wd_new_devices].
          rewrite (reconcile_interfaces_keys _ _ _ _ _ Er).
          split; [assumption|]. split; [assumption|].
          apply incl_appl. assumption. }
      specialize (IH (seen ++ [new_dev]) st1 G1 H).
      rewrite <- app_assoc in IH. exact IH. }
  exact G.
Qed.

Lemma fold_set_keys_incl {X V} (key : X -> str) (val : X -> V)
    (xs : list X) (d : Dict.t V) :
  incl (Dict.keys d)
       (Dict.keys (fold_left (fun d x => Dict.set (key x) (val x) d) xs d))
  /\ incl (Dict.keys (fold_left (fun d x => Dict.set (key x) (val x) d) xs d))
          (Dict.keys d ++ map key xs).
Proof.
  revert d; induction xs as [|x xs IH]; intros d; cbn [fold_left map].
  - rewrite app_nil_r. split; apply incl_refl.
  - destruct (IH (Dict.set (key x) (val x) d)) as [H1 H2]. split.
    + eapply incl_tran; [apply keys_incl_set|exact H1].
    + eapply incl_tran; [exact H2|].
      intros y Hy. apply in_app_or in Hy as [Hy|Hy].
      * apply set_keys_incl in Hy as [<-|Hy]; apply in_or_app;
          [right; now left|now left].
      * apply in_or_app. right. now right.
Qed.

Lemma filed_names (nd : Dict.t Device) :
  filed_by_name nd -> map dev_name (Dict.values nd) = Dict.keys nd.
Proof.
  unfold Dict.values, Dict.keys. induction nd as [|[k d] nd IH]; intros H;
    [reflexivity|].
  cbn [map fst snd]. rewrite (H k d) by now left.
  f_equal. apply IH. intros k' d' Hin. apply H. now right.
Qed.

Lemma add_devices_keys (nd : Dict.t Device) (tb : Testbed) :
  filed_by_name nd ->
  incl (Dict.keys (devices tb)) (Dict.keys (devices (add_devices nd tb)))
  /\ incl (Dict.keys (devices (add_devices nd tb)))
          (Dict.keys (devices tb) ++ Dict.keys nd)
  /\ (NoDup (Dict.keys (devices tb)) ->
      NoDup (Dict.keys (devices (add_devices nd tb)))).
Proof.
  intros Hf. unfold add_devices. cbn [devices with_devices].
  destruct (fold_set_keys_incl dev_name (fun d => d) (Dict.values nd)
              (devices tb)) as [H1 H2].
  rewrite (filed_names Hf) in H2.
  split; [exact H1|]. split; [exact H2|]. apply fold_set_nodup.
Qed.

(** ** One round *)

Lemma process_devices_spec (cfg : Config) (env : Env) (nets : list network)
    (todo : list str)
    (acc acc' : Dict.t connection_dict_t * device_list_t * Testbed) :
  foldM (process_device cfg env nets) todo acc = Ok acc' ->
  Dict.keys (devices (snd acc')) = Dict.keys (devices (snd acc))
  /\ forall U,
       (forall device, incl (reported_names (get_neighbor_info env device)) U) ->
       incl (Dict.keys (snd (fst acc))) U ->
       incl (Dict.keys (snd (fst acc'))) U.
Proof.
  revert acc; induction todo as [|device todo IH]; intros acc; cbn [foldM].
  - intros [= <-]. auto.
  - destruct (process_device cfg env nets acc device) as [acc1|] eqn:E;
      cbn [bind]; [|discriminate].
    intros H. destruct (IH _ H) as [K1 K2]. clear IH H.
    destruct acc as [[cd dl] tb]. unfold process_device in E.
    destruct (get_device_connections _ _ _ _ _ _) as [[[c dl1] tb1]|] eqn:Eg;
      cbn [bind] in E; [|discriminate].
    injection E as <-. cbn [fst snd] in *. split.
    + rewrite K1.
      destruct (@get_device_connections_names (Dict.keys dl ++ reported_names
                  (get_neighbor_info env device)) _ _ _ _ _ _ _ _ _
                  (incl_appl _ (incl_refl _)) (incl_appr _ (incl_refl _)) Eg)
        as [_ K]. exact K.
    + intros U Hu Hdl. apply K2; [assumption|].
      destruct (@get_device_connections_names U _ _ _ _ _ _ _ _ _
                  Hdl (Hu device) Eg) as [K _]. exact K.
Qed.

Lemma round_spec (cfg : Config) (env : Env) (nets : list network)
    (proxy_set : list str) (st st' : run_state) :
  discovery_round cfg env nets proxy_set st = Ok st' ->
  rs_visited st' = fst (mark_unvisited (rs_testbed st) (rs_visited st))
  /\ incl (Dict.keys (devices (rs_testbed st)))
          (Dict.keys (devices (rs_testbed st')))
  /\ (NoDup (Dict.keys (devices (rs_testbed st))) ->
      NoDup (Dict.keys (devices (rs_testbed st'))))
  /\ forall U,
       (forall device, incl (reported_names (get_neighbor_info env device)) U) ->
       incl (Dict.keys (rs_device_list st)) U ->
       incl (Dict.keys (devices (rs_testbed st')))
            (Dict.keys (devices (rs_testbed st)) ++ U)
       /\ incl (Dict.keys (rs_device_list st')) U.
Proof.
  unfold discovery_round, process_neigbor_data.
  destruct (mark_unvisited (rs_testbed st) (rs_visited st))
    as [visited todo] eqn:Em.
  called_devices todo.
  destruct (foldM (process_device cfg env nets) todo _)
    as [[[cd dl] tb1]|] eqn:Ep; cbn [bind]; [|discriminate].
  cbn [rs_testbed rs_visited rs_device_list].
  destruct (_write_devices_into_testbed cfg env proxy_set dl tb1)
    as [[nd tb2]|] eqn:Ew; cbn [bind]; [|discriminate].
  destruct (_write_connections_to_testbed cd (add_devices nd tb2))
    as [tb4|] eqn:Ec; cbn [bind]; [|discriminate].
  intros [= <-]. cbn [rs_testbed rs_visited rs_device_list fst].
  apply process_devices_spec in Ep as [K1 K1']. cbn [fst snd] in K1, K1'.
  apply write_devices_spec in Ew as (K2 & Hf & Hnd).
  apply commit_keys in Ec.
  destruct (add_devices_keys tb2 Hf) as (A1 & A2 & A3).
  rewrite Ec. rewrite K2, K1 in A1, A2, A3.
  split; [reflexivity|]. split; [exact A1|]. split; [exact A3|].
  intros U Hu Hdl. specialize (K1' U Hu Hdl). split; [|exact K1'].
  eapply incl_tran; [exact A2|].
  apply incl_app; [apply incl_appl, incl_refl|].
  apply incl_appr. eapply incl_tran; eauto.
Qed.

Lemma round_invariant (cfg : Config) (env : Env) (nets : list network)
    (proxy_set : list str) (st st' : run_state) :
  loop_invariant st ->
  discovery_round cfg env nets proxy_set st = Ok st' ->
  loop_invariant st'
  /\ incl (rs_visited st) (rs_visited st')
  /\ List.length (Dict.keys (devices (rs_testbed st)))
     <= List.length (rs_visited st').
Proof.
  intros (I1 & I2 & I3) H. apply round_spec in H as (R1 & R2 & R3 & _).
  destruct (mark_unvisited_spec (rs_testbed st) (rs_visited st))
    as (M1 & M2 & M3 & M4 & _).
  rewrite <- R1 in M1, M2, M3, M4. split; [|split].
  - split; [auto|]. split; [auto|].
    intros d Hd. apply R2. destruct (M3 d Hd); auto.
  - exact M1.
  - apply NoDup_incl_length; assumption.
Qed.

Lemma exit_iff_all_visited (st : run_state) :
  loop_invariant st -> (unvisited_left st = false <-> all_visited st).
Proof.
  intros (I1 & I2 & I3). unfold unvisited_left, all_visited.
  rewrite Nat.ltb_ge. split.
  - intros Hlen. now apply NoDup_length_incl.
  - intros Hall. now apply NoDup_incl_length.
Qed.

(** The loop returns once its fuel exceeds the number of names there can
    be, and it has then run no more rounds than there are devices. *)
Lemma loop_spec (cfg : Config) (env : Env) (nets : list network)
    (proxy_set : list str) (U keys0 : list str) :
  only_links cfg = false ->
  (forall device, incl (reported_names (get_neighbor_info env device)) U) ->
  forall fuel rounds st,
    loop_invariant st ->
    incl (Dict.keys (rs_device_list st)) U ->
    incl (Dict.keys (devices (rs_testbed st))) (keys0 ++ U) ->
    rounds <= List.length (rs_visited st) ->
    List.length keys0 + List.length U < fuel + rounds ->
    match discovery_loop cfg env nets proxy_set fuel rounds st with
    | OutOfFuel => False
    | Failed _ _ => True
    | Finished st' r =>
        r <= List.length (Dict.keys (devices (rs_testbed st')))
        /\ all_visited st'
    end.
Proof.
  intros Hol Hu. induction fuel as [|fuel IH];
    intros rounds st Hinv Hdl Hk Hr Hf.
  - destruct Hinv as (I1 & I2 & I3).
    pose proof (NoDup_incl_length I2 I3).
    pose proof (NoDup_incl_length I1 Hk) as Hb. rewrite length_app in Hb.
    cbn in Hf. lia.
  - cbn [discovery_loop]. destruct (unvisited_left st) eqn:Eu.
    + destruct (discovery_round cfg env nets proxy_set st) as [st'|e] eqn:Er;
        [|exact I].
      rewrite Hol.
      destruct (@round_invariant _ _ _ _ _ _ Hinv Er) as (Hinv' & _ & Hlen).
      destruct (@round_spec _ _ _ _ _ _ Er) as (_ & _ & _ & Hn).
      destruct (Hn U Hu Hdl) as [Hk' Hdl'].
      unfold unvisited_left in Eu. apply Nat.ltb_lt in Eu.
      apply IH; try assumption; try lia.
      eapply incl_tran; [exact Hk'|].
      apply incl_app; [assumption|apply incl_appr, incl_refl].
    + pose proof (proj1 (@exit_iff_all_visited st Hinv) Eu) as Hall.
      split; [|assumption].
      destruct Hinv as (I1 & I2 & I3).
      pose proof (NoDup_incl_length I2 I3). lia.
Qed.

(** C9.  Without links-only mode the discovery loop terminates.  Each
    round first marks every graph device visited (the devices it then
    fetches are the ones that were not visited before), so the visited set
    only grows; the loop condition fails exactly when every graph device
    is visited; and when the names the devices can report lie in a finite
    universe, the loop returns (with an error or with its final state)
    within as many rounds as there are names, having run no more rounds
    than the graph has devices at the end. *)
Theorem discovery_loop_terminates (cfg : Config) (env : Env)
    (nets : list network) (proxy_set : list str) (U : list str)
    (tb : Testbed) :
  only_links cfg = false ->
  NoDup (Dict.keys (devices tb)) ->
  (forall device, incl (reported_names (get_neighbor_info env device)) U) ->
  (forall st,
     let r := mark_unvisited (rs_testbed st) (rs_visited st) in
     incl (rs_visited st) (fst r)
     /\ (forall d, In d (Dict.keys (devices (rs_testbed st))) -> In d (fst r))
     /\ (forall d, In d (snd r) <->
                   In d (Dict.keys (devices (rs_testbed st)))
                   /\ ~ In d (rs_visited st)))
  /\ (forall st st',
        discovery_round cfg env nets proxy_set st = Ok st' ->
        rs_visited st' = fst (mark_unvisited (rs_testbed st) (rs_visited st))
        /\ incl (rs_visited st) (rs_visited st')
        /\ (loop_invariant st -> loop_invariant st'))
  /\ loop_invariant (initial_state tb)
  /\ (forall st, loop_invariant st ->
        (unvisited_left st = false <-> all_visited st))
  /\ (forall fuel,
        List.length (Dict.keys (devices tb)) + List.length U < fuel ->
        match discovery_loop cfg env nets proxy_set fuel 0 (initial_state tb)
        with
        | OutOfFuel => False
        | Failed _ _ => True
        | Finished st rounds =>
            rounds <= List.length (Dict.keys (devices (rs_testbed st)))
            /\ all_visited st
        end).
Proof.
  intros Hol Hnd Hu.
  assert (Hinit : loop_invariant (initial_state tb)).
  { split; [exact Hnd|]. split; [constructor|intros d []]. }
  split; [|split; [|split; [|split]]].
  - intros st r.
    destruct (mark_unvisited_spec (rs_testbed st) (rs_visited st))
      as (M1 & M2 & _ & _ & M5). auto.
  - intros st st' H.
    destruct (@round_spec _ _ _ _ _ _ H) as (R1 & _).
    destruct (mark_unvisited_spec (rs_testbed st) (rs_visited st))
      as (M1 & _). rewrite <- R1 in M1.
    split; [exact R1|]. split; [exact M1|].
    intros Hinv. now destruct (@round_invariant _ _ _ _ _ _ Hinv H).
  - exact Hinit.
  - intros st. apply exit_iff_all_visited.
  - intros fuel Hfuel.
    apply (@loop_spec cfg env nets proxy_set U (Dict.keys (devices tb)) Hol Hu);
      try assumption.
    + intros d [].
    + apply incl_appl, incl_refl.
    + apply Nat.le_0_l.
    + lia.
Qed.

Lemma discovery_loop_terminates_witness :
  exists st,
    discovery_loop (no_exclusions false) env_edge1 [] [] 3 0
                   (initial_state testbed_A) = Finished st 2
    /\ all_visited st.
Proof.
  assert (Hu : forall device,
             incl (reported_names (get_neighbor_info env_edge1 device))
                  ["edge1"]).
  { intros device. cbn [get_neighbor_info env_edge1].
    destruct (String.eqb device "A"); intros x Hx; vm_compute in Hx.
    - destruct Hx as [<-|[]]. now left.
    - contradiction. }
  assert (Hnd : NoDup (Dict.keys (devices testbed_A)))
    by (repeat constructor; intros []).
  destruct (@discovery_loop_terminates (no_exclusions false) env_edge1 [] []
              ["edge1"] testbed_A eq_refl Hnd Hu) as (_ & _ & _ & _ & H).
  specialize (H 3 ltac:(cbn; lia)).
  remember (discovery_loop (no_exclusions false) env_edge1 [] [] 3 0
              (initial_state testbed_A)) as r eqn:Er.
  vm_compute in Er. subst r.
  eexists. split; [reflexivity|]. exact (proj2 H).
Defined.

(* ================================================================== *)
(** * Properties: links-only mode *)

(** The CDP path tests the normalised name: in links-only mode a kept CDP
    entry records a name of the testbed. *)
Lemma cdp_links_only_names (cfg : Config) (nets : list network) (tb : Testbed)
    (name : str) (st st' : merge_state) (c : cdp_entry) :
  only_links cfg = true ->
  process_cdp_entry cfg nets tb name st c = Ok st' ->
  incl (Dict.keys (fst st'))
       (Dict.keys (fst st) ++ Dict.keys (devices tb)).
Proof.
  intros Hol. unfold process_cdp_entry. rewrite Hol. cbn [andb].
  assert (Hsame : incl (Dict.keys (fst st))
                       (Dict.keys (fst st) ++ Dict.keys (devices tb)))
    by apply incl_appl, incl_refl.
  destruct (cdp_raw_host c) as [raw|]; cbn [of_option bind]; [|discriminate].
  destruct (Dict.mem (normalize raw) (devices tb)) eqn:Em; cbn [negb];
    [|now intros [= <-]].
  assert (Hin : In (normalize raw) (Dict.keys (devices tb))).
  { unfold Dict.mem in Em.
    destruct (in_dec string_dec (normalize raw) (Dict.keys (devices tb)))
      as [H|H]; [assumption|].
    apply get_none_keys in H. now rewrite H in Em. }
  destruct (contains (local_interface c) _); [now intros [= <-]|].
  destruct (contains (port_id c) _); [now intros [= <-]|].
  destruct (management_addresses c) as [mgmt|]; cbn [of_option bind];
    [|discriminate].
  destruct (interface_addresses c) as [ints|]; cbn [of_option bind];
    [|discriminate].
  destruct (product_excluded (set_of_list ints) nets) as [s1|]; cbn [bind];
    [|discriminate].
  destruct (product_excluded (set_of_list mgmt) nets) as [s2|]; cbn [bind];
    [|discriminate].
  destruct (s1 || s2); intros [= <-]; [assumption|].
  cbn [fst]. apply add_to_device_list_names; [assumption|].
  apply in_or_app. now right.
Qed.

(** C1 on the code.  In links-only mode, with the devices [A] and
    [sw1.lab] in the testbed, the LLDP report of [A] names its neighbour
    [sw1.lab]: the raw name passes the test against the testbed, the name
    is then normalised to [sw1], and a device [sw1], which is not in the
    initial testbed, is created, added to the graph and written to the
    output.  (The CDP path normalises the name before the test.) *)
Theorem links_only_adds_device :
  only_links (no_exclusions true) = true
  /\ Dict.mem "sw1" (devices testbed_fqdn) = false
  /\ exists st output,
       discovery_loop (no_exclusions true) env_fqdn [] ["jump"] 1 0
                      (initial_state testbed_fqdn) = Finished st 1
       /\ Dict.keys (devices (rs_testbed st)) = ["A"; "sw1.lab"; "sw1"]
       /\ link_members (rs_testbed st) 0 = [("A", "Gi0/1"); ("sw1", "Gi0/2")]
       /\ create_yaml_dict (rs_testbed st) YNull yaml_fqdn = Ok output
       /\ at_path ["devices"; "sw1"; "os"] (YMap output) = Some (YStr "iosxe").
Proof.
  split; [reflexivity|]. split; [reflexivity|].
  do 2 eexists. split; [vm_compute; reflexivity|].
  split; [reflexivity|]. split; [reflexivity|].
  split; [vm_compute; reflexivity|]. reflexivity.
Qed.

(* ================================================================== *)
(** * Further properties: the accumulators of the merger *)

Lemma same_entry_iff (h p : str) (e : conn_entry) :
  same_entry h p e = true <-> e = entry h p.
Proof.
  unfold same_entry, entry. rewrite andb_true_iff, !String.eqb_eq.
  destruct e as [h' p']; cbn. split; [intros [-> ->]|intros [= -> ->]]; auto.
Qed.

Lemma existsb_same_entry (h p : str) (entries : list conn_entry) :
  existsb (same_entry h p) entries = true <-> In (entry h p) entries.
Proof.
  rewrite existsb_exists. split.
  - intros [e [He Hs]]. apply same_entry_iff in Hs. now subst.
  - intros H. exists (entry h p). split; [assumption|now apply same_entry_iff].
Qed.

(** X1.  [add_to_connection_dict] lists the pair under the interface,
    keeps the entries that were there, in their order, adds no duplicate,
    leaves the other interfaces alone, and adding the same pair again
    changes nothing. *)
Theorem add_to_connection_dict_unique (cd : connection_dict_t)
    (h p i : str) :
  exists entries,
    Dict.get i (add_to_connection_dict cd h p i) = Some entries
    /\ In (entry h p) entries
    /\ match Dict.get i cd with
       | Some old =>
           exists more, entries = old ++ more
                        /\ (NoDup old -> NoDup entries)
       | None => entries = [entry h p]
       end
    /\ (forall j, j <> i ->
          Dict.get j (add_to_connection_dict cd h p i) = Dict.get j cd)
    /\ add_to_connection_dict (add_to_connection_dict cd h p i) h p i
       = add_to_connection_dict cd h p i.
Proof.
  unfold add_to_connection_dict at 1 2 4.
  fold (entry h p).
  destruct (Dict.get i cd) as [old|] eqn:E.
  - destruct (existsb (same_entry h p) old) eqn:Ex.
    + exists old. rewrite E. split; [reflexivity|].
      split; [now apply existsb_same_entry|].
      split; [exists []; rewrite app_nil_r; auto|].
      split; [reflexivity|].
      unfold add_to_connection_dict. now rewrite E, Ex.
    + exists (old ++ [entry h p]). rewrite get_set_same.
      split; [reflexivity|].
      split; [apply in_or_app; right; now left|].
      split.
      { exists [entry h p]. split; [reflexivity|]. intros Hnd.
        apply NoDup_app; [assumption|repeat constructor; auto|].
        intros x Hx [<-|[]].
        apply existsb_same_entry in Hx. congruence. }
      split; [intros j Hj; now apply get_set_other|].
      assert (Hin : existsb (same_entry h p) (old ++ [entry h p]) = true).
      { apply existsb_same_entry. apply in_or_app. right. now left. }
      unfold add_to_connection_dict. rewrite E, Ex, get_set_same.
      fold (entry h p). now rewrite Hin.
  - exists [entry h p]. rewrite get_set_same. split; [reflexivity|].
    split; [now left|]. split; [reflexivity|].
    split; [intros j Hj; now apply get_set_other|].
    assert (Hin : existsb (same_entry h p) [entry h p] = true).
    { apply existsb_same_entry. now left. }
    unfold add_to_connection_dict. rewrite E, get_set_same.
    fold (entry h p). now rewrite Hin.
Qed.

Lemma set_union_ostr_spec (s s2 : list (option str)) (x : option str) :
  In x (set_union_ostr s s2) <-> In x s \/ In x s2.
Proof.
  unfold set_union_ostr. revert s; induction s2 as [|y s2 IH]; intros s;
    cbn [fold_left].
  - cbn. tauto.
  - rewrite IH. unfold set_add_ostr. split.
    + intros [H|H]; [|right; now right].
      apply set_add_elim in H as [->|H]; [right; now left|now left].
    + intros [H|[<-|H]].
      * left. now apply set_add_intro1.
      * left. now apply set_add_intro2.
      * now right.
Qed.

(** X2.  [add_to_device_list] files the record under the destination
    host.  For a host already recorded, the finder is kept, the OS is kept
    once it is known, and ports and addresses only grow; for a new host the
    finder is the discovering device, with the interface addresses that are
    not management addresses.  The other hosts are left alone. *)
Theorem add_to_device_list_merge (dl : device_list_t) (h p : str)
    (ia : list str) (ma : list (option str)) (os : option str) (dn : str) :
  exists r,
    Dict.get h (add_to_device_list dl h p ia ma os dn) = Some r
    /\ In p (dl_ports r)
    /\ (forall a, In a ma -> In a (dl_ip r))
    /\ match Dict.get h dl with
       | Some e =>
           dl_finder r = dl_finder e
           /\ (forall o, dl_os e = Some o -> dl_os r = Some o)
           /\ (dl_os e = None -> dl_os r = os)
           /\ incl (dl_ports e) (dl_ports r)
           /\ incl (dl_ip e) (dl_ip r)
       | None =>
           dl_ports r = [p] /\ dl_ip r = ma /\ dl_os r = os
           /\ fst (dl_finder r) = dn
           /\ forall a, In a (snd (dl_finder r)) <->
                        In a ia /\ ~ In (Some a) ma
       end
    /\ forall k, k <> h ->
         Dict.get k (add_to_device_list dl h p ia ma os dn) = Dict.get k dl.
Proof.
  unfold add_to_device_list. destruct (Dict.get h dl) as [e|] eqn:E.
  - eexists. rewrite get_set_same. split; [reflexivity|]. cbn.
    split; [apply set_add_intro2; reflexivity|].
    split; [intros a Ha; apply set_union_ostr_spec; now right|].
    split.
    + split; [reflexivity|]. split; [intros o Ho; now rewrite Ho|].
      split; [intros Ho; now rewrite Ho|]. split.
      * intros x Hx. now apply set_add_intro1.
      * intros x Hx. apply set_union_ostr_spec. now left.
    + intros k Hk. now apply get_set_other.
  - eexists. rewrite get_set_same. split; [reflexivity|]. cbn.
    split; [now left|]. split; [auto|]. split.
    + repeat (split; [reflexivity|]). intros a.
      rewrite filter_In, negb_true_iff. unfold set_mem_ostr. split.
      * intros [Hin Hm]. split; [assumption|].
        intros H. apply (set_mem_correct2 ostr_dec) in H. congruence.
      * intros [Hin Hn]. split; [assumption|].
        destruct (set_mem ostr_dec (Some a) ma) eqn:Em; [|reflexivity].
        apply set_mem_correct1 in Em. contradiction.
    + intros k Hk. now apply get_set_other.
Qed.

(* ================================================================== *)
(** * Further properties: exclusion by network *)

Lemma address_excluded_parsed (ip : str) (a : Z) (nets : list network) :
  IPv4Address ip = Ok a ->
  address_excluded ip nets = Ok (existsb (in_network a) nets).
Proof.
  intros Ha. induction nets as [|net nets IH]; cbn [address_excluded existsb];
    [reflexivity|].
  rewrite Ha. cbn [bind]. destruct (in_network a net); [reflexivity|exact IH].
Qed.

Lemma product_excluded_spec (ips : list str) (nets : list network) :
  product_excluded ips [] = Ok false
  /\ ((forall ip, In ip ips -> exists a, IPv4Address ip = Ok a) ->
      exists b,
        product_excluded ips nets = Ok b
        /\ (b = true <->
            exists ip a net,
              In ip ips /\ In net nets /\ IPv4Address ip = Ok a
              /\ in_network a net = true)).
Proof.
  split.
  - induction ips as [|ip ips IH]; [reflexivity|exact IH].
  - induction ips as [|ip ips IH]; intros Hparse; cbn [product_excluded].
    + exists false. split; [reflexivity|]. split; [discriminate|].
      intros (ip & a & net & [] & _).
    + destruct (Hparse ip (or_introl eq_refl)) as [a Ha].
      rewrite (@address_excluded_parsed ip a nets Ha). cbn [bind].
      destruct (existsb (in_network a) nets) eqn:Ex.
      * exists true. split; [reflexivity|]. split; [|reflexivity].
        intros _. apply existsb_exists in Ex as [net [Hn Hin]].
        exists ip, a, net. repeat split; auto. now left.
      * destruct IH as [b [Hb Hiff]].
        { intros ip' Hip'. apply Hparse. now right. }
        exists b. split; [assumption|]. rewrite Hiff. split.
        -- intros (ip' & a' & net & Hip' & Hn & Ha' & Hin).
           exists ip', a', net. repeat split; auto. now right.
        -- intros (ip' & a' & net & [<-|Hip'] & Hn & Ha' & Hin).
           ++ rewrite Ha in Ha'. injection Ha' as <-.
              assert (existsb (in_network a) nets = true)
                by (apply existsb_exists; eauto).
              congruence.
           ++ exists ip', a', net. repeat split; auto.
Qed.

(** X3.  The address test of the CDP path.  Without excluded networks
    nothing is excluded and no address is even parsed; when the addresses
    parse, the test answers, and it answers yes exactly when some address
    lies in some excluded network, whatever the order of either. *)
Theorem product_excluded_any (ips : list str) (nets : list network) :
  product_excluded ips [] = Ok false
  /\ ((forall ip, In ip ips -> exists a, IPv4Address ip = Ok a) ->
      exists b,
        product_excluded ips nets = Ok b
        /\ (b = true <->
            exists ip a net,
              In ip ips /\ In net nets /\ IPv4Address ip = Ok a
              /\ in_network a net = true)).
Proof. exact (product_excluded_spec ips nets). Qed.

Lemma set_of_list_in (l : list str) (x : str) : In x (set_of_list l) <-> In x l.
Proof.
  unfold set_of_list.
  assert (G : forall acc, In x (fold_left (fun s y => set_add_str y s) l acc)
                          <-> In x acc \/ In x l).
  { induction l as [|y l IH]; intros acc; cbn [fold_left].
    - cbn. tauto.
    - rewrite IH. unfold set_add_str. split.
      + intros [H|H]; [|right; now right].
        apply set_add_elim in H as [->|H]; [right; now left|now left].
      + intros [H|[<-|H]].
        * left. now apply set_add_intro1.
        * left. now apply set_add_intro2.
        * now right. }
  rewrite G. cbn. tauto.
Qed.

(** X4.  A CDP entry one of whose interface or management addresses lies
    in an excluded network leaves [device_list] and [connection_dict] as
    they were: a single match on either set discards the whole entry. *)
Theorem cdp_excluded_address_skips (cfg : Config) (nets : list network)
    (tb : Testbed) (name : str) (st : merge_state) (c : cdp_entry)
    (raw : str) (mgmt ints : list str) :
  cdp_raw_host c = Some raw ->
  management_addresses c = Some mgmt ->
  interface_addresses c = Some ints ->
  (forall ip, In ip (ints ++ mgmt) -> exists a, IPv4Address ip = Ok a) ->
  (exists ip a net,
     In ip (ints ++ mgmt) /\ In net nets /\ IPv4Address ip = Ok a
     /\ in_network a net = true) ->
  process_cdp_entry cfg nets tb name st c = Ok st.
Proof.
  intros Hraw Hm Hi Hparse (ip & a & net & Hip & Hn & Ha & Hin).
  unfold process_cdp_entry. rewrite Hraw, Hm, Hi. cbn [of_option bind].
  destruct (only_links cfg && _); [reflexivity|].
  destruct (contains (local_interface c) _); [reflexivity|].
  destruct (contains (port_id c) _); [reflexivity|].
  destruct (proj2 (product_excluded_spec (set_of_list ints) nets))
    as [b1 [E1 I1]].
  { intros x Hx. apply Hparse. apply in_or_app. left.
    now apply set_of_list_in. }
  destruct (proj2 (product_excluded_spec (set_of_list mgmt) nets))
    as [b2 [E2 I2]].
  { intros x Hx. apply Hparse. apply in_or_app. right.
    now apply set_of_list_in. }
  rewrite E1, E2. cbn [bind].
  assert (Hb : b1 || b2 = true).
  { apply orb_true_iff. apply in_app_or in Hip as [Hip|Hip].
    - left. apply I1. exists ip, a, net. repeat split; auto.
      now apply set_of_list_in.
    - right. apply I2. exists ip, a, net. repeat split; auto.
      now apply set_of_list_in. }
  now rewrite Hb.
Qed.

Lemma cdp_excluded_address_skips_witness :
  process_cdp_entry (no_exclusions false) [net_10_0_0] testbed_A "A" ([], [])
    cdp_edge1 = Ok ([], []).
Proof.
  apply (@cdp_excluded_address_skips (no_exclusions false) [net_10_0_0]
           testbed_A "A" ([], []) cdp_edge1 "edge1.example.com"
           ["10.0.0.5"] ["10.0.0.5"] eq_refl eq_refl eq_refl).
  - intros ip [<-|[<-|[]]]; eexists; reflexivity.
  - exists "10.0.0.5", 167772165%Z, net_10_0_0.
    repeat split; now left.
Defined.

(* ================================================================== *)
(** * Further properties: the OS classifier *)

(** X5.  The classifier answers with a supported operating system or not
    at all, and its answer does not depend on which of its two inputs
    carries the text. *)
Theorem get_os_supported (system_string platform_name : str) :
  (forall os, get_os system_string platform_name = Some os ->
              In os SUPPORTED_OS)
  /\ get_os system_string platform_name = get_os platform_name system_string.
Proof.
  unfold get_os, SUPPORTED_OS. split.
  - intros os.
    destruct (contains "IOS" system_string || contains "IOS" platform_name);
    [destruct (contains "XE" system_string || contains "XE" platform_name);
     [|destruct (contains "XR" system_string || contains "XR" platform_name)]
    |destruct (contains "NX-OS" system_string
               || contains "NX-OS" platform_name)];
      intros [= <-]; cbn; tauto.
  - rewrite (orb_comm (contains "IOS" system_string)),
      (orb_comm (contains "XE" system_string)),
      (orb_comm (contains "XR" system_string)),
      (orb_comm (contains "NX-OS" system_string)).
    reflexivity.
Qed.

(* ================================================================== *)
(** * Further properties: the two patterns *)

Lemma all_chars_app (c : ascii -> bool) (s t : str) :
  all_chars c (s ++ t)%string = all_chars c s && all_chars c t.
Proof.
  induction s as [|a s IH]; cbn; [reflexivity|].
  now rewrite IH, andb_assoc.
Qed.

Section RegexSplits.
Variable R : Type.
Variable c : ascii -> bool.

(** The lazy star hands its continuation a split of the text, and the
    first one, from the left, that the continuation accepts. *)
Lemma lazy_star_first (s : str) (k : str -> str -> option R) (r : R) :
  lazy_star c s k = Some r ->
  exists m rest,
    s = (m ++ rest)%string /\ all_chars c m = true /\ k m rest = Some r
    /\ forall m1 m2, m = (m1 ++ m2)%string -> m2 <> "" ->
                     k m1 (m2 ++ rest)%string = None.
Proof.
  revert k; induction s as [|a s IH]; intros k; cbn [lazy_star].
  - destruct (k "" "") eqn:E; [|discriminate]. intros [= <-].
    exists "", "". repeat split; auto.
    intros m1 m2 H Hne. destruct m1, m2; cbn in H; congruence.
  - destruct (k "" (String a s)) eqn:E.
    + intros [= <-]. exists "", (String a s). repeat split; auto.
      intros m1 m2 H Hne. destruct m1, m2; cbn in H; congruence.
    + destruct (c a) eqn:Ca; [|discriminate].
      intros H. apply IH in H as (m & rest & -> & Hall & Hk & Hmin).
      exists (String a m), rest. cbn. rewrite Ca, Hall.
      repeat split; auto.
      intros m1 m2 H Hne. destruct m1 as [|b m1]; cbn in H.
      * subst m2. exact E.
      * injection H as <- ->. now apply Hmin.
Qed.

Lemma greedy_star_split (s : str) (k : str -> str -> option R) (r : R) :
  greedy_star c s k = Some r ->
  exists m rest,
    s = (m ++ rest)%string /\ all_chars c m = true /\ k m rest = Some r.
Proof.
  revert k; induction s as [|a s IH]; intros k; cbn [greedy_star].
  - intros H. now exists "", "".
  - destruct (c a) eqn:Ca.
    + destruct (greedy_star c s _) eqn:E.
      * intros [= <-]. apply IH in E as (m & rest & -> & Hm & E).
        exists (String a m), rest. cbn. now rewrite Ca, Hm.
      * intros H. now exists "", (String a s).
    + intros H. now exists "", (String a s).
Qed.
End RegexSplits.

Lemma all_chars_splits (c : ascii -> bool) (m : str) :
  (forall m1 b m2, m = (m1 ++ String b m2)%string -> c b = true) ->
  all_chars c m = true.
Proof.
  induction m as [|b m IH]; intros H; cbn; [reflexivity|].
  rewrite (H "" b m eq_refl). cbn. apply IH.
  intros m1 b' m2 E. apply (H (String b m1) b' m2). cbn. now rewrite E.
Qed.

(** X6.  The interface type.  When the pattern matches, the type is the
    text before the first digit that follows the first character,
    lower-cased: a non-empty text without a newline, whose characters
    after the first are not digits.  A name with no digit after its first
    character has no type, and asking for it is a [TypeError]. *)
Theorem interface_type_prefix (s : str) :
  (forall t, interface_filter s = Some t ->
     exists a t' d rest,
       t = String a t' /\ s = (t ++ String d rest)%string
       /\ is_digit d = true /\ all_chars not_digit t' = true
       /\ all_chars is_dot t = true
       /\ interface_type s = Ok (lower t))
  /\ (all_chars not_digit (string_tail s) = true ->
      interface_type s = Raise TypeError).
Proof.
  assert (H1 : forall t, interface_filter s = Some t ->
             exists a t' d rest,
               t = String a t' /\ s = (t ++ String d rest)%string
               /\ is_digit d = true /\ all_chars not_digit t' = true
               /\ all_chars is_dot t = true).
  { intros t. unfold interface_filter, lazy_plus.
    destruct s as [|a s]; [discriminate|].
    destruct (is_dot a) eqn:Da; [|discriminate].
    intros H. apply lazy_star_first in H as (m & rest & -> & Hall & Hk & Hmin).
    unfold lookahead_digit in Hk. destruct rest as [|d rest]; [discriminate|].
    destruct (is_digit d) eqn:Dd; [|discriminate]. injection Hk as <-.
    exists a, m, d, rest. cbn. rewrite Da, Hall.
    repeat split; auto.
    apply all_chars_splits. intros m1 b m2 E.
    specialize (Hmin m1 (String b m2) E ltac:(discriminate)).
    cbn in Hmin. unfold not_digit. now destruct (is_digit b). }
  split.
  - intros t Ht. destruct (H1 t Ht) as (a & t' & d & rest & E).
    exists a, t', d, rest. unfold interface_type. rewrite Ht. tauto.
  - intros Hnd. unfold interface_type.
    destruct (interface_filter s) as [t|] eqn:E; [|reflexivity].
    destruct (H1 t eq_refl) as (a & t' & d & rest & -> & -> & Hd & _).
    cbn in Hnd. rewrite all_chars_app in Hnd. cbn in Hnd.
    unfold not_digit at 2 in Hnd. rewrite Hd in Hnd. cbn in Hnd.
    rewrite andb_false_r in Hnd. discriminate.
Qed.

Lemma greedy_star_total {R} (c : ascii -> bool) (s : str)
    (k : str -> str -> option R) :
  (forall m rest, k m rest <> None) -> greedy_star c s k <> None.
Proof.
  revert k; induction s as [|a s IH]; intros k Hk; cbn [greedy_star]; auto.
  destruct (c a); auto.
  destruct (greedy_star c s _) eqn:E; [discriminate|].
  exfalso. revert E. apply IH. intros m rest. apply Hk.
Qed.

(** The greedy star takes the longest run when the rest of the pattern
    accepts whatever follows. *)
Lemma greedy_star_longest {R} (c : ascii -> bool) (s : str)
    (k : str -> str -> option R) (r : R) :
  (forall m rest, k m rest <> None) ->
  greedy_star c s k = Some r ->
  exists m rest,
    s = (m ++ rest)%string /\ all_chars c m = true /\ k m rest = Some r
    /\ match rest with
       | EmptyString => True
       | String b _ => c b = false
       end.
Proof.
  revert k; induction s as [|a s IH]; intros k Hk; cbn [greedy_star].
  - intros H. now exists "", "".
  - destruct (c a) eqn:Ca.
    + destruct (greedy_star c s _) eqn:E.
      * intros [= <-]. apply IH in E as (m & rest & -> & Hm & E & Hr).
        -- exists (String a m), rest. cbn. now rewrite Ca, Hm.
        -- intros m rest. apply Hk.
      * exfalso. revert E. apply greedy_star_total. intros m rest. apply Hk.
    + intros H. exists "", (String a s). repeat split; auto.
Qed.

Lemma optional_total {R} (c : ascii -> bool) (s : str)
    (k : str -> str -> option R) :
  (forall m rest, k m rest <> None) -> optional c s k <> None.
Proof.
  intros Hk. destruct s as [|a s]; cbn; auto.
  destruct (c a); auto. destruct (k (String a "") s) eqn:E; [discriminate|].
  now apply Hk in E.
Qed.

(** X7.  The name the normaliser extracts is the first maximal run of
    word characters and hyphens of the first line of the raw name: the raw
    name is a text without such characters and without a newline, then the
    name, then a text that does not go on with such a character.  In every
    case the normalised name occurs in the raw name. *)
Theorem normalize_first_run (s : str) :
  (forall h, domain_filter s = Some h ->
     exists pre post,
       s = (pre ++ h ++ post)%string
       /\ all_chars before_host pre = true
       /\ h <> "" /\ all_chars is_host_char h = true
       /\ ends_run post)
  /\ Substring (normalize s) s.
Proof.
  assert (Htail : forall hostname s2 : str,
            optional is_space s2 (fun _ _ : str => Some hostname) <> None).
  { intros hostname s2. apply optional_total. discriminate. }
  assert (H1 : forall h, domain_filter s = Some h ->
             exists pre post,
               s = (pre ++ h ++ post)%string
               /\ all_chars before_host pre = true
               /\ h <> "" /\ all_chars is_host_char h = true
               /\ ends_run post).
  { intros h. unfold domain_filter. intros H.
    apply lazy_star_first in H as (pre & s1 & -> & Hdot & Hk & Hmin).
    unfold greedy_plus in Hk. destruct s1 as [|a s1]; [discriminate|].
    destruct (is_host_char a) eqn:Ha; [|discriminate].
    apply greedy_star_longest in Hk as (m & post & -> & Hm & Hk & Hpost).
    2:{ intros m0 rest. apply Htail. }
    apply optional_result in Hk as (_ & _ & [= <-]).
    exists pre, post. cbn. rewrite Ha, Hm.
    split; [reflexivity|]. split; [|split; [discriminate|split; auto]].
    apply all_chars_splits. intros m1 b m2 E.
    specialize (Hmin m1 (String b m2) E ltac:(discriminate)).
    unfold before_host.
    assert (Hb : is_dot b = true).
    { rewrite E, all_chars_app in Hdot. cbn in Hdot.
      apply andb_prop in Hdot as [_ Hdot]. now apply andb_prop in Hdot. }
    rewrite Hb. cbn [andb]. cbn [append greedy_plus] in Hmin.
    destruct (is_host_char b); [|reflexivity].
    exfalso. revert Hmin. apply greedy_star_total.
    intros m0 rest. apply Htail. }
  split; [exact H1|].
  unfold normalize. destruct (domain_filter s) as [h|] eqn:E.
  - destruct (H1 h eq_refl) as (pre & post & Hs & _). now exists pre, post.
  - exists "", "". cbn. clear. induction s as [|a s IH]; cbn;
      [reflexivity|now f_equal].
Qed.

(* ================================================================== *)
(** * Further properties: the alias option *)

Lemma split_on_length (c : ascii) (s : str) :
  List.length (split_on c s) = S (count_char c s).
Proof.
  induction s as [|a s IH]; cbn; [reflexivity|].
  destruct (Ascii.eqb a c); cbn; [now rewrite IH|].
  destruct (split_on c s); cbn in *; congruence.
Qed.

Lemma split_on_none (c : ascii) (s : str) :
  count_char c s = 0 -> split_on c s = [s].
Proof.
  induction s as [|a s IH]; cbn; [reflexivity|].
  destruct (Ascii.eqb a c); cbn; [discriminate|].
  intros H. now rewrite (IH H).
Qed.

Lemma split_on_first (c : ascii) (s t : str) :
  count_char c s = 0 ->
  split_on c (s ++ String c t)%string = s :: split_on c t.
Proof.
  induction s as [|a s IH]; cbn.
  - intros _. now rewrite Ascii.eqb_refl.
  - destruct (Ascii.eqb a c); cbn; [discriminate|].
    intros H. now rewrite (IH H).
Qed.

Lemma add_alias_iff (alias_dict : Dict.t str) (m : str) :
  (exists d, add_alias alias_dict m = Some d) <-> count_char ":" m = 1.
Proof.
  unfold add_alias. pose proof (split_on_length ":" m) as H.
  destruct (split_on ":" m) as [|x [|y [|z l]]]; cbn in H; split;
    try (intros [d Hd]; discriminate); try lia; eauto.
Qed.

(** X8.  The alias option.  The text is accepted exactly when each of its
    mappings has one colon; a mapping [device:alias] records the alias
    under the device, replacing an earlier alias of that device. *)
Theorem alias_parsing (alias_dict : Dict.t str) (mappings : list str) :
  ((exists d, add_aliases alias_dict mappings = Some d) <->
   forall m, In m mappings -> count_char ":" m = 1)
  /\ forall device alias,
       count_char ":" device = 0 -> count_char ":" alias = 0 ->
       add_alias alias_dict (device ++ String ":" alias)%string
       = Some (Dict.set device alias alias_dict)
       /\ Dict.get device (Dict.set device alias alias_dict) = Some alias.
Proof.
  split.
  - revert alias_dict; induction mappings as [|m ms IH]; intros alias_dict;
      cbn [add_aliases].
    + split; [intros _ m []|eauto].
    + destruct (add_alias alias_dict m) as [d|] eqn:E.
      * rewrite IH. split.
        -- intros H x [<-|Hx]; [|now apply H].
           apply (add_alias_iff alias_dict). eauto.
        -- intros H x Hx. apply H. now right.
      * split; [intros [d Hd]; discriminate|].
        intros H. specialize (H m (or_introl eq_refl)).
        apply (add_alias_iff alias_dict) in H as [d Hd]. congruence.
  - intros device alias Hd Ha. split; [|apply get_set_same].
    unfold add_alias.
    now rewrite (@split_on_first ":" device alias Hd),
      (@split_on_none ":" alias Ha).
Qed.

(* ================================================================== *)
(** * Further properties: the interfaces of the visited device *)

Lemma lookup_iff (tb : Testbed) (j : iface_id) (f : Interface) :
  lookup_interface tb j = Ok f <->
  exists dev, Dict.get (fst j) (devices tb) = Some dev
              /\ Dict.get (snd j) (dev_interfaces dev) = Some f.
Proof.
  unfold lookup_interface, Dict.item.
  destruct (Dict.get (fst j) (devices tb)) as [dev|]; cbn.
  - destruct (Dict.get (snd j) (dev_interfaces dev)) as [g|] eqn:Eg; cbn.
    + split.
      * intros [= <-]. exists dev. now split.
      * intros [dev' [[= <-] H]]. rewrite Eg in H. now injection H as <-.
    + split; [discriminate|].
      intros [dev' [[= <-] H]]. rewrite Eg in H. discriminate.
  - split; [discriminate|]. intros [dev [H _]]. discriminate.
Qed.

Lemma ensure_interface_on_lookup (name : str) (tb tb' : Testbed) (i : str) :
  ensure_interface_on name tb i = Ok tb' ->
  has_interface tb' (name, i)
  /\ (forall j f, lookup_interface tb j = Ok f -> lookup_interface tb' j = Ok f)
  /\ links tb' = links tb.
Proof.
  unfold ensure_interface_on.
  destruct (Dict.item name (devices tb)) as [dev|] eqn:E; cbn [bind];
    [|discriminate].
  apply item_get in E. unfold ensure_interface, Dict.mem.
  destruct (Dict.get i (dev_interfaces dev)) as [g|] eqn:Eg.
  - cbn [bind]. intros [= <-]. split; [|split; [|reflexivity]].
    + exists g. apply lookup_iff. exists dev. cbn. now rewrite get_set_same.
    + intros j f Hj. apply lookup_iff in Hj as [dev' [H1 H2]].
      apply lookup_iff. cbn [devices with_devices].
      destruct (string_dec (fst j) name) as [En|En].
      * rewrite En in *. rewrite get_set_same. exists dev.
        split; [reflexivity|]. congruence.
      * rewrite get_set_other by assumption. eauto.
  - unfold attach_interface.
    destruct (interface_type i) as [t|]; cbn [bind]; [|discriminate].
    intros [= <-]. split; [|split; [|reflexivity]].
    + eexists. apply lookup_iff. eexists. cbn.
      rewrite get_set_same. split; [reflexivity|]. cbn. apply get_set_same.
    + intros j f Hj. apply lookup_iff in Hj as [dev' [H1 H2]].
      apply lookup_iff. cbn [devices with_devices].
      destruct (string_dec (fst j) name) as [En|En].
      * rewrite En in *. rewrite get_set_same. eexists.
        split; [reflexivity|]. cbn. rewrite E in H1. injection H1 as <-.
        rewrite get_set_other; [assumption|]. intros Hi. congruence.
      * rewrite get_set_other by assumption. eauto.
Qed.

Lemma ensure_interfaces_lookup (name : str) (l : list str) (tb tb' : Testbed) :
  foldM (ensure_interface_on name) l tb = Ok tb' ->
  (forall i, In i l -> has_interface tb' (name, i))
  /\ (forall j f, lookup_interface tb j = Ok f -> lookup_interface tb' j = Ok f)
  /\ links tb' = links tb.
Proof.
  revert tb; induction l as [|i l IH]; intros tb; cbn [foldM].
  - intros [= <-]. split; [intros i []|auto].
  - destruct (ensure_interface_on name tb i) as [tb1|] eqn:E; cbn [bind];
      [|discriminate].
    intros H. destruct (IH _ H) as (K1 & K2 & K3).
    apply ensure_interface_on_lookup in E as ([f Hf] & E2 & E3).
    split; [|split].
    + intros x [<-|Hx]; [|now apply K1]. exists f. now apply K2.
    + intros j g Hj. apply K2. now apply E2.
    + congruence.
Qed.

(** X9.  When [get_device_connections] returns, the visited device has
    every local interface of the returned connections (a missing one was
    created on the way), the interfaces that existed are as they were, and
    no link was touched. *)
Theorem get_device_connections_interfaces (cfg : Config)
    (nets : list network) (tb tb' : Testbed) (name : str)
    (data : neighbor_data) (dl dl' : device_list_t) (cd : connection_dict_t) :
  get_device_connections cfg nets tb name data dl = Ok (cd, dl', tb') ->
  (forall i, In i (Dict.keys cd) -> has_interface tb' (name, i))
  /\ (forall j f, lookup_interface tb j = Ok f -> lookup_interface tb' j = Ok f)
  /\ links tb' = links tb.
Proof.
  unfold get_device_connections.
  destruct (match cdp data with
            | Some parsed => _ | None => _ end) as [st1|]; cbn [bind];
    [|discriminate].
  destruct (match lldp data with
            | Some parsed => _ | None => _ end) as [st2|]; cbn [bind];
    [|discriminate].
  destruct (foldM (ensure_interface_on name) _ tb) as [tb1|] eqn:E;
    cbn [bind]; [|discriminate].
  intros [= <- <- <-]. now apply ensure_interfaces_lookup.
Qed.

Lemma get_device_connections_interfaces_witness :
  exists cd dl' tb',
    get_device_connections (no_exclusions false) [] testbed_A "A"
      {| cdp := Some [cdp_edge1]; lldp := None |} [] = Ok (cd, dl', tb')
    /\ Dict.keys cd = ["Gi0/1"]
    /\ has_interface tb' ("A", "Gi0/1").
Proof.
  do 3 eexists. split; [reflexivity|]. split; [reflexivity|].
  refine (proj1 (@get_device_connections_interfaces (no_exclusions false) []
                   testbed_A _ "A" {| cdp := Some [cdp_edge1]; lldp := None |}
                   [] _ _ eq_refl) "Gi0/1" _).
  now left.
Defined.

(* ================================================================== *)
(** * Further properties: new devices *)

Lemma mem_keys {V} (k : str) (d : Dict.t V) :
  Dict.mem k d = true <-> In k (Dict.keys d).
Proof.
  unfold Dict.mem. destruct (Dict.get k d) eqn:E.
  - split; [intros _|reflexivity].
    destruct (in_dec string_dec k (Dict.keys d)) as [H|H]; [assumption|].
    apply get_none_keys in H. congruence.
  - apply get_none_keys in E. split; [discriminate|contradiction].
Qed.

Lemma attach_interface_keeps (dev dev1 : Device) (q p : str) :
  attach_interface dev q = Ok dev1 ->
  port_attached dev1 q
  /\ (port_attached dev p -> port_attached dev1 p)
  /\ dev_type dev1 = dev_type dev /\ dev_os dev1 = dev_os dev
  /\ dev_credentials dev1 = dev_credentials dev
  /\ incl (Dict.keys (dev_interfaces dev1))
          (q :: Dict.keys (dev_interfaces dev)).
Proof.
  unfold attach_interface, port_attached.
  destruct (interface_type q) as [t|] eqn:Et; cbn [bind]; [|discriminate].
  intros [= <-]. cbn. split; [|split; [|split; [|split; [|split]]]]; auto.
  - exists t. split; [reflexivity|apply get_set_same].
  - intros [t' [Ht Hg]]. exists t'. split; [assumption|].
    rewrite get_set. destruct (String.eqb q p) eqn:E; [|assumption].
    apply String.eqb_eq in E. subst. congruence.
  - apply set_keys_incl.
Qed.

Lemma attach_interfaces_content (ports : list str) (dev dev' : Device) :
  foldM attach_interface ports dev = Ok dev' ->
  (forall p, In p ports \/ port_attached dev p -> port_attached dev' p)
  /\ dev_type dev' = dev_type dev /\ dev_os dev' = dev_os dev
  /\ dev_credentials dev' = dev_credentials dev
  /\ incl (Dict.keys (dev_interfaces dev'))
          (Dict.keys (dev_interfaces dev) ++ ports).
Proof.
  revert dev; induction ports as [|q ports IH]; intros dev; cbn [foldM].
  - intros [= <-]. rewrite app_nil_r.
    repeat split; auto using incl_refl. now intros p [[]|H].
  - destruct (attach_interface dev q) as [dev1|] eqn:E; cbn [bind];
      [|discriminate].
    intros H. destruct (IH _ H) as (K1 & K2 & K3 & K4 & K5).
    split; [|split; [|split; [|split]]].
    + intros p Hp. apply K1.
      destruct (@attach_interface_keeps dev dev1 q p E) as (A1 & A2 & _).
      destruct Hp as [[<-|Hp]|Hp]; auto.
    + destruct (@attach_interface_keeps dev dev1 q q E) as (_ & _ & A & _). congruence.
    + destruct (@attach_interface_keeps dev dev1 q q E) as (_ & _ & _ & A & _). congruence.
    + destruct (@attach_interface_keeps dev dev1 q q E) as (_ & _ & _ & _ & A & _).
      congruence.
    + destruct (@attach_interface_keeps dev dev1 q q E) as (_ & _ & _ & _ & _ & A).
      intros x Hx. apply K5 in Hx. apply in_app_or in Hx as [Hx|Hx].
      * apply A in Hx as [<-|Hx]; apply in_or_app;
          [right; now left|now left].
      * apply in_or_app. right. now right.
Qed.

Lemma proxy_connections_ssh (ips : list (option str)) (proxy_set : list str)
    (connections : Dict.t Connection) :
  all_ssh connections -> all_ssh (proxy_connections ips proxy_set connections).
Proof.
  unfold proxy_connections.
  revert connections; induction ips as [|ip ips IH]; intros connections H;
    cbn [fold_left]; [assumption|].
  apply IH. clear IH.
  revert connections H; induction proxy_set as [|proxy ps IHp];
    intros connections H; cbn [fold_left]; [assumption|].
  apply IHp. intros k c Hin. apply in_set in Hin as [[_ ->]|Hin];
    [reflexivity|eauto].
Qed.

Lemma create_device_fields (proxy_set : list str) (st st' : wd_state)
    (new_dev : str) (rec : discovered) :
  create_device proxy_set st new_dev rec = Ok st' ->
  exists dev finder_dev,
    Dict.get (fst (dl_finder rec)) (devices (wd_testbed st)) = Some finder_dev
    /\ Dict.get new_dev (wd_new_devices st') = Some dev
    /\ dev_name dev = new_dev /\ dev_type dev = "device"
    /\ dev_os dev = dl_os rec
    /\ dev_credentials dev = dev_credentials finder_dev
    /\ (forall p, In p (dl_ports rec) -> port_attached dev p)
    /\ incl (Dict.keys (dev_interfaces dev)) (dl_ports rec)
    /\ all_ssh (dev_connections dev).
Proof.
  unfold create_device.
  destruct (Dict.item _ _) as [finder_dev|] eqn:Ef; cbn [bind];
    [|discriminate].
  apply item_get in Ef.
  assert (Hssh : all_ssh (proxy_connections (dl_ip rec) proxy_set []))
    by (apply proxy_connections_ssh; intros k c []).
  assert (Hfin : forall connections dev,
            all_ssh connections ->
            foldM attach_interface (dl_ports rec)
              {| dev_name := new_dev; dev_os := dl_os rec;
                 dev_type := "device";
                 dev_credentials := dev_credentials finder_dev;
                 dev_connections := connections; dev_interfaces := [] |}
            = Ok dev ->
            dev_name dev = new_dev /\ dev_type dev = "device"
            /\ dev_os dev = dl_os rec
            /\ dev_credentials dev = dev_credentials finder_dev
            /\ (forall p, In p (dl_ports rec) -> port_attached dev p)
            /\ incl (Dict.keys (dev_interfaces dev)) (dl_ports rec)
            /\ all_ssh (dev_connections dev)).
  { intros connections dev Hc E.
    pose proof (attach_interfaces_name _ _ E) as N.
    pose proof (attach_interfaces_connections _ _ E) as C.
    destruct (attach_interfaces_content _ _ E) as (K1 & K2 & K3 & K4 & K5).
    cbn in *. repeat split; auto. now rewrite C. }
  destruct (snd (dl_finder rec)) as [|a addrs].
  - cbn [bind].
    destruct (foldM attach_interface _ _) as [dev|] eqn:E; cbn [bind];
      [|discriminate].
    intros [= <-]. exists dev, finder_dev. cbn [wd_new_devices].
    split; [assumption|]. split; [apply get_set_same|].
    exact (Hfin _ _ Hssh E).
  - destruct (write_proxy_chain _ _ _ _) as [[finder_proxy tb]|] eqn:Ew;
      cbn [bind]; [|discriminate].
    destruct (after_loop _ _) as [ip|]; cbn [of_option bind]; [|discriminate].
    destruct (foldM attach_interface _ _) as [dev|] eqn:E; cbn [bind];
      [|discriminate].
    intros [= <-]. exists dev, finder_dev. cbn [wd_new_devices].
    split; [assumption|]. split; [apply get_set_same|].
    refine (Hfin _ _ _ E).
    intros k c Hin. apply in_set in Hin as [[_ ->]|Hin]; [reflexivity|eauto].
Qed.

(** X10.  A device the builder creates has the name of its record, the
    type ['device'], the OS of the record and the credentials of the device
    that found it; it has one interface per recorded port and no other,
    each of the type of its name and without a link; and all its
    connections are ssh connections. *)
Theorem create_device_content (proxy_set : list str) (st st' : wd_state)
    (new_dev : str) (rec : discovered) :
  create_device proxy_set st new_dev rec = Ok st' ->
  exists dev finder_dev,
    Dict.get (fst (dl_finder rec)) (devices (wd_testbed st)) = Some finder_dev
    /\ Dict.get new_dev (wd_new_devices st') = Some dev
    /\ dev_name dev = new_dev /\ dev_type dev = "device"
    /\ dev_os dev = dl_os rec
    /\ dev_credentials dev = dev_credentials finder_dev
    /\ (forall p, In p (dl_ports rec) -> port_attached dev p)
    /\ incl (Dict.keys (dev_interfaces dev)) (dl_ports rec)
    /\ all_ssh (dev_connections dev).
Proof. exact (@create_device_fields proxy_set st st' new_dev rec). Qed.

Lemma create_device_content_witness :
  exists st' dev,
    create_device ["jump"] {| wd_testbed := testbed_A; wd_new_devices := [];
                              wd_ip := None |} "Z" record_Z = Ok st'
    /\ Dict.get "Z" (wd_new_devices st') = Some dev
    /\ dev_type dev = "device" /\ port_attached dev "Gi0/3".
Proof.
  destruct (create_device ["jump"] {| wd_testbed := testbed_A;
                                      wd_new_devices := []; wd_ip := None |}
              "Z" record_Z) as [st'|] eqn:E; [|vm_compute in E; discriminate].
  destruct (create_device_content _ _ _ _ E)
    as (dev & finder_dev & _ & Hget & _ & Ht & _ & _ & Hp & _).
  exists st', dev. split; [reflexivity|]. split; [assumption|].
  split; [assumption|]. apply Hp. now left.
Defined.

Lemma write_devices_new (cfg : Config) (env : Env) (proxy_set : list str)
    (dl : device_list_t) (tb tb' : Testbed) (nd : Dict.t Device) :
  _write_devices_into_testbed cfg env proxy_set dl tb = Ok (nd, tb') ->
  (forall k, In k (Dict.keys nd) <->
             In k (Dict.keys dl) /\ Dict.mem k (devices tb) = false)
  /\ (forall k d, In (k, d) nd -> dev_name d = k /\ dev_type d = "device")
  /\ Dict.keys (devices tb') = Dict.keys (devices tb).
Proof.
  unfold _write_devices_into_testbed.
  set (st0 := {| wd_testbed := tb; wd_new_devices := []; wd_ip := None |}).
  destruct (foldM _ dl st0) as [st|] eqn:E; cbn [bind]; [|discriminate].
  intros [= <- <-].
  assert (G : forall dl st0 st,
            foldM (write_device cfg env proxy_set) dl st0 = Ok st ->
            Dict.keys (devices (wd_testbed st0)) = Dict.keys (devices tb) ->
            Dict.keys (devices (wd_testbed st)) = Dict.keys (devices tb)
            /\ (forall k, In k (Dict.keys (wd_new_devices st)) <->
                  In k (Dict.keys (wd_new_devices st0))
                  \/ (In k (Dict.keys dl) /\ Dict.mem k (devices tb) = false))
            /\ (forall k d, In (k, d) (wd_new_devices st) ->
                  In (k, d) (wd_new_devices st0)
                  \/ (dev_name d = k /\ dev_type d = "device"))).
  { clear. induction dl as [|[new_dev rec] dl IH]; intros st0 st; cbn [foldM].
    - intros [= <-] K. split; [assumption|]. split; [|auto].
      intros k. cbn. tauto.
    - destruct (write_device cfg env proxy_set st0 (new_dev, rec))
        as [st1|] eqn:E1; cbn [bind]; [|discriminate].
      intros H K. unfold write_device in E1. cbn [fst snd] in E1.
      assert (Hmem : Dict.mem new_dev (devices (wd_testbed st0))
                     = Dict.mem new_dev (devices tb)).
      { destruct (Dict.mem new_dev (devices tb)) eqn:Em.
        - apply mem_keys. rewrite K. now apply mem_keys.
        - destruct (Dict.mem new_dev (devices (wd_testbed st0))) eqn:Em0;
            [|reflexivity].
          apply mem_keys in Em0. rewrite K in Em0. apply mem_keys in Em0.
          congruence. }
      rewrite Hmem in E1. cbn [Dict.keys map fst].
      destruct (Dict.mem new_dev (devices tb)) eqn:Em; cbn [negb] in E1.
      + destruct (reconcile_interfaces _ _ _ _ _) as [tb1|] eqn:Er;
          cbn [bind] in E1; [|discriminate].
        injection E1 as <-.
        destruct (IH _ _ H) as (A & B & C).
        { cbn [wd_testbed]. rewrite (reconcile_interfaces_keys _ _ _ _ _ Er).
          exact K. }
        cbn [wd_new_devices] in B, C. split; [assumption|]. split; [|exact C].
        intros k. rewrite B. split.
        * intros [Hk|[Hk Hm]]; [now left|right]. split; [now right|assumption].
        * intros [Hk|[[<-|Hk] Hm]]; [now left|congruence|right; now split].
      + pose proof (create_device_spec _ _ _ _ E1) as [K1 [dev [Hn Hs]]].
        destruct (create_device_fields _ _ _ _ E1)
          as (dev' & _ & _ & Hget & _ & Ht & _).
        rewrite Hs, get_set_same in Hget. injection Hget as <-.
        destruct (IH _ _ H) as (A & B & C); [congruence|].
        split; [assumption|]. split.
        * intros k. rewrite B, Hs. split.
          -- intros [Hk|[Hk Hm]].
             ++ apply set_keys_incl in Hk as [<-|Hk]; [|now left].
                right. split; [now left|assumption].
             ++ right. split; [now right|assumption].
          -- intros [Hk|[[<-|Hk] Hm]].
             ++ left. now apply keys_incl_set.
             ++ left. apply mem_keys. unfold Dict.mem.
                now rewrite get_set_same.
             ++ right. now split.
        * intros k d Hin. destruct (C k d Hin) as [Hin'|Hin']; [|now right].
          rewrite Hs in Hin'. apply in_set in Hin' as [[-> ->]|Hin'];
            [right; now split|now left]. }
  destruct (G dl st0 st E eq_refl) as (A & B & C). split; [|split].
  - intros k. rewrite B. cbn. tauto.
  - intros k d Hin. destruct (C k d Hin) as [[]|H]. exact H.
  - exact A.
Qed.

(** X11.  The pass over [device_list] creates a device for exactly the
    recorded names that are not devices of the testbed, files each under
    its own name with the type ['device'], and leaves the set of testbed
    devices as it was. *)
Theorem new_devices_exact (cfg : Config) (env : Env) (proxy_set : list str)
    (dl : device_list_t) (tb tb' : Testbed) (nd : Dict.t Device) :
  _write_devices_into_testbed cfg env proxy_set dl tb = Ok (nd, tb') ->
  (forall k, In k (Dict.keys nd) <->
             In k (Dict.keys dl) /\ Dict.mem k (devices tb) = false)
  /\ (forall k d, In (k, d) nd -> dev_name d = k /\ dev_type d = "device")
  /\ Dict.keys (devices tb') = Dict.keys (devices tb).
Proof. exact (@write_devices_new cfg env proxy_set dl tb tb' nd). Qed.

Lemma new_devices_exact_witness :
  exists nd tb',
    _write_devices_into_testbed (no_exclusions false) silent_env []
      [("X", record_X); ("A", record_X)] testbed_A = Ok (nd, tb')
    /\ Dict.keys nd = ["X"]
    /\ Dict.keys (devices tb') = ["A"].
Proof.
  do 2 eexists. split; [reflexivity|].
  destruct (@new_devices_exact (no_exclusions false) silent_env []
              [("X", record_X); ("A", record_X)] testbed_A _ _ eq_refl)
    as (_ & _ & K).
  split; [reflexivity|exact K].
Defined.

(* ================================================================== *)
(** * Further properties: proxy chains *)

Lemma set_last_command_snoc (c : command) (init : list proxy_step)
    (l : proxy_step) :
  set_last_command c (init ++ [l])
  = Ok (init ++ [{| step_device := step_device l; step_command := Some c |}]).
Proof.
  induction init as [|s init IH]; [reflexivity|].
  cbn [app set_last_command]. rewrite IH.
  destruct (init ++ [l]) eqn:E; [now destruct init|reflexivity].
Qed.

Lemma set_last_command_nonempty (c : command) (steps steps' : list proxy_step) :
  set_last_command c steps = Ok steps' -> steps <> [] /\ steps' <> [].
Proof.
  destruct steps as [|s [|s' r]]; cbn; [discriminate| |].
  - intros [= <-]. split; discriminate.
  - destruct (match r with [] => _ | _ => _ end); cbn [bind];
      [|discriminate].
    intros [= <-]. split; discriminate.
Qed.

Lemma nth_set_nth_same {A} (n : nat) (x d : A) (l : list A) :
  (n < List.length l)%nat -> nth n (set_nth n x l) d = x.
Proof.
  revert n; induction l as [|y l IH]; intros [|n]; cbn; try lia; auto.
  intros H. apply IH. lia.
Qed.

Lemma nth_set_nth_other {A} (n m : nat) (x d : A) (l : list A) :
  m <> n -> nth m (set_nth n x l) d = nth m l d.
Proof.
  revert n m; induction l as [|y l IH]; intros [|n] [|m] H; cbn;
    try congruence; auto.
Qed.

Lemma chain_steps_valid (tb : Testbed) (chain : nat) :
  chain_steps tb chain <> [] -> (chain < List.length (chains tb))%nat.
Proof.
  unfold chain_steps. intros H.
  destruct (Nat.lt_ge_cases chain (List.length (chains tb))) as [Hlt|Hge];
    [assumption|].
  now rewrite nth_overflow in H.
Qed.

Lemma write_proxy_chain_result (finder_name : str) (testbed tb' : Testbed)
    (credentials : Credentials) (ip : list str) (p : proxy) :
  write_proxy_chain finder_name testbed credentials ip = Ok (p, tb') ->
  exists finder_device user,
    Dict.get finder_name (devices testbed) = Some finder_device
    /\ default_user credentials = Some user
    /\ ((p = ProxyName finder_name /\ tb' = testbed
         /\ first_ssh_proxy (dev_connections finder_device) = Ok None)
        \/ exists chain steps,
             p = ProxyList chain
             /\ chain_steps tb' chain
                = steps ++ [finder_step finder_name user ip]
             /\ steps <> []).
Proof.
  unfold write_proxy_chain, default_user, Dict.item.
  destruct (Dict.get finder_name (devices testbed)) as [finder_device|];
    cbn [of_option bind]; [|discriminate].
  destruct (Dict.get "default" credentials) as [default|];
    cbn [of_option bind]; [|discriminate].
  destruct (Dict.get "username" default) as [user|];
    cbn [of_option bind]; [|discriminate].
  intros H. exists finder_device, user. split; [reflexivity|].
  split; [reflexivity|].
  destruct (first_ssh_proxy (dev_connections finder_device))
    as [[[[new_proxy|chain] conn_ip]|]|]; cbn [bind] in H; [| | |discriminate].
  - injection H as <- <-. right.
    exists (List.length (chains testbed)),
      [{| step_device := new_proxy;
          step_command := Some (CmdSsh (fmt_of conn_ip)) |}].
    split; [reflexivity|]. split; [|discriminate].
    unfold chain_steps, with_chains. cbn [chains].
    rewrite app_nth2 by lia. now rewrite Nat.sub_diag.
  - destruct (set_last_command _ (chain_steps testbed chain)) as [steps|] eqn:E;
      cbn [bind] in H; [|discriminate].
    injection H as <- <-. right. exists chain, steps.
    destruct (set_last_command_nonempty _ _ E) as [Hne Hne'].
    split; [reflexivity|]. split; [|exact Hne'].
    unfold chain_steps at 1, with_chains. cbn [chains].
    apply nth_set_nth_same. now apply chain_steps_valid.
  - injection H as <- <-. left. now split.
Qed.

(** X12.  When [write_proxy_chain] returns, the finder is a device of the
    testbed and the credentials hold a default user name.  The value is
    either the finder's name, the testbed being left as it was, or a list
    of at least two steps that ends with the step through the finder, as
    that user, to the given addresses. *)
Theorem write_proxy_chain_shape (finder_name : str) (testbed tb' : Testbed)
    (credentials : Credentials) (ip : list str) (p : proxy) :
  write_proxy_chain finder_name testbed credentials ip = Ok (p, tb') ->
  exists finder_device user,
    Dict.get finder_name (devices testbed) = Some finder_device
    /\ default_user credentials = Some user
    /\ ((p = ProxyName finder_name /\ tb' = testbed
         /\ first_ssh_proxy (dev_connections finder_device) = Ok None)
        \/ exists chain steps,
             p = ProxyList chain
             /\ chain_steps tb' chain
                = steps ++ [finder_step finder_name user ip]
             /\ steps <> []).
Proof.
  exact (@write_proxy_chain_result finder_name testbed tb' credentials ip p).
Qed.

Lemma write_proxy_chain_shape_witness :
  exists chain steps tb',
    write_proxy_chain "A" testbed_chain [("default", [("username", "admin")])]
      ["10.0.0.5"]
    = Ok (ProxyList chain, tb')
    /\ chain_steps tb' chain = steps ++ [finder_step "A" "admin" ["10.0.0.5"]]
    /\ steps <> [].
Proof.
  destruct (write_proxy_chain "A" testbed_chain
              [("default", [("username", "admin")])] ["10.0.0.5"])
    as [[p tb']|e] eqn:E; [|vm_compute in E; discriminate].
  destruct (@write_proxy_chain_shape "A" testbed_chain tb'
              [("default", [("username", "admin")])] ["10.0.0.5"] p E)
    as (fd & user & Hg & Hu & [(Hp & _ & Hn)|(chain & steps & Hp & Hc & Hne)]).
  - injection Hg as <-. vm_compute in Hn. discriminate.
  - injection Hu as <-. exists chain, steps, tb'.
    split; [now rewrite Hp|]. split; assumption.
Defined.

(** X13.  When the connection [write_proxy_chain] picks on the finder holds
    a list of steps, the call changes that very list: its last step gets
    the command to the connection's address and the step through the
    finder is appended.  The devices and the other lists are as they were,
    so every connection that holds the list holds the longer one; an empty
    list raises [IndexError].  A second call for the same finder starts
    from the longer list: it overwrites the command of the step the first
    call appended, whose addresses are gone from the list, and appends its
    own step. *)
Theorem write_proxy_chain_in_place (finder_name : str) (testbed : Testbed)
    (credentials : Credentials) (ip : list str) (finder_device : Device)
    (user : str) (chain : nat) (conn_ip : option str) :
  Dict.get finder_name (devices testbed) = Some finder_device ->
  default_user credentials = Some user ->
  first_ssh_proxy (dev_connections finder_device)
  = Ok (Some (ProxyList chain, conn_ip)) ->
  let to_conn := Some (CmdSshUser user (fmt_of conn_ip)) in
  (chain_steps testbed chain = [] ->
   write_proxy_chain finder_name testbed credentials ip = Raise IndexError)
  /\ (forall init l, chain_steps testbed chain = init ++ [l] ->
      exists tb',
        write_proxy_chain finder_name testbed credentials ip
        = Ok (ProxyList chain, tb')
        /\ chain_steps tb' chain
           = init ++ [{| step_device := step_device l;
                         step_command := to_conn |};
                      finder_step finder_name user ip]
        /\ devices tb' = devices testbed /\ links tb' = links testbed
        /\ (forall other, other <> chain ->
              chain_steps tb' other = chain_steps testbed other)
        /\ forall ip2, exists tb'',
             write_proxy_chain finder_name tb' credentials ip2
             = Ok (ProxyList chain, tb'')
             /\ chain_steps tb'' chain
                = init ++ [{| step_device := step_device l;
                              step_command := to_conn |};
                           {| step_device := finder_name;
                              step_command := to_conn |};
                           finder_step finder_name user ip2]).
Proof.
  intros Hg Hu Hf to_conn.
  assert (Hcall : forall tb ip1 init l,
            devices tb = devices testbed ->
            chain_steps tb chain = init ++ [l] ->
            write_proxy_chain finder_name tb credentials ip1
            = Ok (ProxyList chain,
                  with_chains tb
                    (set_nth chain
                       (init ++ [{| step_device := step_device l;
                                    step_command := to_conn |};
                                 finder_step finder_name user ip1])
                       (chains tb)))).
  { intros tb ip1 init l Hd Hc. unfold default_user in Hu.
    destruct (Dict.get "default" credentials) as [default|] eqn:Ed;
      [|discriminate].
    unfold write_proxy_chain, Dict.item. rewrite Hd, Hg.
    cbn [of_option bind]. rewrite Ed. cbn [of_option bind]. rewrite Hu.
    cbn [of_option bind]. rewrite Hf. cbn [bind]. rewrite Hc.
    rewrite set_last_command_snoc. cbn [bind].
    rewrite <- app_assoc. reflexivity. }
  assert (Hread : forall tb x,
            chain_steps tb chain <> [] ->
            chain_steps (with_chains tb (set_nth chain x (chains tb))) chain = x).
  { intros tb x Hne. unfold chain_steps at 1, with_chains. cbn [chains].
    apply nth_set_nth_same. now apply chain_steps_valid. }
  split.
  - intros Hc. unfold default_user in Hu.
    destruct (Dict.get "default" credentials) as [default|] eqn:Ed;
      [|discriminate].
    unfold write_proxy_chain, Dict.item. rewrite Hg. cbn [of_option bind].
    rewrite Ed. cbn [of_option bind]. rewrite Hu. cbn [of_option bind].
    rewrite Hf. cbn [bind]. now rewrite Hc.
  - intros init l Hc.
    assert (Hne : chain_steps testbed chain <> [])
      by (rewrite Hc; now destruct init).
    eexists. split; [exact (Hcall testbed ip init l eq_refl Hc)|].
    split; [now apply Hread|]. split; [reflexivity|]. split; [reflexivity|].
    split.
    + intros other Ho. unfold chain_steps, with_chains. cbn [chains].
      now apply nth_set_nth_other.
    + intros ip2.
      set (tb1 := with_chains testbed
                    (set_nth chain
                       (init ++ [{| step_device := step_device l;
                                    step_command := to_conn |};
                                 finder_step finder_name user ip])
                       (chains testbed))).
      assert (Hc1 : chain_steps tb1 chain
                    = (init ++ [{| step_device := step_device l;
                                   step_command := to_conn |}])
                      ++ [finder_step finder_name user ip]).
      { unfold tb1. rewrite Hread by assumption.
        now rewrite <- app_assoc. }
      eexists. split; [exact (Hcall tb1 ip2 _ _ eq_refl Hc1)|].
      rewrite Hread by (rewrite Hc1; now destruct init).
      rewrite <- app_assoc. reflexivity.
Qed.

Lemma write_proxy_chain_in_place_witness :
  exists tb',
    write_proxy_chain "A" testbed_chain [("default", [("username", "admin")])]
      ["10.0.0.5"]
    = Ok (ProxyList 0, tb')
    /\ chain_steps tb' 0
       = [{| step_device := "jump";
             step_command :=
               Some (CmdSshUser "admin" (FStr "10.0.0.1")) |};
          finder_step "A" "admin" ["10.0.0.5"]].
Proof.
  destruct (@write_proxy_chain_in_place "A" testbed_chain
              [("default", [("username", "admin")])] ["10.0.0.5"] _ "admin"
              0 (Some "10.0.0.1") eq_refl eq_refl eq_refl) as [_ H].
  destruct (H [] {| step_device := "jump"; step_command := None |} eq_refl)
    as (tb' & E & Hc & _).
  exists tb'. split; [exact E|exact Hc].
Defined.

(** X24.  A new device found through a finder whose picked connection
    holds a list of steps is given that very list as the proxy of its
    [finder_proxy] connection, extended by the step through the finder to
    the addresses the finder noted: the finder and the new device then hold
    one and the same list, and the devices of the testbed are as they
    were. *)
Theorem finder_proxy_shares_list (proxy_set : list str) (st st' : wd_state)
    (new_dev : str) (rec : discovered) (finder_dev : Device) (chain : nat)
    (conn_ip : option str) :
  Dict.get (fst (dl_finder rec)) (devices (wd_testbed st)) = Some finder_dev ->
  first_ssh_proxy (dev_connections finder_dev)
  = Ok (Some (ProxyList chain, conn_ip)) ->
  snd (dl_finder rec) <> [] ->
  create_device proxy_set st new_dev rec = Ok st' ->
  exists dev c user steps,
    Dict.get new_dev (wd_new_devices st') = Some dev
    /\ Dict.get "finder_proxy" (dev_connections dev) = Some c
    /\ conn_proxy c = Some (ProxyList chain)
    /\ devices (wd_testbed st') = devices (wd_testbed st)
    /\ chain_steps (wd_testbed st') chain
       = steps ++ [finder_step (fst (dl_finder rec)) user
                     (snd (dl_finder rec))].
Proof.
  intros Hg Hf Hne. unfold create_device, Dict.item. rewrite Hg.
  cbn [of_option bind].
  destruct (snd (dl_finder rec)) as [|a addrs] eqn:Ea; [congruence|].
  destruct (write_proxy_chain (fst (dl_finder rec)) (wd_testbed st)
              (dev_credentials finder_dev) (a :: addrs))
    as [[finder_proxy tb]|] eqn:Ew; cbn [bind]; [|discriminate].
  destruct (after_loop _ _) as [ip|]; cbn [of_option bind]; [|discriminate].
  destruct (foldM attach_interface _ _) as [dev|] eqn:E; cbn [bind];
    [|discriminate].
  intros [= <-]. cbn [wd_new_devices wd_testbed].
  destruct (@write_proxy_chain_devices _ _ _ _ _ _ Ew) as [Hd _].
  destruct (@write_proxy_chain_result _ _ _ _ _ _ Ew)
    as (fd & user & Hg' & _ & [(_ & _ & Hn)|(chain' & steps & Hp & Hc & _)]).
  - rewrite Hg in Hg'. injection Hg' as <-. congruence.
  - assert (Hchain : finder_proxy = ProxyList chain).
    { revert Ew. unfold write_proxy_chain, Dict.item. rewrite Hg.
      cbn [of_option bind].
      destruct (Dict.get "default" (dev_credentials finder_dev));
        cbn [of_option bind]; [|discriminate].
      destruct (Dict.get "username" _); cbn [of_option bind];
        [|discriminate].
      rewrite Hf. cbn [bind].
      destruct (set_last_command _ _); cbn [bind]; [|discriminate].
      now intros [= <- _]. }
    rewrite Hchain in Hp. injection Hp as <-.
    exists dev, {| conn_protocol := Some "ssh"; conn_ip := Some ip;
                   conn_proxy := Some finder_proxy |}, user, steps.
    split; [apply get_set_same|].
    rewrite (attach_interfaces_connections _ _ E). cbn [dev_connections].
    split; [apply get_set_same|]. split; [now rewrite Hchain|].
    split; [exact Hd|exact Hc].
Qed.

Lemma finder_proxy_shares_list_witness :
  exists st' dev c,
    create_device [] {| wd_testbed := testbed_chain; wd_new_devices := [];
                        wd_ip := None |} "Z" record_Z = Ok st'
    /\ Dict.get "Z" (wd_new_devices st') = Some dev
    /\ Dict.get "finder_proxy" (dev_connections dev) = Some c
    /\ conn_proxy c = Some (ProxyList 0).
Proof.
  destruct (create_device [] {| wd_testbed := testbed_chain;
                                wd_new_devices := []; wd_ip := None |}
              "Z" record_Z) as [st'|] eqn:E; [|vm_compute in E; discriminate].
  assert (Hne : snd (dl_finder record_Z) <> []) by discriminate.
  destruct (@finder_proxy_shares_list []
              {| wd_testbed := testbed_chain; wd_new_devices := [];
                 wd_ip := None |} st' "Z" record_Z
              {| dev_name := "A"; dev_os := Some "nxos"; dev_type := "device";
                 dev_credentials := [("default", [("username", "admin")])];
                 dev_connections :=
                   [("cli", {| conn_protocol := Some "ssh";
                               conn_ip := Some (Some "10.0.0.1");
                               conn_proxy := Some (ProxyList 0) |})];
                 dev_interfaces := [] |} 0
              (Some "10.0.0.1") eq_refl eq_refl Hne E)
    as (dev & c & _ & _ & H1 & H2 & H3 & _).
  exists st', dev, c. split; [reflexivity|]. split; [exact H1|].
  split; [exact H2|exact H3].
Defined.

(* ================================================================== *)
(** * Further properties: the pass that writes the links *)

Lemma foldM_rel {A S} (R : S -> S -> Prop) (body : S -> A -> result S) :
  (forall s, R s s) -> (forall a b c, R a b -> R b c -> R a c) ->
  (forall s x s', body s x = Ok s' -> R s s') ->
  forall xs s s', foldM body xs s = Ok s' -> R s s'.
Proof.
  intros Hr Ht Hb. induction xs as [|x xs IH]; intros s s'; cbn [foldM].
  - intros [= <-]. apply Hr.
  - destruct (body s x) as [s1|] eqn:E; cbn [bind]; [|discriminate].
    intros H. exact (Ht _ _ _ (Hb _ _ _ E) (IH _ _ H)).
Qed.

Lemma foldM_raises {A S} (P : exn -> Prop) (body : S -> A -> result S) :
  (forall s x e, body s x = Raise e -> P e) ->
  forall xs s e, foldM body xs s = Raise e -> P e.
Proof.
  intros Hb. induction xs as [|x xs IH]; intros s e; cbn [foldM];
    [discriminate|].
  destruct (body s x) as [s1|e1] eqn:E; cbn [bind].
  - apply IH.
  - intros [= <-]. exact (Hb _ _ _ E).
Qed.

Lemma same_but_link_refl (f : Interface) : same_but_link f f.
Proof. unfold same_but_link. auto. Qed.

Lemma same_but_link_trans (f g h : Interface) :
  same_but_link f g -> same_but_link g h -> same_but_link f h.
Proof.
  unfold same_but_link. intros (A1 & A2 & A3 & A4) (B1 & B2 & B3 & B4).
  repeat split; try congruence. auto.
Qed.

Lemma interfaces_kept_refl (tb : Testbed) : interfaces_kept tb tb.
Proof.
  intros i. destruct (lookup_interface tb i); [apply same_but_link_refl|exact I].
Qed.

Lemma interfaces_kept_trans (a b c : Testbed) :
  interfaces_kept a b -> interfaces_kept b c -> interfaces_kept a c.
Proof.
  intros H1 H2 i. specialize (H1 i). specialize (H2 i).
  destruct (lookup_interface a i), (lookup_interface b i),
    (lookup_interface c i); try contradiction; try exact I.
  eapply same_but_link_trans; eassumption.
Qed.

Lemma interfaces_kept_has (tb tb' : Testbed) (i : iface_id) :
  interfaces_kept tb tb' -> (has_interface tb' i <-> has_interface tb i).
Proof.
  intros H. specialize (H i). unfold has_interface.
  destruct (lookup_interface tb i), (lookup_interface tb' i);
    try contradiction.
  - split; eauto.
  - split; intros [f Hf]; discriminate.
Qed.

Lemma links_extended_refl (tb : Testbed) : links_extended tb tb.
Proof.
  intros n L H. exists L. split; [assumption|]. split; [reflexivity|].
  exists []. now rewrite app_nil_r.
Qed.

Lemma links_extended_trans (a b c : Testbed) :
  links_extended a b -> links_extended b c -> links_extended a c.
Proof.
  intros H1 H2 n L H.
  destruct (H1 _ _ H) as (L1 & E1 & N1 & m1 & M1).
  destruct (H2 _ _ E1) as (L2 & E2 & N2 & m2 & M2).
  exists L2. split; [assumption|]. split; [congruence|].
  exists (m1 ++ m2). now rewrite M2, M1, app_assoc.
Qed.

Lemma add_member_nth (l : nat) (i : iface_id) (ls : list Link) (L : Link) :
  nth_error ls l = Some L ->
  nth_error (add_member l i ls) l
  = Some {| link_name := link_name L;
            link_interfaces := link_interfaces L ++ [i] |}.
Proof.
  revert l; induction ls as [|k ls IH]; intros [|l]; cbn; try discriminate.
  - now intros [= ->].
  - apply IH.
Qed.

Lemma connect_links_extended (tb : Testbed) (l : nat) (i : iface_id) :
  links_extended tb (connect_interface tb l i).
Proof.
  intros n L H. cbn [links connect_interface].
  destruct (Nat.eq_dec n l) as [->|Hne].
  - rewrite (add_member_nth _ _ _ H). eexists. split; [reflexivity|].
    split; [reflexivity|]. now exists [i].
  - rewrite add_member_other by assumption. exists L.
    split; [assumption|]. split; [reflexivity|].
    exists []. now rewrite app_nil_r.
Qed.

Lemma connect_interfaces_kept (tb : Testbed) (l : nat) (i : iface_id) :
  interfaces_kept tb (connect_interface tb l i).
Proof.
  intros j. unfold connect_interface. destruct tb as [ds ls cs].
  cbn [devices links chains].
  destruct (iface_id_dec j i) as [->|Hne].
  - rewrite (lookup_set_same i l ds (add_member l i ls) ls cs cs).
    destruct (lookup_interface {| devices := ds; links := ls; chains := cs |} i)
      as [f|]; cbn [bind]; [|exact I].
    unfold same_but_link, set_link. cbn. repeat split. discriminate.
  - rewrite (@lookup_set_other i j l ds (add_member l i ls) ls cs cs Hne).
    destruct (lookup_interface {| devices := ds; links := ls; chains := cs |} j);
      [apply same_but_link_refl|exact I].
Qed.

Lemma connect_all_kept (n : nat) (l : list iface_id) (tb : Testbed) :
  let tb' := fold_left (fun tb i => connect_interface tb n i) l tb in
  links_extended tb tb' /\ interfaces_kept tb tb'.
Proof.
  revert tb; induction l as [|i l IH]; intros tb; cbn [fold_left].
  - split; [apply links_extended_refl|apply interfaces_kept_refl].
  - destruct (IH (connect_interface tb n i)) as [A B]. split.
    + eapply links_extended_trans; [apply connect_links_extended|exact A].
    + eapply interfaces_kept_trans; [apply connect_interfaces_kept|exact B].
Qed.

Lemma new_link_kept (tb : Testbed) (name : str) (l : list iface_id) :
  links_extended tb (new_link tb name l)
  /\ interfaces_kept tb (new_link tb name l).
Proof.
  unfold new_link.
  set (tb0 := {| devices := devices tb;
                 links := links tb ++ [{| link_name := name;
                                          link_interfaces := [] |}];
                 chains := chains tb |}).
  destruct (connect_all_kept (List.length (links tb)) l tb0) as [A B].
  split.
  - eapply links_extended_trans; [|exact A].
    intros n L H. exists L. cbn [links tb0]. split.
    + rewrite nth_error_app1; [assumption|].
      apply nth_error_Some. congruence.
    + split; [reflexivity|]. exists []. now rewrite app_nil_r.
  - eapply interfaces_kept_trans; [|exact B].
    intros i. unfold lookup_interface. cbn [devices tb0].
    destruct (Dict.item (fst i) (devices tb)) as [dev|]; cbn [bind];
      [|exact I].
    destruct (Dict.item (snd i) (dev_interfaces dev));
      [apply same_but_link_refl|exact I].
Qed.

Lemma commit_interface_kept (device : str) (tb tb' : Testbed)
    (item : str * list conn_entry) :
  commit_interface device tb item = Ok tb' ->
  links_extended tb tb' /\ interfaces_kept tb tb'.
Proof.
  intros H. apply commit_interface_cases in H
    as [_ [(_ & int_list & _ & ->)|(l & _ & H)]].
  - apply new_link_kept.
  - revert H.
    apply (foldM_rel (fun a b => links_extended a b /\ interfaces_kept a b)).
    + intros s. split; [apply links_extended_refl|apply interfaces_kept_refl].
    + intros a b c [A1 A2] [B1 B2]. split;
        [eapply links_extended_trans|eapply interfaces_kept_trans];
        eassumption.
    + intros s e s' E. apply extend_step in E as [_ [[-> _]|[-> _]]].
      * split; [apply links_extended_refl|apply interfaces_kept_refl].
      * split; [apply connect_links_extended|apply connect_interfaces_kept].
Qed.

Lemma commit_kept (cd : Dict.t connection_dict_t) (tb tb' : Testbed) :
  _write_connections_to_testbed cd tb = Ok tb' ->
  links_extended tb tb' /\ interfaces_kept tb tb'.
Proof.
  unfold _write_connections_to_testbed.
  assert (Hr : forall s : Testbed, links_extended s s /\ interfaces_kept s s)
    by (intros s; split;
        [apply links_extended_refl|apply interfaces_kept_refl]).
  assert (Ht : forall a b c : Testbed,
            links_extended a b /\ interfaces_kept a b ->
            links_extended b c /\ interfaces_kept b c ->
            links_extended a c /\ interfaces_kept a c).
  { intros a b c [A1 A2] [B1 B2]. split;
      [eapply links_extended_trans|eapply interfaces_kept_trans];
      eassumption. }
  apply (foldM_rel _ commit_device Hr Ht).
  intros s d s'. unfold commit_device.
  apply (foldM_rel _ (commit_interface (fst d)) Hr Ht).
  intros a item b. apply commit_interface_kept.
Qed.

Lemma collect_total (tb : Testbed) (entries : list conn_entry)
    (acc : list iface_id) :
  (forall e, In e entries -> has_interface tb (entry_interface e)) ->
  exists l, foldM (collect_interface tb) entries acc = Ok l.
Proof.
  revert acc; induction entries as [|e entries IH]; intros acc H;
    cbn [foldM]; [eauto|].
  destruct (H e (or_introl eq_refl)) as [f Hf].
  unfold collect_interface at 1. rewrite Hf. cbn [bind].
  apply IH. intros e' He'. apply H. now right.
Qed.

(** With every interface it names at hand, committing a local interface
    fails only when the name of the link to create is taken. *)
Lemma commit_interface_present (device : str) (tb : Testbed)
    (item : str * list conn_entry) :
  has_interface tb (device, fst item) ->
  (forall e, In e (snd item) -> has_interface tb (entry_interface e)) ->
  (exists tb', commit_interface device tb item = Ok tb')
  \/ commit_interface device tb item = Raise DuplicateLinkError.
Proof.
  intros [f Hf] H. unfold commit_interface. rewrite Hf. cbn [bind].
  destruct (if_link f) as [l|].
  - destruct (@extend_again l (snd item) tb H) as [tb' [E _]]. eauto.
  - destruct (@collect_total tb (snd item) [(device, fst item)] H) as [l E].
    rewrite E. cbn [bind].
    destruct (name_taken tb (link_name_for tb)); [now right|eauto].
Qed.

Lemma commit_device_present (d : str * connection_dict_t) (tb : Testbed) :
  (forall item, In item (snd d) ->
     has_interface tb (fst d, fst item)
     /\ forall e, In e (snd item) -> has_interface tb (entry_interface e)) ->
  (exists tb', commit_device tb d = Ok tb')
  \/ commit_device tb d = Raise DuplicateLinkError.
Proof.
  unfold commit_device. destruct d as [device items]. cbn [fst snd].
  revert tb; induction items as [|item items IH]; intros tb H; cbn [foldM];
    [eauto|].
  destruct (H item (or_introl eq_refl)) as [H1 H2].
  destruct (@commit_interface_present device tb item H1 H2) as [[tb1 E]|E];
    rewrite E; cbn [bind]; [|now right].
  apply IH. intros item' Hin.
  destruct (H item' (or_intror Hin)) as [K1 K2].
  destruct (@commit_interface_kept device tb tb1 item E) as [_ K].
  split; [now apply (@interfaces_kept_has tb tb1 _ K)|].
  intros e He. apply (@interfaces_kept_has tb tb1 _ K). auto.
Qed.

Lemma commit_present (cd : Dict.t connection_dict_t) (tb : Testbed) :
  all_present cd tb ->
  (exists tb', _write_connections_to_testbed cd tb = Ok tb')
  \/ _write_connections_to_testbed cd tb = Raise DuplicateLinkError.
Proof.
  unfold _write_connections_to_testbed.
  revert tb; induction cd as [|d cd IH]; intros tb H; cbn [foldM]; [eauto|].
  destruct (@commit_device_present d tb) as [[tb1 E]|E].
  { intros item Hi. apply (H d item); [now left|assumption]. }
  2:{ rewrite E. now right. }
  rewrite E. cbn [bind]. apply IH. intros d' item Hd Hi.
  assert (K : interfaces_kept tb tb1).
  { revert E. unfold commit_device.
    apply (foldM_rel interfaces_kept (commit_interface (fst d))
             interfaces_kept_refl interfaces_kept_trans).
    intros a x b Hx. now apply commit_interface_kept in Hx. }
  destruct (H d' item (or_intror Hd) Hi) as [K1 K2].
  split; [now apply (@interfaces_kept_has tb tb1 _ K)|].
  intros e He. apply (@interfaces_kept_has tb tb1 _ K). auto.
Qed.

Lemma lookup_raises (tb : Testbed) (i : iface_id) (e : exn) :
  lookup_interface tb i = Raise e -> e = KeyError.
Proof.
  unfold lookup_interface, Dict.item.
  destruct (Dict.get (fst i) (devices tb)) as [dev|]; cbn [of_option bind].
  - destruct (Dict.get (snd i) (dev_interfaces dev)); cbn [of_option];
      congruence.
  - congruence.
Qed.

Lemma commit_interface_raises (device : str) (tb : Testbed)
    (item : str * list conn_entry) (e : exn) :
  commit_interface device tb item = Raise e ->
  e = KeyError \/ e = DuplicateLinkError.
Proof.
  unfold commit_interface.
  destruct (lookup_interface tb (device, fst item)) as [f|e1] eqn:E;
    cbn [bind]; [|intros [= <-]; left; exact (@lookup_raises _ _ _ E)].
  destruct (if_link f) as [l|].
  - apply (foldM_raises (fun e => e = KeyError \/ e = DuplicateLinkError)).
    intros s x e1. unfold extend_link.
    destruct (lookup_interface s (entry_interface x)) eqn:E1; cbn [bind];
      [discriminate|intros [= <-]; left; exact (@lookup_raises _ _ _ E1)].
  - destruct (foldM (collect_interface tb) (snd item) [(device, fst item)])
      as [l|e1] eqn:E1; cbn [bind].
    + destruct (name_taken tb (link_name_for tb)); [|discriminate].
      intros [= <-]. now right.
    + intros [= <-]. left. revert E1.
      apply (foldM_raises (fun e => e = KeyError)). intros s x e2.
      unfold collect_interface.
      destruct (lookup_interface tb (entry_interface x)) eqn:E2; cbn [bind];
        [discriminate|intros [= <-]; exact (@lookup_raises _ _ _ E2)].
Qed.

(** An interface that refers to a link of the arena makes it a link of
    [testbed.links]. *)
Lemma link_of_referred (tb : Testbed) (i : iface_id) (l : nat) :
  link_of tb i = Some l -> referred tb l = true.
Proof.
  unfold link_of. destruct (lookup_interface tb i) as [f|] eqn:E;
    [|discriminate].
  intros Hl. apply lookup_iff in E as (dev & Hd & Hf).
  apply get_in in Hd as [k Hk]. apply get_in in Hf as [k' Hk'].
  unfold referred. apply existsb_exists. exists dev. split.
  - apply in_map_iff. now exists (k, dev).
  - apply existsb_exists. exists f. split.
    + apply in_map_iff. now exists (k', f).
    + unfold refers_to. rewrite Hl. apply Nat.eqb_refl.
Qed.

Lemma link_of_live (tb : Testbed) (i : iface_id) (l : nat) :
  link_of tb i = Some l -> (l < List.length (links tb))%nat ->
  In l (testbed_links tb).
Proof.
  intros Hl Hlt. unfold testbed_links. apply filter_In. split.
  - apply in_seq. lia.
  - exact (@link_of_referred tb i l Hl).
Qed.

(** X14.  On a testbed in which the members of the links and the link
    references of the interfaces agree, and when each remote interface is
    in no link or in the link of the local interface at the time it is
    committed, the pass over [connection_dict] leaves each local interface
    it lists and all the remote interfaces listed for it referring to one
    and the same link, a link of [testbed.links] of which they are
    members. *)
Theorem link_commit_connects (cd : Dict.t connection_dict_t)
    (tb tb' : Testbed) (d : str * connection_dict_t)
    (item : str * list conn_entry) :
  coherent tb -> safe_commit cd tb ->
  _write_connections_to_testbed cd tb = Ok tb' ->
  In d cd -> In item (snd d) ->
  exists l,
    In l (testbed_links tb')
    /\ link_of tb' (fst d, fst item) = Some l
    /\ In (fst d, fst item) (link_members tb' l)
    /\ forall e, In e (snd item) ->
         link_of tb' (entry_interface e) = Some l
         /\ In (entry_interface e) (link_members tb' l).
Proof.
  intros Hc Hs H Hd Hi.
  destruct (@commit_coherent cd tb tb' Hc Hs H) as [_ Hm].
  destruct (@commit_shares cd tb tb' (proj1 Hc) H d item Hd Hi)
    as [_ [l [A B]]].
  exists l. split; [|split; [|split]].
  - apply (@link_of_live tb' (fst d, fst item) l); [now apply Hm|].
    exact (@members_valid tb' l _ A).
  - now apply Hm.
  - exact A.
  - intros e He. destruct (B e He) as [_ Hin]. split; [now apply Hm|exact Hin].
Qed.

Lemma link_commit_connects_witness :
  exists tb' l,
    _write_connections_to_testbed both_ends testbed_ABC = Ok tb'
    /\ link_of tb' ("B", "Gi0/1") = Some l
    /\ link_of tb' ("A", "Gi0/1") = Some l.
Proof.
  assert (Hc : coherent testbed_ABC)
    by (apply no_links_coherent; reflexivity).
  assert (Hs : safe_commit both_ends testbed_ABC)
    by (unfold both_ends; run_safe).
  destruct (@link_commit_connects both_ends testbed_ABC _
              ("B", [("Gi0/1", [entry "A" "Gi0/1"])])
              ("Gi0/1", [entry "A" "Gi0/1"]) Hc Hs eq_refl)
    as (l & _ & A & _ & B); [right; now left|now left|].
  do 2 eexists. split; [reflexivity|]. split; [exact A|].
  apply (B (entry "A" "Gi0/1")). now left.
Defined.

(** X15.  The pass over [connection_dict] creates and deletes no interface
    and no device: an interface changes in nothing but its link reference,
    and one that referred to a link refers to a link afterwards.  A link
    of [testbed.links] keeps its name, and its members stay its first
    members, in their order. *)
Theorem link_commit_keeps (cd : Dict.t connection_dict_t)
    (tb tb' : Testbed) :
  _write_connections_to_testbed cd tb = Ok tb' ->
  interfaces_kept tb tb'
  /\ Dict.keys (devices tb') = Dict.keys (devices tb)
  /\ forall l, In l (testbed_links tb) ->
       link_name_of tb' l = link_name_of tb l
       /\ exists more, link_members tb' l = link_members tb l ++ more.
Proof.
  intros H. destruct (@commit_kept cd tb tb' H) as [A B].
  split; [assumption|]. split; [exact (@commit_keys cd tb tb' H)|].
  intros l Hl. unfold testbed_links in Hl. apply filter_In in Hl as [Hl _].
  apply in_seq in Hl. unfold link_name_of, link_members.
  destruct (nth_error (links tb) l) as [L|] eqn:E.
  - destruct (A _ _ E) as (L' & -> & Hn & more & Hm). split; [exact Hn|].
    now exists more.
  - apply nth_error_None in E. lia.
Qed.

Lemma link_commit_keeps_witness :
  exists tb',
    _write_connections_to_testbed both_ends testbed_ABC = Ok tb'
    /\ Dict.keys (devices tb') = ["A"; "B"; "C"].
Proof.
  eexists. split; [reflexivity|].
  destruct (@link_commit_keeps both_ends testbed_ABC _ eq_refl)
    as (_ & K & _).
  exact K.
Defined.

(** X16.  [_write_connections_to_testbed] skips nothing silently: when some
    interface that [connection_dict] names, local or remote, is not an
    interface of a device of the testbed, the pass fails.  It fails with
    [KeyError] or with [DuplicateLinkError] only, and when every named
    interface is there, with [DuplicateLinkError] only: the name made for
    a new link is already the name of a link of the testbed. *)
Theorem link_commit_failures (cd : Dict.t connection_dict_t)
    (tb : Testbed) :
  ((exists tb', _write_connections_to_testbed cd tb = Ok tb') ->
   all_present cd tb)
  /\ (forall e, _write_connections_to_testbed cd tb = Raise e ->
                e = KeyError \/ e = DuplicateLinkError)
  /\ (all_present cd tb ->
      forall e, _write_connections_to_testbed cd tb = Raise e ->
                e = DuplicateLinkError).
Proof.
  split; [|split].
  - intros [tb' H] d item Hd Hi.
    destruct (@commit_kept cd tb tb' H) as [_ K].
    destruct (@commit_applies cd tb tb' H d item Hd Hi) as [[l Hl] He].
    split.
    + apply (@interfaces_kept_has tb tb' _ K). exact (@link_of_has tb' _ l Hl).
    + intros e' He'. apply (@interfaces_kept_has tb tb' _ K). auto.
  - unfold _write_connections_to_testbed.
    apply (foldM_raises (fun e => e = KeyError \/ e = DuplicateLinkError)).
    intros s d e. unfold commit_device.
    apply (foldM_raises (fun e => e = KeyError \/ e = DuplicateLinkError)).
    intros a x e1. apply commit_interface_raises.
  - intros Hp e He. destruct (@commit_present cd tb Hp) as [[tb' E]|E];
      congruence.
Qed.

Lemma add_member_last (ls : list Link) (L : Link) (i : iface_id) :
  add_member (List.length ls) i (ls ++ [L])
  = ls ++ [{| link_name := link_name L;
              link_interfaces := link_interfaces L ++ [i] |}].
Proof. induction ls as [|k ls IH]; cbn; [reflexivity|now rewrite IH]. Qed.

Lemma connect_all_last (ls : list Link) (name : str) (l acc : list iface_id)
    (ds : Dict.t Device) (cs : list (list proxy_step)) :
  links (fold_left (fun tb i => connect_interface tb (List.length ls) i) l
           {| devices := ds;
              links := ls ++ [{| link_name := name;
                                 link_interfaces := acc |}];
              chains := cs |})
  = ls ++ [{| link_name := name; link_interfaces := acc ++ l |}].
Proof.
  revert acc ds; induction l as [|i l IH]; intros acc ds; cbn [fold_left].
  - now rewrite app_nil_r.
  - unfold connect_interface at 2. cbn [devices links chains].
    rewrite add_member_last. cbn [link_name link_interfaces].
    rewrite IH, <- app_assoc. reflexivity.
Qed.

Lemma collect_nodup (tb : Testbed) (entries : list conn_entry)
    (acc l : list iface_id) :
  NoDup acc -> foldM (collect_interface tb) entries acc = Ok l ->
  NoDup l /\ exists more, l = acc ++ more.
Proof.
  revert acc; induction entries as [|e entries IH]; intros acc Hn;
    cbn [foldM].
  - intros [= <-]. split; [assumption|]. exists []. now rewrite app_nil_r.
  - unfold collect_interface at 1.
    destruct (lookup_interface tb (entry_interface e)); cbn [bind];
      [|discriminate].
    destruct (iface_mem (entry_interface e) acc) eqn:Em.
    + apply IH. assumption.
    + intros H. apply iface_mem_false in Em.
      destruct (IH (acc ++ [entry_interface e])) with (2 := H)
        as [A [more B]].
      { apply NoDup_app; [assumption|repeat constructor; auto|].
        intros x Hx [<-|[]]. contradiction. }
      split; [assumption|]. exists (entry_interface e :: more).
      now rewrite B, <- app_assoc.
Qed.

(** X17.  For a local interface that has no link, the pass creates one.
    The new link is named [Link_<k>], [k] the number of links of
    [testbed.links] at that time, the links some interface refers to.  Its
    members are the local interface, first, and then the remote interfaces
    listed for it, each once; afterwards every member refers to the new
    link, whatever link it referred to before, and the new link is a link
    of [testbed.links]. *)
Theorem commit_interface_new_link (device : str) (tb tb' : Testbed)
    (item : str * list conn_entry) :
  link_of tb (device, fst item) = None ->
  commit_interface device tb item = Ok tb' ->
  let new := List.length (links tb) in
  exists remotes,
    link_name_of tb' new = link_name_for tb
    /\ link_members tb' new = (device, fst item) :: remotes
    /\ NoDup ((device, fst item) :: remotes)
    /\ (forall i, In i remotes <->
          i <> (device, fst item)
          /\ exists e, In e (snd item) /\ i = entry_interface e)
    /\ (forall i, In i ((device, fst item) :: remotes) ->
          link_of tb' i = Some new)
    /\ In new (testbed_links tb').
Proof.
  intros Hnone H new.
  destruct (@commit_interface_cases device tb tb' item H)
    as [Hhas [(_ & int_list & Hc & ->)|(l & Hl & _)]]; [|congruence].
  destruct (@collect_nodup tb (snd item) [(device, fst item)] int_list)
    as [Hnd [remotes ->]]; [repeat constructor; auto|assumption|].
  cbn [app] in *. exists remotes.
  destruct (@collect_spec tb (snd item) [(device, fst item)] _ Hc)
    as (S1 & _ & S3).
  assert (Hall : forall i, In i ((device, fst item) :: remotes) ->
                           has_interface tb i)
    by exact (@collected_have device tb item _ Hhas Hc).
  destruct (@new_link_spec tb (link_name_for tb) _ Hall)
    as (_ & _ & _ & K & _).
  assert (Hlinks : forall int_list : list iface_id,
            links (new_link tb (link_name_for tb) int_list)
            = links tb ++ [{| link_name := link_name_for tb;
                              link_interfaces := int_list |}]).
  { intros int_list. unfold new_link. rewrite connect_all_last.
    reflexivity. }
  split; [|split; [|split; [|split; [|split]]]].
  - unfold link_name_of. rewrite Hlinks.
    rewrite nth_error_app2 by (unfold new; lia).
    unfold new. now rewrite Nat.sub_diag.
  - unfold link_members. rewrite Hlinks.
    rewrite nth_error_app2 by (unfold new; lia).
    unfold new. now rewrite Nat.sub_diag.
  - assumption.
  - intros i. split.
    + intros Hi. split.
      * intros ->. now inversion Hnd.
      * destruct (S3 i (or_intror Hi)) as [[<-|[]]|He]; [|assumption].
        now inversion Hnd.
    + intros [Hne [e [He ->]]].
      destruct (S1 e He) as [_ [Heq|Hin]]; [congruence|assumption].
  - intros i Hi. now apply K.
  - apply (@link_of_live _ (device, fst item) new).
    + apply K. now left.
    + rewrite Hlinks, length_app. cbn. unfold new. lia.
Qed.

Lemma commit_interface_new_link_witness :
  exists tb',
    commit_interface "A" testbed_ABC ("Gi0/1", [entry "B" "Gi0/1"]) = Ok tb'
    /\ link_name_of tb' 0 = "Link_0"
    /\ link_members tb' 0 = [("A", "Gi0/1"); ("B", "Gi0/1")].
Proof.
  destruct (@commit_interface_new_link "A" testbed_ABC _
              ("Gi0/1", [entry "B" "Gi0/1"]) eq_refl eq_refl)
    as (remotes & E & _).
  eexists. split; [reflexivity|]. split; [exact E|reflexivity].
Defined.

(* ================================================================== *)
(** * Further properties: one round of discovery *)

Lemma mark_all_visited (keys visited : list str) :
  (forall d, In d keys -> In d visited) ->
  fold_left mark_device keys (visited, []) = (visited, []).
Proof.
  induction keys as [|k keys IH]; intros H; cbn [fold_left]; [reflexivity|].
  unfold mark_device at 2. cbn [fst snd].
  assert (E : set_mem_str k visited = true)
    by (apply set_mem_correct2; apply H; now left).
  rewrite E. apply IH. intros d Hd. apply H. now right.
Qed.

Lemma process_devices_conn_keys (cfg : Config) (env : Env)
    (nets : list network) (todo : list str)
    (acc acc' : Dict.t connection_dict_t * device_list_t * Testbed) :
  foldM (process_device cfg env nets) todo acc = Ok acc' ->
  forall d, In d (Dict.keys (fst (fst acc'))) <->
            In d (Dict.keys (fst (fst acc))) \/ In d todo.
Proof.
  revert acc; induction todo as [|device todo IH]; intros acc; cbn [foldM].
  - intros [= <-] d. cbn. tauto.
  - destruct (process_device cfg env nets acc device) as [acc1|] eqn:E;
      cbn [bind]; [|discriminate].
    intros H d. rewrite (IH _ H d). clear IH H.
    unfold process_device in E. destruct acc as [[conn_dict dl] tb].
    destruct (get_device_connections _ _ _ _ _ _) as [[[cs dl1] tb1]|];
      cbn [bind] in E; [|discriminate].
    injection E as <-. cbn [fst snd]. split.
    + intros [Hd|Hd]; [|right; now right].
      apply set_keys_incl in Hd as [<-|Hd]; [right; now left|now left].
    + intros [Hd|[<-|Hd]]; [left|left|now right].
      * now apply keys_incl_set.
      * apply mem_keys. unfold Dict.mem. now rewrite get_set_same.
Qed.

(** X18.  [process_neigbor_data] queries exactly the devices of the testbed
    that were not visited yet: they are the keys of the dictionary it
    returns, and there is at least one.  Afterwards every device of the
    testbed is visited and no device was added or removed; a second call
    right away finds no device to query and fails in [pcall] with
    [IndexError]. *)
Theorem process_neigbor_data_visits (cfg : Config) (env : Env)
    (nets : list network) (st st' : run_state)
    (conn_dict : Dict.t connection_dict_t) :
  process_neigbor_data cfg env nets st = Ok (conn_dict, st') ->
  (forall d, In d (Dict.keys conn_dict) <->
             In d (Dict.keys (devices (rs_testbed st)))
             /\ ~ In d (rs_visited st))
  /\ conn_dict <> []
  /\ (forall d, In d (Dict.keys (devices (rs_testbed st'))) ->
                In d (rs_visited st'))
  /\ incl (rs_visited st) (rs_visited st')
  /\ Dict.keys (devices (rs_testbed st')) = Dict.keys (devices (rs_testbed st))
  /\ process_neigbor_data cfg env nets st' = Raise IndexError.
Proof.
  unfold process_neigbor_data at 1.
  pose proof (mark_unvisited_spec (rs_testbed st) (rs_visited st)) as M.
  cbv zeta in M.
  destruct (mark_unvisited (rs_testbed st) (rs_visited st))
    as [visited todo] eqn:Em.
  cbn [fst snd] in M. destruct M as (M1 & M2 & _ & _ & M5).
  called_devices todo.
  destruct (foldM (process_device cfg env nets) todo
              ([], rs_device_list st, rs_testbed st))
    as [[[cd dl] tb]|] eqn:Ef; cbn [bind]; [|discriminate].
  intros [= <- <-]. cbn [rs_testbed rs_visited].
  pose proof (process_devices_conn_keys _ _ _ _ _ Ef) as K.
  destruct (process_devices_spec _ _ _ _ _ Ef) as [Hk _].
  cbn [fst snd] in K, Hk.
  assert (Hall : forall d, In d (Dict.keys (devices tb)) -> In d visited)
    by (intros d Hd; apply M2; now rewrite <- Hk).
  split; [|split; [|split; [|split; [|split]]]].
  - intros d. rewrite K, <- M5. cbn. tauto.
  - destruct todo as [|d0 todo0]; [congruence|].
    intros ->. apply (proj2 (K d0)). right. now left.
  - exact Hall.
  - exact M1.
  - exact Hk.
  - unfold process_neigbor_data, mark_unvisited. cbn [rs_testbed rs_visited].
    rewrite (mark_all_visited _ _ Hall). reflexivity.
Qed.

Lemma process_neigbor_data_visits_witness :
  exists conn_dict st',
    process_neigbor_data (no_exclusions false) env_edge1 []
      (initial_state testbed_A) = Ok (conn_dict, st')
    /\ Dict.keys conn_dict = ["A"]
    /\ process_neigbor_data (no_exclusions false) env_edge1 [] st'
       = Raise IndexError.
Proof.
  do 2 eexists. split; [reflexivity|]. split; [reflexivity|].
  destruct (@process_neigbor_data_visits (no_exclusions false) env_edge1 []
              (initial_state testbed_A) _ _ eq_refl)
    as (_ & _ & _ & _ & _ & K).
  exact K.
Defined.

Lemma cdp_links_only_fold (cfg : Config) (nets : list network) (tb : Testbed)
    (name : str) (entries : list cdp_entry) (st st' : merge_state) :
  only_links cfg = true ->
  incl (Dict.keys (fst st)) (Dict.keys (devices tb)) ->
  _process_cdp_information cfg nets tb name entries st = Ok st' ->
  incl (Dict.keys (fst st')) (Dict.keys (devices tb)).
Proof.
  intros Hol. unfold _process_cdp_information.
  revert st; induction entries as [|c entries IH]; intros st Hdl;
    cbn [foldM].
  - now intros [= <-].
  - destruct (process_cdp_entry cfg nets tb name st c) as [st1|] eqn:E;
      cbn [bind]; [|discriminate].
    apply IH. intros x Hx.
    apply (@cdp_links_only_names cfg nets tb name st st1 c Hol E) in Hx.
    apply in_app_or in Hx as [Hx|Hx]; auto.
Qed.

Lemma links_only_cdp_connections (cfg : Config) (nets : list network)
    (tb tb' : Testbed) (name : str) (data : neighbor_data)
    (dl dl' : device_list_t) (cd : connection_dict_t) :
  only_links cfg = true -> lldp data = None ->
  incl (Dict.keys dl) (Dict.keys (devices tb)) ->
  get_device_connections cfg nets tb name data dl = Ok (cd, dl', tb') ->
  incl (Dict.keys dl') (Dict.keys (devices tb'))
  /\ Dict.keys (devices tb') = Dict.keys (devices tb).
Proof.
  intros Hol Hl Hdl. unfold get_device_connections. rewrite Hl.
  set (st0 := (dl, []) : merge_state).
  assert (H0 : incl (Dict.keys (fst st0)) (Dict.keys (devices tb)))
    by exact Hdl.
  clearbody st0.
  destruct (match cdp data with
            | Some parsed => _process_cdp_information cfg nets tb name parsed st0
            | None => Ok st0
            end) as [st1|] eqn:E1; cbn [bind]; [|discriminate].
  assert (H1 : incl (Dict.keys (fst st1)) (Dict.keys (devices tb))).
  { destruct (cdp data) as [entries|].
    - exact (@cdp_links_only_fold cfg nets tb name entries st0 st1 Hol H0 E1).
    - now injection E1 as <-. }
  destruct (foldM (ensure_interface_on name) _ tb) as [tb1|] eqn:E3;
    cbn [bind]; [|discriminate].
  intros [= <- <- <-].
  pose proof (@ensure_interfaces_keys name _ tb tb1 E3) as K.
  split; [now rewrite K|exact K].
Qed.

Lemma links_only_cdp_devices (cfg : Config) (env : Env) (nets : list network)
    (todo : list str)
    (acc acc' : Dict.t connection_dict_t * device_list_t * Testbed) :
  only_links cfg = true ->
  (forall device, lldp (get_neighbor_info env device) = None) ->
  incl (Dict.keys (snd (fst acc))) (Dict.keys (devices (snd acc))) ->
  foldM (process_device cfg env nets) todo acc = Ok acc' ->
  incl (Dict.keys (snd (fst acc'))) (Dict.keys (devices (snd acc')))
  /\ Dict.keys (devices (snd acc')) = Dict.keys (devices (snd acc)).
Proof.
  intros Hol Hl. revert acc; induction todo as [|device todo IH];
    intros acc Hdl; cbn [foldM].
  - intros [= <-]. now split.
  - destruct (process_device cfg env nets acc device) as [acc1|] eqn:E;
      cbn [bind]; [|discriminate].
    intros H. unfold process_device in E. destruct acc as [[conn_dict dl] tb].
    cbn [fst snd] in *.
    destruct (get_device_connections _ _ _ _ _ _) as [[[cs dl1] tb1]|] eqn:Eg;
      cbn [bind] in E; [|discriminate].
    injection E as <-.
    destruct (@links_only_cdp_connections cfg nets tb tb1 device _ dl dl1 cs
                Hol (Hl device) Hdl Eg) as [A B].
    destruct (IH (Dict.set device cs conn_dict, dl1, tb1) A H) as [C D].
    cbn [fst snd] in *.
    split; [assumption|congruence].
Qed.

(** X19.  In links-only mode, when the neighbour data holds no LLDP part
    and [device_list] names only devices of the testbed, a round of the
    discovery loop leaves the set of devices of the testbed as it was:
    CDP entries alone never add a device in this mode. *)
Theorem links_only_cdp_adds_nothing (cfg : Config) (env : Env)
    (nets : list network) (proxy_set : list str) (st st' : run_state) :
  only_links cfg = true ->
  (forall device, lldp (get_neighbor_info env device) = None) ->
  incl (Dict.keys (rs_device_list st)) (Dict.keys (devices (rs_testbed st))) ->
  discovery_round cfg env nets proxy_set st = Ok st' ->
  Dict.keys (devices (rs_testbed st')) = Dict.keys (devices (rs_testbed st))
  /\ incl (Dict.keys (rs_device_list st'))
          (Dict.keys (devices (rs_testbed st'))).
Proof.
  intros Hol Hl Hdl. unfold discovery_round, process_neigbor_data.
  destruct (mark_unvisited (rs_testbed st) (rs_visited st))
    as [visited todo].
  called_devices todo.
  destruct (foldM (process_device cfg env nets) todo
              ([], rs_device_list st, rs_testbed st))
    as [[[cd dl] tb]|] eqn:Ef; cbn [bind]; [|discriminate].
  destruct (@links_only_cdp_devices cfg env nets todo
              ([], rs_device_list st, rs_testbed st) (cd, dl, tb)
              Hol Hl Hdl Ef)
    as [A B].
  cbn [fst snd rs_device_list rs_testbed] in *.
  destruct (_write_devices_into_testbed cfg env proxy_set dl tb)
    as [[nd tb2]|] eqn:Ew; cbn [bind]; [|discriminate].
  destruct (@write_devices_new cfg env proxy_set dl tb tb2 nd Ew)
    as (N1 & _ & N3).
  assert (Hnd : nd = []).
  { destruct nd as [|[k d] nd]; [reflexivity|].
    destruct (proj1 (N1 k) (or_introl eq_refl)) as [Hk Hm].
    apply A in Hk. apply mem_keys in Hk. congruence. }
  subst nd.
  destruct (_write_connections_to_testbed cd (add_devices [] tb2))
    as [tb3|] eqn:Ec; cbn [bind]; [|discriminate].
  intros [= <-]. cbn [rs_testbed rs_device_list].
  pose proof (@commit_keys cd _ tb3 Ec) as K.
  unfold add_devices, with_devices in K.
  cbn [Dict.values map fold_left devices] in K.
  split; [congruence|]. rewrite K, N3. exact A.
Qed.

Lemma links_only_cdp_adds_nothing_witness :
  exists st',
    discovery_round (no_exclusions true) env_edge1 [] []
      (initial_state testbed_A) = Ok st'
    /\ Dict.keys (devices (rs_testbed st')) = ["A"].
Proof.
  destruct (discovery_round (no_exclusions true) env_edge1 [] []
              (initial_state testbed_A)) as [st'|] eqn:E;
    [|vm_compute in E; discriminate].
  exists st'. split; [reflexivity|].
  refine (proj1 (@links_only_cdp_adds_nothing (no_exclusions true) env_edge1
                   [] [] (initial_state testbed_A) st' eq_refl _ _ E)).
  - intros device. cbn. now destruct (String.eqb device "A").
  - intros x [].
Defined.

(* ================================================================== *)
(** * Further properties: the output describes the graph *)

Lemma latest_in {X} (key : X -> str) (k : str) (xs : list X) (x : X) :
  latest key k xs = Some x -> In x xs /\ key x = k.
Proof.
  unfold latest. intros H. apply find_some in H as [Hin Hk].
  split; [now apply in_rev|now apply String.eqb_eq].
Qed.

Lemma describe_devices_named (tb : Testbed) (cred : yaml)
    (input : Dict.t yaml) (devs : list Device) (st st' : yd_state) :
  foldM (describe_device tb cred input) devs st = Ok st' ->
  incl (Dict.keys (yd_devices st)) (Dict.keys (yd_devices st'))
  /\ forall dev, In dev devs ->
       exists known,
         input_devices input = Ok known
         /\ (Dict.mem (dev_name dev) known = true
             \/ In (dev_name dev) (Dict.keys (yd_devices st'))).
Proof.
  revert st; induction devs as [|dev devs IH]; intros st; cbn [foldM].
  - intros [= <-]. split; [apply incl_refl|intros dev []].
  - destruct (describe_device tb cred input st dev) as [st1|] eqn:E;
      cbn [bind]; [|discriminate].
    intros H. destruct (IH _ H) as [A B]. clear IH.
    unfold describe_device in E.
    destruct (input_devices input) as [known|] eqn:Ek; cbn [bind] in E;
      [|discriminate].
    destruct (Dict.mem (dev_name dev) known) eqn:Em; cbn [negb bind] in E.
    + injection E as <-. cbn [yd_devices] in A. split; [assumption|].
      intros dev' [<-|Hin]; [|now apply B].
      exists known. split; [reflexivity|now left].
    + destruct (device_entry tb cred dev (yd_connect st)) as [[entry connect]|];
        cbn [bind] in E; [|discriminate].
      injection E as <-. cbn [yd_devices] in A. split.
      * eapply incl_tran; [apply keys_incl_set|exact A].
      * intros dev' [<-|Hin]; [|now apply B].
        exists known. split; [reflexivity|]. right. apply A.
        apply mem_keys. unfold Dict.mem. now rewrite get_set_same.
Qed.

Lemma merge_devices_names (gen ty ty' known : Dict.t yaml) :
  foldM merge_device gen ty = Ok ty' ->
  input_devices ty = Ok known ->
  exists known',
    input_devices ty' = Ok known'
    /\ incl (Dict.keys known) (Dict.keys known')
    /\ (forall item, In item gen -> In (fst item) (Dict.keys known'))
    /\ Dict.get "devices" ty' = Some (YMap known').
Proof.
  revert ty known; induction gen as [|item gen IH]; intros ty known;
    cbn [foldM].
  - intros [= <-] Hk. exists known. split; [assumption|].
    split; [apply incl_refl|]. split; [intros item []|].
    unfold input_devices, Dict.item in Hk.
    destruct (Dict.get "devices" ty) as [[| | | |m]|]; cbn in Hk;
      try discriminate.
    now injection Hk as ->.
  - intros H Hk. unfold merge_device at 1 in H. rewrite Hk in H.
    cbn [bind] in H.
    destruct (Dict.mem (fst item) known) eqn:Em; cbn [bind] in H.
    + destruct (IH _ _ H Hk) as (known' & A & B & C & D).
      exists known'. split; [assumption|]. split; [assumption|].
      split; [|assumption].
      intros item' [<-|Hin]; [|now apply C].
      apply B. now apply mem_keys.
    + destruct (IH _ _ H (input_devices_set _ _)) as (known' & A & B & C & D).
      exists known'. split; [assumption|]. split.
      * eapply incl_tran; [apply keys_incl_set|exact B].
      * split; [|assumption].
        intros item' [<-|Hin]; [|now apply C].
        apply B. apply mem_keys. unfold Dict.mem. now rewrite get_set_same.
Qed.

(** X20.  The configuration [create_yaml_dict] returns describes every
    device of the graph: the device is listed in the section [devices], and
    the section [topology] holds, under its name, an [interfaces] table
    with the entry of each of its interfaces. *)
Theorem output_describes_graph (tb : Testbed) (cred : yaml)
    (input output : Dict.t yaml) (d : str) (dev : Device) :
  create_yaml_dict tb cred input = Ok output ->
  graph_device tb d = Some dev ->
  exists ds' T' em entries,
    Dict.get "devices" output = Some (YMap ds')
    /\ Dict.mem d ds' = true
    /\ Dict.get "topology" output = Some (YMap T')
    /\ Dict.get d T' = Some (YMap em)
    /\ Dict.get "interfaces" em = Some (YMap entries)
    /\ forall i f, graph_interface dev i = Some f ->
                   Dict.get i entries = Some (interface_entry tb f).
Proof.
  unfold create_yaml_dict. intros H Hg.
  destruct (foldM (describe_device tb cred input) _ _) as [yaml_dict|x] eqn:Ed;
    cbn [bind] in H; [|discriminate].
  destruct (foldM merge_device _ input) as [ty|x] eqn:Em; cbn [bind] in H;
    [|discriminate].
  destruct (@latest_in _ dev_name d _ dev Hg) as [Hin Hname].
  destruct (@describe_devices_named tb cred input _ _ _ Ed) as [_ Hd].
  destruct (Hd dev Hin) as (known & Hk & Hcase).
  destruct (@merge_devices_names _ input ty known Em Hk)
    as (known' & _ & Hincl & Hgen & Hdev).
  assert (Hmem : Dict.mem d known' = true).
  { apply mem_keys. rewrite <- Hname. destruct Hcase as [Hc|Hc].
    - apply Hincl. now apply mem_keys.
    - apply in_map_iff in Hc as [item [Hf Hi]]. rewrite <- Hf. now apply Hgen. }
  destruct (@generated_topology tb cred input yaml_dict Ed) as [Hnd Hgt].
  assert (Hentries : forall i f, graph_interface dev i = Some f ->
            Dict.get i (interface_entries tb dev) = Some (interface_entry tb f)).
  { intros i f Hf. now rewrite interface_entries_get, Hf. }
  assert (Hfin : forall T' em entries,
            output = Dict.set "topology" (YMap T') ty ->
            Dict.get d T' = Some (YMap em) ->
            Dict.get "interfaces" em = Some (YMap entries) ->
            (forall i f, graph_interface dev i = Some f ->
                         Dict.get i entries = Some (interface_entry tb f)) ->
            exists ds' T' em entries,
              Dict.get "devices" output = Some (YMap ds')
              /\ Dict.mem d ds' = true
              /\ Dict.get "topology" output = Some (YMap T')
              /\ Dict.get d T' = Some (YMap em)
              /\ Dict.get "interfaces" em = Some (YMap entries)
              /\ forall i f, graph_interface dev i = Some f ->
                             Dict.get i entries = Some (interface_entry tb f)).
  { intros T' em entries -> H1 H2 H3. exists known', T', em, entries.
    split; [rewrite get_set_other by discriminate; exact Hdev|].
    split; [exact Hmem|]. split; [apply get_set_same|]. auto. }
  assert (Hnew : forall T',
            output = Dict.set "topology" (YMap T') ty ->
            Dict.get d T' = Some (interface_dict (interface_entries tb dev)) ->
            exists ds' T' em entries,
              Dict.get "devices" output = Some (YMap ds')
              /\ Dict.mem d ds' = true
              /\ Dict.get "topology" output = Some (YMap T')
              /\ Dict.get d T' = Some (YMap em)
              /\ Dict.get "interfaces" em = Some (YMap entries)
              /\ forall i f, graph_interface dev i = Some f ->
                             Dict.get i entries = Some (interface_entry tb f)).
  { intros T' E1 E2.
    apply (Hfin T' [("interfaces", YMap (interface_entries tb dev))]
             (interface_entries tb dev) E1 E2);
      [reflexivity|exact Hentries]. }
  unfold merge_topology in H.
  destruct (Dict.get "topology" ty) as [y|].
  2:{ injection H as <-. eapply Hnew; [reflexivity|].
      rewrite get_map_values, Hgt, Hg. reflexivity. }
  destruct y as [| | | |T0]; cbn [as_map bind] in H; try discriminate.
  { injection H as <-. eapply Hnew; [reflexivity|].
    rewrite get_map_values, Hgt, Hg. reflexivity. }
  destruct (foldM merge_topology_device _ T0) as [T'|x] eqn:Ef;
    cbn [bind] in H; [|discriminate].
  injection H as <-.
  pose proof (@merge_topology_get _ _ _ d Hnd Ef) as M.
  rewrite Hgt, Hg in M. cbn [option_map] in M.
  destruct (Dict.get d T0) as [e|].
  - destruct M as (em & old & -> & Hold & HT').
    apply (Hfin T' _ (Dict.update old (interface_entries tb dev)) eq_refl HT');
      [apply get_set_same|].
    intros i f Hf. rewrite get_update by apply interface_entries_nodup.
    now rewrite (Hentries i f Hf).
  - now apply (Hnew T').
Qed.

Lemma output_describes_graph_witness :
  exists output ds' T',
    create_yaml_dict testbed_eth YNull yaml_eth = Ok output
    /\ Dict.get "devices" output = Some (YMap ds')
    /\ Dict.mem "A" ds' = true
    /\ Dict.get "topology" output = Some (YMap T')
    /\ Dict.mem "A" T' = true.
Proof.
  destruct (create_yaml_dict testbed_eth YNull yaml_eth) as [output|] eqn:E;
    [|vm_compute in E; discriminate].
  destruct (graph_device testbed_eth "A") as [dev|] eqn:G;
    [|vm_compute in G; discriminate].
  destruct (@output_describes_graph testbed_eth YNull yaml_eth output "A" dev
              E G) as (ds' & T' & em & entries & H1 & H2 & H3 & H4 & _).
  exists output, ds', T'. split; [reflexivity|]. split; [assumption|].
  split; [assumption|]. split; [assumption|].
  unfold Dict.mem. now rewrite H4.
Defined.

(** X21.  When the first device of the graph that the input configuration
    does not list has no connection, [create_yaml_dict] fails with
    [UnboundLocalError]: the name it writes under [defaults], the loop
    variable over the connections, was never bound. *)
Theorem create_yaml_dict_unbound_connect (tb : Testbed) (cred : yaml)
    (input known : Dict.t yaml) (pre post : list Device) (dev : Device) :
  Dict.values (devices tb) = pre ++ dev :: post ->
  input_devices input = Ok known ->
  (forall dev', In dev' pre -> input_knows input dev' = true) ->
  Dict.mem (dev_name dev) known = false ->
  dev_connections dev = [] ->
  create_yaml_dict tb cred input = Raise UnboundLocalError.
Proof.
  intros Hv Hk Hpre Hm Hc. unfold create_yaml_dict. rewrite Hv.
  assert (G : forall st, yd_connect st = None ->
            foldM (describe_device tb cred input) (pre ++ dev :: post) st
            = Raise UnboundLocalError).
  { clear Hv. induction pre as [|p pre IH]; intros st Hst.
    - cbn [app foldM]. unfold describe_device at 1. rewrite Hk. cbn [bind].
      rewrite Hm. cbn [negb]. unfold device_entry. rewrite Hc, Hst.
      reflexivity.
    - cbn [app foldM].
      pose proof (Hpre p (or_introl eq_refl)) as Hp. unfold input_knows in Hp.
      rewrite Hk in Hp. unfold describe_device at 1. rewrite Hk. cbn [bind].
      rewrite Hp. cbn [negb bind]. apply IH.
      + intros dev' Hin. apply Hpre. now right.
      + exact Hst. }
  rewrite G by reflexivity. reflexivity.
Qed.

Lemma create_yaml_dict_unbound_connect_witness :
  create_yaml_dict testbed_A YNull yaml_no_devices = Raise UnboundLocalError.
Proof.
  apply (@create_yaml_dict_unbound_connect testbed_A YNull yaml_no_devices []
           [] [] (sample_device "A" [] []));
    try reflexivity.
  intros dev' [].
Defined.

(* ================================================================== *)
(** * Further properties: interfaces of the devices already known *)

Lemma write_proxy_chain_lookup (finder_name : str) (tb tb' : Testbed)
    (credentials : Credentials) (ip : list str) (p : proxy) :
  write_proxy_chain finder_name tb credentials ip = Ok (p, tb') ->
  (forall j, lookup_interface tb' j = lookup_interface tb j)
  /\ links tb' = links tb.
Proof.
  intros H. apply write_proxy_chain_devices in H as [Hd Hl].
  split; [|exact Hl]. intros j. unfold lookup_interface. now rewrite Hd.
Qed.

Lemma create_device_lookup (proxy_set : list str) (st st' : wd_state)
    (new_dev : str) (rec : discovered) :
  create_device proxy_set st new_dev rec = Ok st' ->
  (forall j, lookup_interface (wd_testbed st') j
             = lookup_interface (wd_testbed st) j)
  /\ links (wd_testbed st') = links (wd_testbed st).
Proof.
  unfold create_device.
  destruct (Dict.item _ _) as [finder_dev|]; cbn [bind]; [|discriminate].
  destruct (snd (dl_finder rec)) as [|a addrs].
  - cbn [bind].
    destruct (foldM attach_interface _ _) as [dev|]; cbn [bind];
      [|discriminate].
    intros [= <-]. now split.
  - destruct (write_proxy_chain _ _ _ _) as [[finder_proxy tb]|] eqn:Ew;
      cbn [bind]; [|discriminate].
    destruct (after_loop _ _) as [ip|]; cbn [of_option bind]; [|discriminate].
    destruct (foldM attach_interface _ _) as [dev|]; cbn [bind];
      [|discriminate].
    intros [= <-]. cbn [wd_testbed].
    exact (@write_proxy_chain_lookup _ _ _ _ _ _ Ew).
Qed.

Lemma write_device_lookup (cfg : Config) (env : Env) (proxy_set : list str)
    (st st' : wd_state) (item : str * discovered) :
  write_device cfg env proxy_set st item = Ok st' ->
  (forall j f, lookup_interface (wd_testbed st) j = Ok f ->
               lookup_interface (wd_testbed st') j = Ok f)
  /\ links (wd_testbed st') = links (wd_testbed st)
  /\ Dict.keys (devices (wd_testbed st'))
     = Dict.keys (devices (wd_testbed st))
  /\ (add_unconnected_interfaces cfg = false ->
      Dict.mem (fst item) (devices (wd_testbed st)) = true ->
      forall p, In p (dl_ports (snd item)) ->
                has_interface (wd_testbed st') (fst item, p)).
Proof.
  unfold write_device.
  destruct (Dict.mem (fst item) (devices (wd_testbed st))) eqn:Em;
    cbn [negb].
  - destruct (reconcile_interfaces cfg env (wd_testbed st) (fst item)
                (snd item)) as [tb1|] eqn:Er; cbn [bind]; [|discriminate].
    intros [= <-]. cbn [wd_testbed].
    pose proof (@reconcile_interfaces_keys cfg env _ tb1 _ _ Er) as K.
    unfold reconcile_interfaces in Er.
    destruct (add_unconnected_interfaces cfg); cbn [negb] in Er.
    + destruct (match show_interfaces_description env (fst item) with
                | Ok l => Ok l
                | Raise _ => show_interface_description env (fst item)
                end) as [l|]; cbn [bind] in Er; [|discriminate].
      destruct (@ensure_interfaces_lookup _ _ _ _ Er) as (_ & A & B).
      split; [exact A|]. split; [exact B|]. split; [exact K|discriminate].
    + destruct (@ensure_interfaces_lookup _ _ _ _ Er) as (A0 & A & B).
      split; [exact A|]. split; [exact B|]. split; [exact K|].
      intros _ _. exact A0.
  - intros H.
    destruct (@create_device_lookup proxy_set st st' _ _ H) as [A B].
    destruct (@create_device_spec proxy_set st st' _ _ H) as [K _].
    split; [intros j f Hj; now rewrite A|].
    split; [exact B|]. split; [exact K|discriminate].
Qed.

Lemma write_devices_lookup (cfg : Config) (env : Env) (proxy_set : list str)
    (dl : device_list_t) (st st' : wd_state) :
  foldM (write_device cfg env proxy_set) dl st = Ok st' ->
  (forall j f, lookup_interface (wd_testbed st) j = Ok f ->
               lookup_interface (wd_testbed st') j = Ok f)
  /\ links (wd_testbed st') = links (wd_testbed st)
  /\ Dict.keys (devices (wd_testbed st'))
     = Dict.keys (devices (wd_testbed st))
  /\ (add_unconnected_interfaces cfg = false ->
      forall item p, In item dl ->
        Dict.mem (fst item) (devices (wd_testbed st)) = true ->
        In p (dl_ports (snd item)) ->
        has_interface (wd_testbed st') (fst item, p)).
Proof.
  revert st; induction dl as [|item dl IH]; intros st; cbn [foldM].
  - intros [= <-]. split; [auto|]. split; [reflexivity|].
    split; [reflexivity|]. intros _ item p [].
  - destruct (write_device cfg env proxy_set st item) as [st1|] eqn:E;
      cbn [bind]; [|discriminate].
    intros H. destruct (IH _ H) as (A & B & K & C).
    destruct (@write_device_lookup cfg env proxy_set st st1 item E)
      as (A1 & B1 & K1 & C1).
    split; [intros j f Hj; apply A, A1, Hj|].
    split; [congruence|]. split; [congruence|].
    intros Hc item' p [<-|Hin] Hm Hp.
    + destruct (C1 Hc Hm p Hp) as [f Hf]. exists f. now apply A.
    + apply (C Hc item' p Hin); [|assumption].
      apply mem_keys. rewrite K1. now apply mem_keys.
Qed.

(** X22.  The pass over [device_list] keeps every interface of the testbed
    as it is and leaves the links alone; without the option to add
    unconnected interfaces, every port recorded for a device that is
    already in the testbed is an interface of that device afterwards. *)
Theorem write_devices_keeps_interfaces (cfg : Config) (env : Env)
    (proxy_set : list str) (dl : device_list_t) (tb tb' : Testbed)
    (nd : Dict.t Device) :
  _write_devices_into_testbed cfg env proxy_set dl tb = Ok (nd, tb') ->
  (forall j f, lookup_interface tb j = Ok f -> lookup_interface tb' j = Ok f)
  /\ links tb' = links tb
  /\ (add_unconnected_interfaces cfg = false ->
      forall name rec p, In (name, rec) dl ->
        Dict.mem name (devices tb) = true -> In p (dl_ports rec) ->
        has_interface tb' (name, p)).
Proof.
  unfold _write_devices_into_testbed.
  destruct (foldM _ dl _) as [st|] eqn:E; cbn [bind]; [|discriminate].
  intros [= <- <-].
  destruct (@write_devices_lookup cfg env proxy_set dl _ st E)
    as (A & B & _ & C).
  cbn [wd_testbed] in *. split; [exact A|]. split; [exact B|].
  intros Hc name rec p Hin Hm Hp. exact (C Hc (name, rec) p Hin Hm Hp).
Qed.

Lemma write_devices_keeps_interfaces_witness :
  exists nd tb',
    _write_devices_into_testbed (no_exclusions false) silent_env []
      [("A", record_X)] testbed_A = Ok (nd, tb')
    /\ has_interface tb' ("A", "Gi0/1").
Proof.
  do 2 eexists. split; [reflexivity|].
  destruct (@write_devices_keeps_interfaces (no_exclusions false) silent_env
              [] [("A", record_X)] testbed_A _ _ eq_refl) as (_ & _ & C).
  apply (C eq_refl "A" record_X "Gi0/1"); [now left|reflexivity|now left].
Defined.

(* ================================================================== *)
(** * Further properties: the records of the neighbours only grow *)

Lemma record_extended_refl (r : discovered) : record_extended r r.
Proof. unfold record_extended. auto using incl_refl. Qed.

Lemma device_list_grows_refl (dl : device_list_t) : device_list_grows dl dl.
Proof. intros h r H. exists r. split; [assumption|apply record_extended_refl]. Qed.

Lemma device_list_grows_trans (a b c : device_list_t) :
  device_list_grows a b -> device_list_grows b c -> device_list_grows a c.
Proof.
  intros H1 H2 h r H. destruct (H1 _ _ H) as (r1 & E1 & A1 & A2 & A3 & A4).
  destruct (H2 _ _ E1) as (r2 & E2 & B1 & B2 & B3 & B4).
  exists r2. split; [assumption|]. unfold record_extended.
  split; [congruence|]. split; [eapply incl_tran; eassumption|].
  split; [eapply incl_tran; eassumption|auto].
Qed.

Lemma add_to_device_list_grows (dl : device_list_t) (h p : str)
    (ia : list str) (ma : list (option str)) (os : option str) (dn : str) :
  device_list_grows dl (add_to_device_list dl h p ia ma os dn).
Proof.
  intros k r Hk. unfold add_to_device_list.
  destruct (String.eqb h k) eqn:E.
  - apply String.eqb_eq in E. subst k. rewrite Hk.
    eexists. rewrite get_set_same. split; [reflexivity|].
    unfold record_extended. cbn. split; [reflexivity|].
    split; [intros x Hx; now apply set_add_intro1|].
    split; [intros x Hx; apply set_union_ostr_spec; now left|].
    intros o Ho. now rewrite Ho.
  - apply String.eqb_neq in E.
    exists r. split; [|apply record_extended_refl].
    destruct (Dict.get h dl); rewrite get_set_other by congruence; exact Hk.
Qed.

Lemma process_cdp_entry_grows (cfg : Config) (nets : list network)
    (tb : Testbed) (name : str) (st st' : merge_state) (c : cdp_entry) :
  process_cdp_entry cfg nets tb name st c = Ok st' ->
  device_list_grows (fst st) (fst st').
Proof.
  unfold process_cdp_entry.
  destruct (cdp_raw_host c) as [raw|]; cbn [of_option bind]; [|discriminate].
  destruct (only_links cfg && _);
    [intros [= <-]; apply device_list_grows_refl|].
  destruct (contains (local_interface c) _);
    [intros [= <-]; apply device_list_grows_refl|].
  destruct (contains (port_id c) _);
    [intros [= <-]; apply device_list_grows_refl|].
  destruct (management_addresses c) as [mgmt|]; cbn [of_option bind];
    [|discriminate].
  destruct (interface_addresses c) as [ints|]; cbn [of_option bind];
    [|discriminate].
  destruct (product_excluded (set_of_list ints) nets) as [s1|]; cbn [bind];
    [|discriminate].
  destruct (product_excluded (set_of_list mgmt) nets) as [s2|]; cbn [bind];
    [|discriminate].
  destruct (s1 || s2); intros [= <-];
    [apply device_list_grows_refl|apply add_to_device_list_grows].
Qed.

Lemma process_lldp_port_grows (cfg : Config) (nets : list network)
    (tb : Testbed) (name interface : str) (st st' : merge_state)
    (port : str * Dict.t lldp_neighbor) :
  process_lldp_port cfg nets tb name interface st port = Ok st' ->
  device_list_grows (fst st) (fst st').
Proof.
  unfold process_lldp_port.
  destruct (snd port) as [|[dest_host neighbor] rest]; [discriminate|].
  destruct (only_links cfg && _);
    [intros [= <-]; apply device_list_grows_refl|].
  destruct (contains interface _);
    [intros [= <-]; apply device_list_grows_refl|].
  destruct (contains (fst port) _);
    [intros [= <-]; apply device_list_grows_refl|].
  destruct (lldp_excluded nets (lldp_ip_address neighbor)) as [stop|];
    cbn [bind]; [|discriminate].
  destruct stop; [intros [= <-]; apply device_list_grows_refl|].
  destruct (system_description neighbor); cbn [of_option bind];
    [|discriminate].
  intros [= <-]. apply add_to_device_list_grows.
Qed.

Lemma get_device_connections_grows (cfg : Config) (nets : list network)
    (tb tb' : Testbed) (name : str) (data : neighbor_data)
    (dl dl' : device_list_t) (cd : connection_dict_t) :
  get_device_connections cfg nets tb name data dl = Ok (cd, dl', tb') ->
  device_list_grows dl dl'.
Proof.
  unfold get_device_connections.
  set (st0 := (dl, []) : merge_state).
  change (device_list_grows dl dl') with (device_list_grows (fst st0) dl').
  clearbody st0.
  set (R := fun a b : merge_state => device_list_grows (fst a) (fst b)).
  assert (Hr : forall s, R s s) by (intros s; apply device_list_grows_refl).
  assert (Ht : forall a b c, R a b -> R b c -> R a c)
    by (intros a b c; apply device_list_grows_trans).
  destruct (match cdp data with
            | Some parsed => _process_cdp_information cfg nets tb name parsed st0
            | None => Ok st0
            end) as [st1|] eqn:E1; cbn [bind]; [|discriminate].
  assert (H1 : R st0 st1).
  { destruct (cdp data) as [entries|]; [|injection E1 as <-; apply Hr].
    revert E1. unfold _process_cdp_information.
    apply (foldM_rel R (process_cdp_entry cfg nets tb name) Hr Ht).
    intros s x s'. apply process_cdp_entry_grows. }
  destruct (match lldp data with
            | Some parsed =>
                if negb (Z.eqb (total_entries parsed) 0)
                then _process_lldp_information cfg nets tb name parsed st1
                else Ok st1
            | None => Ok st1
            end) as [st2|] eqn:E2; cbn [bind]; [|discriminate].
  assert (H2 : R st1 st2).
  { destruct (lldp data) as [parsed|]; [|injection E2 as <-; apply Hr].
    destruct (negb _); [|injection E2 as <-; apply Hr].
    revert E2. unfold _process_lldp_information.
    apply (foldM_rel R _ Hr Ht). intros s item s'.
    apply (foldM_rel R (process_lldp_port cfg nets tb name (fst item)) Hr Ht).
    intros a x b. apply process_lldp_port_grows. }
  destruct (foldM (ensure_interface_on name) _ tb) as [tb1|]; cbn [bind];
    [|discriminate].
  intros [= <- <- <-]. exact (Ht _ _ _ H1 H2).
Qed.

(** X23.  A round of discovery never forgets what [device_list] holds: a
    recorded neighbour stays recorded, with the finder it had, that is the
    device that reported it first, with all its ports and addresses, and
    with its OS once the OS is known. *)
Theorem device_list_only_grows (cfg : Config) (env : Env)
    (nets : list network) (proxy_set : list str) (st st' : run_state) :
  discovery_round cfg env nets proxy_set st = Ok st' ->
  forall h r, Dict.get h (rs_device_list st) = Some r ->
    exists r',
      Dict.get h (rs_device_list st') = Some r'
      /\ dl_finder r' = dl_finder r
      /\ incl (dl_ports r) (dl_ports r')
      /\ incl (dl_ip r) (dl_ip r')
      /\ (forall o, dl_os r = Some o -> dl_os r' = Some o).
Proof.
  unfold discovery_round, process_neigbor_data.
  destruct (mark_unvisited (rs_testbed st) (rs_visited st))
    as [visited todo].
  called_devices todo.
  destruct (foldM (process_device cfg env nets) todo
              ([], rs_device_list st, rs_testbed st))
    as [[[cd dl] tb]|] eqn:Ef; cbn [bind]; [|discriminate].
  cbn [rs_device_list rs_testbed].
  destruct (_write_devices_into_testbed cfg env proxy_set dl tb)
    as [[nd tb2]|]; cbn [bind]; [|discriminate].
  destruct (_write_connections_to_testbed cd (add_devices nd tb2))
    as [tb3|]; cbn [bind]; [|discriminate].
  intros [= <-]. cbn [rs_device_list].
  assert (G : device_list_grows (rs_device_list st) dl).
  { revert Ef.
    apply (foldM_rel
             (fun a b : Dict.t connection_dict_t * device_list_t * Testbed =>
                device_list_grows (snd (fst a)) (snd (fst b)))
             (process_device cfg env nets)).
    - intros s. apply device_list_grows_refl.
    - intros a b c. apply device_list_grows_trans.
    - intros [[c0 d0] t0] x s' E. unfold process_device in E.
      destruct (get_device_connections _ _ _ _ _ _) as [[[cs d1] t1]|] eqn:Eg;
        cbn [bind] in E; [|discriminate].
      injection E as <-. cbn [fst snd].
      exact (@get_device_connections_grows _ _ _ _ _ _ _ _ _ Eg). }
  exact G.
Qed.

Lemma device_list_only_grows_witness :
  exists st' r',
    discovery_round (no_exclusions false) env_edge1 [] []
      {| rs_testbed := testbed_A; rs_visited := [];
         rs_device_list := [("edge1", record_X)] |} = Ok st'
    /\ Dict.get "edge1" (rs_device_list st') = Some r'
    /\ dl_finder r' = ("A", []).
Proof.
  destruct (discovery_round (no_exclusions false) env_edge1 [] []
              {| rs_testbed := testbed_A; rs_visited := [];
                 rs_device_list := [("edge1", record_X)] |})
    as [st'|] eqn:E; [|vm_compute in E; discriminate].
  destruct (@device_list_only_grows (no_exclusions false) env_edge1 [] [] _
              st' E "edge1" record_X eq_refl) as (r' & H1 & H2 & _).
  exists st', r'. split; [reflexivity|]. split; assumption.
Defined.
